(** * browser-fingerprint: fingerprint generation and page overrides

    A shallow embedding of the fingerprint generators ([ua.ts], [canvas.ts],
    [webgl.ts], [hardware.ts]), of the profile manager ([profile.ts]) and of
    the page scripts that the launcher installs ([launcher.ts] and the
    injection scripts), followed by the properties proved about them.

    JavaScript numbers are IEEE 754 binary64 values.  They are modelled by
    the Standard Library's [spec_float] at precision 53, with its correctly
    rounded operations ([SF64add], [SF64mul], ...). *)

From Stdlib Require Import ZArith Lia Bool Ascii String HexadecimalString Floats.
From stdpp Require Import gmap strings list pretty.

Set Warnings "-inexact-float".
Local Open Scope Z_scope.

(* ================================================================== *)
(** * Part I. Definitions *)
(* ================================================================== *)

(** ** JavaScript numbers *)

Definition number : Type := spec_float.

#[global] Instance number_eq_dec : EqDecision number.
Proof. solve_decision. Defined.

(** An integer literal, and the numeric literals of the sources. *)
Definition Z2F (z : Z) : number := binary_normalize prec emax z 0 false.

Definition lit_0_5 : number := Eval vm_compute in Prim2SF 0.5%float.
Definition lit_0_7 : number := Eval vm_compute in Prim2SF 0.7%float.
Definition lit_0_2 : number := Eval vm_compute in Prim2SF 0.2%float.
Definition lit_0_1 : number := Eval vm_compute in Prim2SF 0.1%float.
Definition lit_0_9 : number := Eval vm_compute in Prim2SF 0.9%float.
Definition lit_1_25 : number := Eval vm_compute in Prim2SF 1.25%float.
Definition lit_1_5 : number := Eval vm_compute in Prim2SF 1.5%float.

Definition is_NaN (x : number) : bool :=
  match x with S754_nan => true | _ => false end.

(** [Math.floor]. A finite double with a non-negative exponent is an integer
    already; otherwise the mantissa is shifted right, which rounds towards
    minus infinity on [Z]. *)
Definition Math_floor (x : number) : number :=
  match x with
  | S754_finite s m e =>
      if 0 <=? e then x
      else binary_normalize prec emax (Z.shiftl (cond_Zopp s (Zpos m)) e) 0 s
  | _ => x
  end.

(** [Math.min] and [Math.max]: NaN if either argument is NaN, and -0 is
    smaller than +0. *)
Definition Math_min (a b : number) : number :=
  if is_NaN a || is_NaN b then S754_nan
  else match a, b with
       | S754_zero sa, S754_zero sb => S754_zero (sa || sb)
       | _, _ => if SFltb b a then b else a
       end.

Definition Math_max (a b : number) : number :=
  if is_NaN a || is_NaN b then S754_nan
  else match a, b with
       | S754_zero sa, S754_zero sb => S754_zero (sa && sb)
       | _, _ => if SFltb a b then b else a
       end.

(** The mathematical integer denoted by an integer-valued double. *)
Definition to_Z (x : number) : option Z :=
  match x with
  | S754_zero _ => Some 0
  | S754_finite s m e =>
      if 0 <=? e then Some (cond_Zopp s (Zpos m * 2 ^ e))
      else if Zpos m mod 2 ^ (- e) =? 0
           then Some (cond_Zopp s (Zpos m / 2 ^ (- e)))
           else None
  | _ => None
  end.

(** [arr[x]]: the element at an array index, [undefined] (here [None]) when
    [x] is not the index of an element. *)
Definition js_get {A} (arr : list A) (x : number) : option A :=
  match to_Z x with
  | Some i => if 0 <=? i then arr !! Z.to_nat i else None
  | None => None
  end.

(** [Number.prototype.toString()] and [toString(16)]. On integer-valued
    doubles of magnitude below 1e21 these are the decimal and hexadecimal
    numerals; the generators render no other finite number, and for those
    the integer part of the value is printed. *)
Definition int_part (x : number) : Z :=
  match x with
  | S754_finite s m e => cond_Zopp s (Z.shiftl (Zpos m) e)
  | _ => 0
  end.

Definition Number_toString (x : number) : string :=
  match x with
  | S754_nan => "NaN"
  | S754_infinity s => if s then "-Infinity" else "Infinity"
  | _ => pretty (int_part x)
  end.

Definition Number_toString16 (x : number) : string :=
  match x with
  | S754_nan => "NaN"
  | S754_infinity s => if s then "-Infinity" else "Infinity"
  | _ =>
      let z := int_part x in
      (if z <? 0 then "-" else EmptyString) +:+
      NilZero.string_of_uint (N.to_hex_uint (Z.to_N (Z.abs z)))
  end.

(** [ToUint8Clamp], the conversion applied by a store into a
    [Uint8ClampedArray]: NaN becomes 0, the value is clamped to [0, 255] and
    rounded to the nearest integer, ties to even. *)
Definition round_half_even (m : positive) (e : Z) : Z :=
  if 0 <=? e then Zpos m * 2 ^ e
  else
    let q := Zpos m / 2 ^ (- e) in
    let r := Zpos m mod 2 ^ (- e) in
    let half := 2 ^ (- e - 1) in
    if r <? half then q
    else if half <? r then q + 1
    else if Z.even q then q else q + 1.

Definition ToUint8Clamp (x : number) : Z :=
  match x with
  | S754_nan => 0
  | S754_zero _ => 0
  | S754_infinity s => if s then 0 else 255
  | S754_finite true _ _ => 0
  | S754_finite false m e => Z.min 255 (round_half_even m e)
  end.

(** [ToInt32], applied by the bitwise operators. *)
Definition ToInt32 (z : Z) : Z := (z + 2 ^ 31) mod 2 ^ 32 - 2 ^ 31.

(** A result of [Math.random()]: a double of positive sign, at least +0 and
    below 1. *)
Definition is_unit_draw (r : number) : bool :=
  match r with
  | S754_zero s => negb s
  | S754_finite s _ _ => negb s && valid_binary r && SFltb r (Z2F 1)
  | _ => false
  end.

(** ** Strings *)

(** The double quote character, for the header values that contain it. *)
Definition dq : string := String (ascii_of_nat 34) EmptyString.

(** [s.includes(needle)]. *)
Fixpoint includes (needle s : string) : bool :=
  if String.prefix needle s then true
  else match s with
       | EmptyString => false
       | String _ s' => includes needle s'
       end.

Definition is_digit (c : ascii) : bool :=
  let n := nat_of_ascii c in (48 <=? n)%nat && (n <=? 57)%nat.

(** The longest run of characters satisfying [p] at the head of [s], and
    what follows it. *)
Fixpoint span (p : ascii -> bool) (s : string) : string * string :=
  match s with
  | String c s' =>
      if p c then let '(a, b) := span p s' in (String c a, b) else (EmptyString, s)
  | EmptyString => (EmptyString, EmptyString)
  end.

(** [\d+] followed by a literal dot. *)
Definition digits_dot (s : string) : option (string * string) :=
  match span is_digit s with
  | (EmptyString, _) => None
  | (d, String "." rest) => Some (d, rest)
  | _ => None
  end.

(** [(\d+\.\d+\.\d+\.\d+)] anchored at the head of [s]. The digit class and
    the dot are disjoint, so the greedy runs are the only way to match. *)
Definition version_at (s : string) : option string :=
  match digits_dot s with
  | Some (d1, s1) =>
      match digits_dot s1 with
      | Some (d2, s2) =>
          match digits_dot s2 with
          | Some (d3, s3) =>
              match span is_digit s3 with
              | (EmptyString, _) => None
              | (d4, _) => Some (d1 +:+ "." +:+ d2 +:+ "." +:+ d3 +:+ "." +:+ d4)
              end
          | None => None
          end
      | None => None
      end
  | None => None
  end.

(** The first capture group of the leftmost match of
    [/Chrome\/(\d+\.\d+\.\d+\.\d+)/]. *)
Fixpoint match_Chrome_version (s : string) : option string :=
  let here :=
    if String.prefix "Chrome/" s
    then version_at (String.substring 7 (String.length s - 7) s)
    else None in
  match here with
  | Some v => Some v
  | None =>
      match s with
      | EmptyString => None
      | String _ s' => match_Chrome_version s'
      end
  end.

(** [[^)]+] followed by a closing parenthesis, anchored at the head of [s]. *)
Definition group_at (s : string) : option string :=
  match span (fun c => negb (Ascii.eqb c ")")) s with
  | (EmptyString, _) => None
  | (g, String _ _) => Some g
  | (_, EmptyString) => None
  end.

(** The first capture group of the leftmost match of [/\(([^)]+)\)/]. *)
Fixpoint match_parenthesised (s : string) : option string :=
  match s with
  | EmptyString => None
  | String c s' =>
      let here := if Ascii.eqb c "(" then group_at s' else None in
      match here with
      | Some g => Some g
      | None => match_parenthesised s'
      end
  end.

(** [s.split('.')[0]]. *)
Definition split_dot_head (s : string) : string :=
  fst (span (fun c => negb (Ascii.eqb c ".")) s).

(** [s.charCodeAt(i)] for every [i], in order. *)
Definition charCodes (s : string) : list Z :=
  map (fun c => Z.of_nat (nat_of_ascii c)) (list_ascii_of_string s).

(** ** Data model *)

(** [PlatformType] of [ua.ts]. *)
Inductive PlatformType := windows | mac | linux | random.

#[global] Instance PlatformType_eq_dec : EqDecision PlatformType.
Proof. solve_decision. Defined.

(** [CanvasNoiseConfig] of [canvas.ts]. *)
Record CanvasNoiseConfig := {
  canvas_enabled : bool;
  canvas_noise : number;
  canvas_seed : string;
}.

(** [WebGLConfig] of [webgl.ts]. *)
Record WebGLConfig := {
  webgl_enabled : bool;
  webgl_vendor : string;
  webgl_renderer : string;
  webgl_seed : string;
}.

(** [HardwareConfig] of [hardware.ts]. [generateRandomHardware] returns an
    [Omit<HardwareConfig, 'enabled' | 'seed'>], which [getDefaultHardwareConfig]
    spreads into the full record. *)
Record RandomHardware := {
  hardwareConcurrency : Z;
  deviceMemory : Z;
  hw_platform : string;
  language : string;
  languages : list string;
  timezone : string;
  screenWidth : Z;
  screenHeight : Z;
  colorDepth : Z;
  pixelRatio : number;
}.

Record HardwareConfig := {
  hw_enabled : bool;
  hw_fields :> RandomHardware;
  hw_seed : string;
}.

(** [ProxyConfig] and [ProfileConfig] of [profile.ts]. *)
Inductive ProxyType := proxy_http | proxy_socks5 | proxy_warp.

Record ProxyConfig := {
  proxy_type : ProxyType;
  proxy_host : option string;
  proxy_port : option Z;
  proxy_username : option string;
  proxy_password : option string;
  warpPort : option Z;
}.

Record ProfileConfig := {
  id : string;
  name : string;
  createdAt : string;
  lastUsed : string;
  userAgent : string;
  platform : PlatformType;
  canvas : CanvasNoiseConfig;
  webgl : WebGLConfig;
  hardware : HardwareConfig;
  proxy : option ProxyConfig;
}.

(** [Partial<ProfileConfig>]: the keys present in an update object. *)
Record ProfileUpdates := {
  upd_id : option string;
  upd_name : option string;
  upd_createdAt : option string;
  upd_lastUsed : option string;
  upd_userAgent : option string;
  upd_platform : option PlatformType;
  upd_canvas : option CanvasNoiseConfig;
  upd_webgl : option WebGLConfig;
  upd_hardware : option HardwareConfig;
  upd_proxy : option (option ProxyConfig);
}.

(** ** The environment of the Node process

    [Math.random()], [uuidv4()] and [new Date().toISOString()] are read off
    tapes, one cell per call; [config_files] holds the parsed content of
    [<profilesDir>/<id>/config.json] for every profile that has one. *)
Record World := mkWorld {
  Math_random_tape : nat -> number;
  Math_random_calls : nat;
  uuid_tape : nat -> string;
  uuid_calls : nat;
  Date_tape : nat -> string;
  Date_calls : nat;
  config_files : gmap string ProfileConfig;
}.

(** A computation either returns a value and a new world, or fails: an
    exception is thrown, or [undefined] reaches a place whose declared type
    excludes it. *)
Definition M (A : Type) : Type := World -> option (A * World).

Definition ret {A} (a : A) : M A := fun w => Some (a, w).

Definition bind {A B} (m : M A) (k : A -> M B) : M B :=
  fun w => match m w with
           | Some (a, w') => k a w'
           | None => None
           end.

Definition fail {A} : M A := fun _ => None.

Notation "'do' x <- m ; k" := (bind m (fun x => k))
  (at level 10, x name, m at level 100, k at level 200, only parsing).

Definition defined {A} (o : option A) : M A :=
  match o with Some a => ret a | None => fail end.

Fixpoint replicateM {A} (n : nat) (m : M A) : M (list A) :=
  match n with
  | O => ret []
  | S n' => do x <- m; do xs <- replicateM n' m; ret (x :: xs)
  end.

Definition Math_random : M number := fun w =>
  Some (Math_random_tape w (Math_random_calls w),
        mkWorld (Math_random_tape w) (S (Math_random_calls w))
                (uuid_tape w) (uuid_calls w) (Date_tape w) (Date_calls w)
                (config_files w)).

Definition uuidv4 : M string := fun w =>
  Some (uuid_tape w (uuid_calls w),
        mkWorld (Math_random_tape w) (Math_random_calls w)
                (uuid_tape w) (S (uuid_calls w)) (Date_tape w) (Date_calls w)
                (config_files w)).

(** [new Date().toISOString()]. *)
Definition Date_now_ISO : M string := fun w =>
  Some (Date_tape w (Date_calls w),
        mkWorld (Math_random_tape w) (Math_random_calls w)
                (uuid_tape w) (uuid_calls w) (Date_tape w) (S (Date_calls w))
                (config_files w)).

(** [fs.existsSync(configPath)] followed by [JSON.parse(fs.readFileSync(..))]. *)
Definition read_config (profileId : string) : M (option ProfileConfig) := fun w =>
  Some (config_files w !! profileId, w).

(** [fs.writeFileSync(configPath, JSON.stringify(config, null, 2))]. *)
Definition write_config (profileId : string) (config : ProfileConfig) : M unit := fun w =>
  Some (tt,
        mkWorld (Math_random_tape w) (Math_random_calls w)
                (uuid_tape w) (uuid_calls w) (Date_tape w) (Date_calls w)
                (<[profileId := config]> (config_files w))).

(** Every future result of [Math.random()] lies in [0, 1). *)
Definition random_in_range (w : World) : Prop :=
  forall i, is_unit_draw (Math_random_tape w (Math_random_calls w + i)) = true.

(** ** [ua.ts] *)

Definition CHROME_VERSIONS_min : number := Z2F 110.
Definition CHROME_VERSIONS_max : number := Z2F 120.

Definition PLATFORMS_windows_versions : list string := ["10.0"; "11.0"].
Definition PLATFORMS_windows_arch : list string := ["Win64; x64"].
Definition PLATFORMS_mac_versions : list string :=
  ["10_15_7"; "11_0"; "12_0"; "13_0"; "14_0"].

(** [WEBKIT_BASE = 537.36] is only ever interpolated into a string. *)
Definition WEBKIT_BASE : string := "537.36".

Definition randomInt (min max : number) : M number :=
  do r <- Math_random;
  ret (SF64add (Math_floor (SF64mul r (SF64add (SF64sub max min) (Z2F 1)))) min).

Definition randomChoice {A} (arr : list A) : M A :=
  do r <- Math_random;
  defined (js_get arr (Math_floor (SF64mul r (Z2F (Z.of_nat (length arr)))))).

Definition generateChromeVersion : M string :=
  do major <- randomInt CHROME_VERSIONS_min CHROME_VERSIONS_max;
  let minor := Z2F 0 in
  do build <- randomInt (Z2F 5000) (Z2F 6000);
  do patch <- randomInt (Z2F 0) (Z2F 200);
  ret (Number_toString major +:+ "." +:+ Number_toString minor +:+ "." +:+
       Number_toString build +:+ "." +:+ Number_toString patch).

Definition generateWindowsUA : M string :=
  do chromeVersion <- generateChromeVersion;
  do ntVersion <- randomChoice PLATFORMS_windows_versions;
  do arch <- randomChoice PLATFORMS_windows_arch;
  ret ("Mozilla/5.0 (Windows NT " +:+ ntVersion +:+ "; " +:+ arch +:+
       ") AppleWebKit/" +:+ WEBKIT_BASE +:+ " (KHTML, like Gecko) Chrome/" +:+
       chromeVersion +:+ " Safari/" +:+ WEBKIT_BASE).

Definition generateMacUA : M string :=
  do chromeVersion <- generateChromeVersion;
  do osVersion <- randomChoice PLATFORMS_mac_versions;
  ret ("Mozilla/5.0 (Macintosh; Intel Mac OS X " +:+ osVersion +:+
       ") AppleWebKit/" +:+ WEBKIT_BASE +:+ " (KHTML, like Gecko) Chrome/" +:+
       chromeVersion +:+ " Safari/" +:+ WEBKIT_BASE).

Definition generateLinuxUA : M string :=
  do chromeVersion <- generateChromeVersion;
  ret ("Mozilla/5.0 (X11; Linux x86_64) AppleWebKit/" +:+ WEBKIT_BASE +:+
       " (KHTML, like Gecko) Chrome/" +:+ chromeVersion +:+ " Safari/" +:+
       WEBKIT_BASE).

(** The loop of [generateUA] over [platforms] and [weights]: [cumulative] is
    the running sum before this iteration, [platform] the value the variable
    keeps if no iteration breaks. *)
Fixpoint pick_weighted (rand cumulative : number)
    (platforms : list PlatformType) (weights : list number)
    (platform : PlatformType) : PlatformType :=
  match platforms, weights with
  | p :: platforms', w :: weights' =>
      let cumulative := SF64add cumulative w in
      if SFltb rand cumulative then p
      else pick_weighted rand cumulative platforms' weights' platform
  | _, _ => platform
  end.

Definition resolve_platform (platform : PlatformType) : M PlatformType :=
  match platform with
  | random =>
      let platforms := [windows; mac; linux] in
      let weights := [lit_0_7; lit_0_2; lit_0_1] in
      do rand <- Math_random;
      ret (pick_weighted rand (Z2F 0) platforms weights platform)
  | _ => ret platform
  end.

Definition generateUA (platform : PlatformType) : M string :=
  do platform <- resolve_platform platform;
  match platform with
  | windows => generateWindowsUA
  | mac => generateMacUA
  | linux => generateLinuxUA
  | random => generateWindowsUA
  end.

Record UAComponents := {
  ua_platform : string;
  ua_platformVersion : string;
  ua_browser : string;
  ua_browserVersion : string;
  ua_webkit : string;
  ua_chrome : string;
}.

Definition parseUA (ua : string) : option UAComponents :=
  let chromeMatch := match_Chrome_version ua in
  let platformMatch := match_parenthesised ua in
  match chromeMatch, platformMatch with
  | Some chrome1, Some platform1 =>
      Some {| ua_platform := platform1;
              ua_platformVersion := EmptyString;
              ua_browser := "Chrome";
              ua_browserVersion := chrome1;
              ua_webkit := WEBKIT_BASE;
              ua_chrome := chrome1 |}
  | _, _ => None
  end.

(** The value of [sec-ch-ua] for a major version. *)
Definition sec_ch_ua (majorVersion : string) : string :=
  dq +:+ "Chromium" +:+ dq +:+ ";v=" +:+ dq +:+ majorVersion +:+ dq +:+ ", " +:+
  dq +:+ "Google Chrome" +:+ dq +:+ ";v=" +:+ dq +:+ majorVersion +:+ dq +:+ ", " +:+
  dq +:+ "Not=A?Brand" +:+ dq +:+ ";v=" +:+ dq +:+ "8" +:+ dq.

(** The returned object, as its list of own properties in insertion order. *)
Definition generateClientHints (ua : string) : list (string * string) :=
  match parseUA ua with
  | None => []
  | Some parsed =>
      let majorVersion := split_dot_head (ua_browserVersion parsed) in
      [ ("sec-ch-ua", sec_ch_ua majorVersion);
        ("sec-ch-ua-mobile", "?0");
        ("sec-ch-ua-platform",
          if includes "Windows" ua then dq +:+ "Windows" +:+ dq
          else if includes "Mac" ua then dq +:+ "macOS" +:+ dq
          else dq +:+ "Linux" +:+ dq) ]
  end.

(** ** [canvas.ts]: generation *)

(** [Array.from({ length: 32 }, () => Math.floor(Math.random() * 16).toString(16)).join('')],
    the body shared by the three seed generators. *)
Definition random_hex_digit : M string :=
  do r <- Math_random;
  ret (Number_toString16 (Math_floor (SF64mul r (Z2F 16)))).

Definition random_hex32 : M string :=
  do digits <- replicateM 32 random_hex_digit;
  ret (fold_right String.append EmptyString digits).

Definition generateCanvasNoiseSeed : M string := random_hex32.

Definition getDefaultCanvasConfig : M CanvasNoiseConfig :=
  do seed <- generateCanvasNoiseSeed;
  ret {| canvas_enabled := true; canvas_noise := Z2F 3; canvas_seed := seed |}.

(** ** [webgl.ts]: generation *)

Record GPU := { vendor : string; renderer : string }.

Definition GPU_CONFIGS : list GPU := [
  {| vendor := "Google Inc. (NVIDIA)"; renderer := "ANGLE (NVIDIA, NVIDIA GeForce GTX 1650 Direct3D11 vs_5_0 ps_5_0, D3D11)" |};
  {| vendor := "Google Inc. (NVIDIA)"; renderer := "ANGLE (NVIDIA, NVIDIA GeForce GTX 1660 SUPER Direct3D11 vs_5_0 ps_5_0, D3D11)" |};
  {| vendor := "Google Inc. (NVIDIA)"; renderer := "ANGLE (NVIDIA, NVIDIA GeForce RTX 2060 Direct3D11 vs_5_0 ps_5_0, D3D11)" |};
  {| vendor := "Google Inc. (NVIDIA)"; renderer := "ANGLE (NVIDIA, NVIDIA GeForce RTX 3060 Direct3D11 vs_5_0 ps_5_0, D3D11)" |};
  {| vendor := "Google Inc. (NVIDIA)"; renderer := "ANGLE (NVIDIA, NVIDIA GeForce RTX 3070 Direct3D11 vs_5_0 ps_5_0, D3D11)" |};
  {| vendor := "Google Inc. (NVIDIA)"; renderer := "ANGLE (NVIDIA, NVIDIA GeForce RTX 3080 Direct3D11 vs_5_0 ps_5_0, D3D11)" |};
  {| vendor := "Google Inc. (NVIDIA)"; renderer := "ANGLE (NVIDIA, NVIDIA GeForce RTX 4060 Direct3D11 vs_5_0 ps_5_0, D3D11)" |};
  {| vendor := "Google Inc. (NVIDIA)"; renderer := "ANGLE (NVIDIA, NVIDIA GeForce RTX 4070 Direct3D11 vs_5_0 ps_5_0, D3D11)" |};
  {| vendor := "Google Inc. (AMD)"; renderer := "ANGLE (AMD, AMD Radeon RX 580 Series Direct3D11 vs_5_0 ps_5_0, D3D11)" |};
  {| vendor := "Google Inc. (AMD)"; renderer := "ANGLE (AMD, AMD Radeon RX 5600 XT Direct3D11 vs_5_0 ps_5_0, D3D11)" |};
  {| vendor := "Google Inc. (AMD)"; renderer := "ANGLE (AMD, AMD Radeon RX 6700 XT Direct3D11 vs_5_0 ps_5_0, D3D11)" |};
  {| vendor := "Google Inc. (AMD)"; renderer := "ANGLE (AMD, AMD Radeon RX 6800 XT Direct3D11 vs_5_0 ps_5_0, D3D11)" |};
  {| vendor := "Google Inc. (Intel)"; renderer := "ANGLE (Intel, Intel(R) UHD Graphics 630 Direct3D11 vs_5_0 ps_5_0, D3D11)" |};
  {| vendor := "Google Inc. (Intel)"; renderer := "ANGLE (Intel, Intel(R) Iris(R) Xe Graphics Direct3D11 vs_5_0 ps_5_0, D3D11)" |};
  {| vendor := "Google Inc. (Intel)"; renderer := "ANGLE (Intel, Intel(R) UHD Graphics 770 Direct3D11 vs_5_0 ps_5_0, D3D11)" |};
  {| vendor := "Google Inc. (Apple)"; renderer := "ANGLE (Apple, Apple M1 Pro, OpenGL 4.1)" |};
  {| vendor := "Google Inc. (Apple)"; renderer := "ANGLE (Apple, Apple M2, OpenGL 4.1)" |};
  {| vendor := "Google Inc. (Apple)"; renderer := "ANGLE (Apple, Apple M2 Pro, OpenGL 4.1)" |}
].

(** [candidates.length ? candidates : table]. *)
Definition or_all {A} (candidates table : list A) : list A :=
  match candidates with [] => table | _ => candidates end.

(** [generateRandomGPU], with the GPU table as a parameter. *)
Definition generateRandomGPU_from (table : list GPU) (platform : PlatformType) : M GPU :=
  match platform with
  | mac =>
      let candidates := filter (fun g => includes "(Apple)" (vendor g) = true) table in
      randomChoice (or_all candidates table)
  | windows | linux =>
      let candidates := filter (fun g => negb (includes "(Apple)" (vendor g)) = true) table in
      randomChoice (or_all candidates table)
  | random => randomChoice table
  end.

Definition generateRandomGPU (platform : PlatformType) : M GPU :=
  generateRandomGPU_from GPU_CONFIGS platform.

Definition generateWebGLSeed : M string := random_hex32.

Definition getDefaultWebGLConfig (platform : PlatformType) : M WebGLConfig :=
  do gpu <- generateRandomGPU platform;
  do seed <- generateWebGLSeed;
  ret {| webgl_enabled := true; webgl_vendor := vendor gpu;
         webgl_renderer := renderer gpu; webgl_seed := seed |}.

(** ** [hardware.ts]: generation *)

Record Resolution := { width : Z; height : Z }.

Definition SCREEN_RESOLUTIONS : list Resolution := [
  {| width := 1920; height := 1080 |};
  {| width := 2560; height := 1440 |};
  {| width := 1366; height := 768 |};
  {| width := 1536; height := 864 |};
  {| width := 1440; height := 900 |};
  {| width := 1680; height := 1050 |};
  {| width := 2560; height := 1600 |};
  {| width := 3840; height := 2160 |}
].

Definition CPU_CORES : list Z := [4; 6; 8; 12; 16].

Definition MEMORY_SIZES : list Z := [4; 8; 16; 32].

Record Language := { primary : string; list_ : list string }.

Definition LANGUAGES : list Language := [
  {| primary := "en-US"; list_ := ["en-US"; "en"] |};
  {| primary := "en-GB"; list_ := ["en-GB"; "en"] |};
  {| primary := "zh-CN"; list_ := ["zh-CN"; "zh"] |};
  {| primary := "ja-JP"; list_ := ["ja-JP"; "ja"; "en"] |};
  {| primary := "ko-KR"; list_ := ["ko-KR"; "ko"; "en"] |};
  {| primary := "de-DE"; list_ := ["de-DE"; "de"; "en"] |};
  {| primary := "fr-FR"; list_ := ["fr-FR"; "fr"; "en"] |}
].

Definition TIMEZONES : list string := [
  "America/New_York"; "America/Los_Angeles"; "America/Chicago";
  "Europe/London"; "Europe/Paris"; "Europe/Berlin";
  "Asia/Tokyo"; "Asia/Shanghai"; "Asia/Singapore"; "Australia/Sydney"
].

Definition generateHardwareSeed : M string := random_hex32.

(** The navigator platform token of a resolved platform. *)
Definition navigatorPlatform (resolvedPlatform : PlatformType) : string :=
  match resolvedPlatform with
  | mac => "MacIntel"
  | windows => "Win32"
  | _ => "Linux x86_64"
  end.

Definition generateRandomHardware (platform : PlatformType) : M RandomHardware :=
  do screen <- randomChoice SCREEN_RESOLUTIONS;
  do lang <- randomChoice LANGUAGES;
  do resolvedPlatform <-
    match platform with
    | random => randomChoice [windows; mac; linux]
    | _ => ret platform
    end;
  do cores <- randomChoice CPU_CORES;
  do memory <- randomChoice MEMORY_SIZES;
  do tz <- randomChoice TIMEZONES;
  do ratio <- randomChoice [Z2F 1; lit_1_25; lit_1_5; Z2F 2];
  ret {| hardwareConcurrency := cores;
         deviceMemory := memory;
         hw_platform := navigatorPlatform resolvedPlatform;
         language := primary lang;
         languages := list_ lang;
         timezone := tz;
         screenWidth := width screen;
         screenHeight := height screen;
         colorDepth := 24;
         pixelRatio := ratio |}.

Definition getDefaultHardwareConfig (platform : PlatformType) : M HardwareConfig :=
  do hardware <- generateRandomHardware platform;
  do seed <- generateHardwareSeed;
  ret {| hw_enabled := true; hw_fields := hardware; hw_seed := seed |}.

(** ** [profile.ts] *)

(** [{ ...config, ...updates, lastUsed }]. *)
Definition merge_updates (config : ProfileConfig) (updates : ProfileUpdates)
    (lastUsed_ : string) : ProfileConfig :=
  {| id := default (id config) (upd_id updates);
     name := default (name config) (upd_name updates);
     createdAt := default (createdAt config) (upd_createdAt updates);
     lastUsed := lastUsed_;
     userAgent := default (userAgent config) (upd_userAgent updates);
     platform := default (platform config) (upd_platform updates);
     canvas := default (canvas config) (upd_canvas updates);
     webgl := default (webgl config) (upd_webgl updates);
     hardware := default (hardware config) (upd_hardware updates);
     proxy := default (proxy config) (upd_proxy updates) |}.

Definition no_updates : ProfileUpdates :=
  {| upd_id := None; upd_name := None; upd_createdAt := None; upd_lastUsed := None;
     upd_userAgent := None; upd_platform := None; upd_canvas := None;
     upd_webgl := None; upd_hardware := None; upd_proxy := None |}.

Module ProfileManager.

(** [create(name, platform = 'random', proxy?)]. *)
Definition create (name_ : string) (platform_ : PlatformType)
    (proxy_ : option ProxyConfig) : M ProfileConfig :=
  do id_ <- uuidv4;
  do createdAt_ <- Date_now_ISO;
  do lastUsed_ <- Date_now_ISO;
  do userAgent_ <- generateUA platform_;
  do canvas_ <- getDefaultCanvasConfig;
  do webgl_ <- getDefaultWebGLConfig random;
  do hardware_ <- getDefaultHardwareConfig random;
  let config :=
    {| id := id_; name := name_; createdAt := createdAt_; lastUsed := lastUsed_;
       userAgent := userAgent_; platform := platform_; canvas := canvas_;
       webgl := webgl_; hardware := hardware_; proxy := proxy_ |} in
  do _ <- write_config id_ config;
  ret config.

Definition get (profileId : string) : M (option ProfileConfig) :=
  read_config profileId.

Definition update (profileId : string) (updates : ProfileUpdates)
    : M (option ProfileConfig) :=
  do config <- get profileId;
  match config with
  | None => ret None
  | Some config =>
      do now <- Date_now_ISO;
      let updated := merge_updates config updates now in
      do _ <- write_config profileId updated;
      ret (Some updated)
  end.

Definition regenerateFingerprint (profileId : string) : M (option ProfileConfig) :=
  do config <- get profileId;
  match config with
  | None => ret None
  | Some config =>
      do userAgent_ <- generateUA (platform config);
      do canvas_ <- getDefaultCanvasConfig;
      do webgl_ <- getDefaultWebGLConfig random;
      do hardware_ <- getDefaultHardwareConfig random;
      let updates :=
        {| upd_id := None; upd_name := None; upd_createdAt := None;
           upd_lastUsed := None;
           upd_userAgent := Some userAgent_;
           upd_platform := None;
           upd_canvas := Some canvas_;
           upd_webgl := Some webgl_;
           upd_hardware := Some hardware_;
           upd_proxy := None |} in
      update profileId updates
  end.

End ProfileManager.

(** ** The document a page script runs in

    The scripts returned by [getCanvasInjectionScript],
    [getWebGLInjectionScript] and [getHardwareInjectionScript], and the
    functions the launcher passes to [evaluateOnNewDocument], run inside a
    document. The model keeps the part of the document they read or write:
    the three installation markers on [window], the functions found on the
    prototypes they replace, the properties they define, and the console.
    A function value is a term that records which script built it and which
    function it captured as its original. *)

(** [CanvasRenderingContext2D.prototype.getImageData]. *)
Inductive GetImageDataFn :=
  | getImageData_native
  | getImageData_noise (config : CanvasNoiseConfig) (originalGetImageData : GetImageDataFn).

(** [HTMLCanvasElement.prototype.toDataURL]. *)
Inductive ToDataURLFn :=
  | toDataURL_native
  | toDataURL_noise (config : CanvasNoiseConfig) (originalToDataURL : ToDataURLFn)
      (originalGetImageData : GetImageDataFn).

(** [HTMLCanvasElement.prototype.toBlob]. *)
Inductive ToBlobFn :=
  | toBlob_native
  | toBlob_noise (config : CanvasNoiseConfig) (originalToBlob : ToBlobFn)
      (originalGetImageData : GetImageDataFn).

(** [HTMLCanvasElement.prototype.getContext]. *)
Inductive GetContextFn :=
  | getContext_native
  | getContext_spoof (config : WebGLConfig) (originalGetContext : GetContextFn).

(** [Intl.DateTimeFormat] and [Date.prototype.getTimezoneOffset]. *)
Inductive DateTimeFormatFn :=
  | DateTimeFormat_native
  | DateTimeFormat_zone (timeZone : string) (originalDateTimeFormat : DateTimeFormatFn).

Inductive GetTimezoneOffsetFn :=
  | getTimezoneOffset_native
  | getTimezoneOffset_const (targetOffset : Z).

(** [navigator.permissions.query]. *)
Inductive QueryFn :=
  | query_native
  | query_mock (originalQuery : QueryFn).

Record MimeTypeData := {
  mt_type : string;
  mt_suffixes : string;
  mt_description : string;
}.

Record PluginData := {
  plugin_name : string;
  plugin_filename : string;
  plugin_description : string;
  plugin_mimeTypes : list MimeTypeData;
}.

(** What the getter of a defined property returns. *)
Inductive Value :=
  | V_int (z : Z)
  | V_number (x : number)
  | V_string (s : string)
  | V_strings (l : list string)
  | V_plugins (l : list PluginData)
  | V_mimeTypes (l : list MimeTypeData)
  | V_host (description : string).

Record Property := {
  prop_get : Value;
  prop_configurable : bool;
}.

Record Document := mkDocument {
  __canvasNoiseApplied : bool;
  __webglSpoofApplied : bool;
  __hardwareSpoofApplied : bool;
  HTMLCanvasElement_toDataURL : ToDataURLFn;
  HTMLCanvasElement_toBlob : ToBlobFn;
  CanvasRenderingContext2D_getImageData : GetImageDataFn;
  HTMLCanvasElement_getContext : GetContextFn;
  window_props : gmap string Property;
  navigator_props : gmap string Property;
  navigatorProto_props : gmap string Property;
  screen_props : gmap string Property;
  screenProto_props : gmap string Property;
  Intl_DateTimeFormat : DateTimeFormatFn;
  Date_getTimezoneOffset : GetTimezoneOffsetFn;
  navigator_permissions_query : QueryFn;
  console : list string;
}.

(** [Object.defineProperty(obj, prop, { get, configurable: true })]: a
    [TypeError] ([None]) when [obj] has a non-configurable own property
    [prop], otherwise the property is (re)defined. *)
Definition defineProperty (obj : gmap string Property) (prop : string) (v : Value)
    : option (gmap string Property) :=
  match obj !! prop with
  | Some p =>
      if prop_configurable p
      then Some (<[prop := {| prop_get := v; prop_configurable := true |}]> obj)
      else None
  | None => Some (<[prop := {| prop_get := v; prop_configurable := true |}]> obj)
  end.

(** [try { Object.defineProperty(...) } catch (e) {}]. *)
Definition try_defineProperty (obj : gmap string Property) (prop : string) (v : Value)
    : gmap string Property :=
  default obj (defineProperty obj prop v).

(** [delete obj.prop]: a non-configurable property stays. *)
Definition delete_property (prop : string) (obj : gmap string Property)
    : gmap string Property :=
  match obj !! prop with
  | Some p => if prop_configurable p then delete prop obj else obj
  | None => obj
  end.

(** A canvas element: its size, whether [getContext('2d')] yields a context,
    its origin-clean flag and the RGBA bytes of its bitmap, four per pixel.
    [getImageData] over the whole canvas returns a copy of the bitmap and
    [putImageData] of a whole-canvas image overwrites it. *)
Record Canvas := mkCanvas {
  canvas_width : Z;
  canvas_height : Z;
  has_2d_context : bool;
  origin_clean : bool;
  bitmap : list Z;
}.

Definition putImageData (c : Canvas) (data : list Z) : Canvas :=
  mkCanvas (canvas_width c) (canvas_height c) (has_2d_context c) (origin_clean c) data.

(** The browser's own [getImageData(0, 0, width, height)]: an
    [IndexSizeError] for an empty rectangle and a [SecurityError] for a
    tainted canvas. *)
Definition readable (c : Canvas) : bool :=
  origin_clean c && negb (canvas_width c =? 0) && negb (canvas_height c =? 0).

Definition native_getImageData (c : Canvas) : option (list Z) :=
  if readable c then Some (bitmap c) else None.

Record PermissionDescriptor := { perm_name : string }.

Record PermissionStatus := { perm_state : string }.

Inductive Promise (A : Type) :=
  | Resolved (a : A)
  | Rejected (reason : string).
Arguments Resolved {A} a.
Arguments Rejected {A} reason.

(** The [this] value of a call to the browser's [permissions.query]. *)
Inductive Receiver := this_undefined | this_permissions.

Section PageScripts.

(** The browser's [Math.sin], its serialisation of a bitmap as a data URL
    (for the arguments passed to [toDataURL]) and its [permissions.query]. *)
Variable Math_sin : number -> number.
Variable serialize_bitmap : Z -> Z -> list Z -> list string -> string.
Variable native_query : Receiver -> PermissionDescriptor -> Promise PermissionStatus.

(** The browser's own [toDataURL]: a [SecurityError] for a tainted canvas. *)
Definition native_toDataURL (c : Canvas) (args : list string) : option string :=
  if origin_clean c
  then Some (serialize_bitmap (canvas_width c) (canvas_height c) (bitmap c) args)
  else None.

(** *** [getCanvasInjectionScript] *)

(** The loop of [seededRandom] over the characters of the seed:
    [hash = ((hash << 5) - hash) + char; hash = hash & hash]. *)
Definition seed_hash (seed : string) : Z :=
  fold_left
    (fun hash char => ToInt32 (ToInt32 (Z.shiftl (ToInt32 hash) 5) - hash + char))
    (charCodes seed) 0.

(** One call of the function returned by [seededRandom], on the current
    value of its [hash] variable: the number returned and the new [hash]. *)
Definition seededRandom_next (hash : number) : number * number :=
  let hash := SF64mul (Math_sin hash) (Z2F 10000) in
  (SF64sub hash (Math_floor hash), hash).

Definition noiseScale (config : CanvasNoiseConfig) : number :=
  SF64div (canvas_noise config) (Z2F 100).

(** The inner loop of [addNoise], [for (let j = 0; j < 3; j++)], with [n]
    iterations left. A read past the end of the array is [undefined], and
    a store past the end is ignored. *)
Fixpoint addNoise_channels (config : CanvasNoiseConfig) (n : nat) (i j : nat)
    (hash : number) (data : list Z) : number * list Z :=
  match n with
  | O => (hash, data)
  | S n' =>
      let '(r, hash) := seededRandom_next hash in
      let noise :=
        Math_floor (SF64mul (SF64mul (SF64sub r lit_0_5) (noiseScale config)) (Z2F 10)) in
      let old := match data !! (i + j)%nat with
                 | Some b => Z2F b
                 | None => S754_nan
                 end in
      let v := Math_max (Z2F 0) (Math_min (Z2F 255) (SF64add old noise)) in
      addNoise_channels config n' i (S j) hash
        (<[(i + j)%nat := ToUint8Clamp v]> data)
  end.

(** The outer loop, [for (let i = 0; i < data.length; i += 4)], with [n]
    iterations left. *)
Fixpoint addNoise_pixels (config : CanvasNoiseConfig) (n : nat) (i : nat)
    (hash : number) (data : list Z) : list Z :=
  match n with
  | O => data
  | S n' =>
      let '(hash, data) := addNoise_channels config 3 i 0 hash data in
      addNoise_pixels config n' (i + 4) hash data
  end.

Definition addNoise (config : CanvasNoiseConfig) (data : list Z) : list Z :=
  let random := Z2F (seed_hash (canvas_seed config +:+ "_canvas")) in
  addNoise_pixels config (Nat.div (length data + 3) 4) 0 random data.

(** A call of a [getImageData] function over the whole canvas. *)
Fixpoint call_getImageData (f : GetImageDataFn) (c : Canvas) : option (list Z) :=
  match f with
  | getImageData_native => native_getImageData c
  | getImageData_noise config originalGetImageData =>
      match call_getImageData originalGetImageData c with
      | Some imageData =>
          if negb (canvas_enabled config) then Some imageData
          else Some (addNoise config imageData)
      | None => None
      end
  end.

(** A call of a [toDataURL] function on a canvas: what it returns ([None]
    when it throws) and the canvas it leaves behind. *)
Fixpoint call_toDataURL (f : ToDataURLFn) (c : Canvas) (args : list string)
    : option string * Canvas :=
  match f with
  | toDataURL_native => (native_toDataURL c args, c)
  | toDataURL_noise config originalToDataURL originalGetImageData =>
      if negb (canvas_enabled config) then call_toDataURL originalToDataURL c args
      else if has_2d_context c then
        match call_getImageData originalGetImageData c with
        | Some imageData =>
            let originalData := imageData in
            let noisyData := addNoise config imageData in
            let c1 := putImageData c noisyData in
            match call_toDataURL originalToDataURL c1 args with
            | (Some result, c2) => (Some result, putImageData c2 originalData)
            | (None, c2) =>
                (* the exception is caught; the restore has not run *)
                call_toDataURL originalToDataURL c2 args
            end
        | None => call_toDataURL originalToDataURL c args
        end
      else call_toDataURL originalToDataURL c args
  end.

Definition canvas_payload (config : CanvasNoiseConfig) (d : Document) : Document :=
  if __canvasNoiseApplied d then d
  else
    let originalToDataURL := HTMLCanvasElement_toDataURL d in
    let originalToBlob := HTMLCanvasElement_toBlob d in
    let originalGetImageData := CanvasRenderingContext2D_getImageData d in
    mkDocument true (__webglSpoofApplied d) (__hardwareSpoofApplied d)
      (toDataURL_noise config originalToDataURL originalGetImageData)
      (toBlob_noise config originalToBlob originalGetImageData)
      (getImageData_noise config originalGetImageData)
      (HTMLCanvasElement_getContext d)
      (window_props d) (navigator_props d) (navigatorProto_props d)
      (screen_props d) (screenProto_props d)
      (Intl_DateTimeFormat d) (Date_getTimezoneOffset d)
      (navigator_permissions_query d)
      (console d ++ ["[BFP] Canvas fingerprint noise applied"]).

(** *** [getWebGLInjectionScript] *)

Definition webgl_payload (config : WebGLConfig) (d : Document) : Document :=
  if __webglSpoofApplied d then d
  else
    let enabled := webgl_enabled config in
    let originalGetContext := HTMLCanvasElement_getContext d in
    mkDocument (__canvasNoiseApplied d) true (__hardwareSpoofApplied d)
      (HTMLCanvasElement_toDataURL d) (HTMLCanvasElement_toBlob d)
      (CanvasRenderingContext2D_getImageData d)
      (if enabled then getContext_spoof config originalGetContext
       else originalGetContext)
      (window_props d) (navigator_props d) (navigatorProto_props d)
      (screen_props d) (screenProto_props d)
      (Intl_DateTimeFormat d) (Date_getTimezoneOffset d)
      (navigator_permissions_query d)
      (if enabled then console d ++ ["[BFP] WebGL fingerprint spoofing applied"]
       else console d).

(** *** [getHardwareInjectionScript] *)

(** [offsets[tz] || 0]. *)
Definition getTimezoneOffset (tz : string) : Z :=
  let offsets : list (string * Z) := [
    ("America/New_York", 300); ("America/Los_Angeles", 480);
    ("America/Chicago", 360); ("Europe/London", 0);
    ("Europe/Paris", -60); ("Europe/Berlin", -60);
    ("Asia/Tokyo", -540); ("Asia/Shanghai", -480);
    ("Asia/Singapore", -480); ("Australia/Sydney", -660) ] in
  match find (fun kv => String.eqb (fst kv) tz) offsets with
  | Some (_, offset) => offset
  | None => 0
  end.

(** The two [try { Object.defineProperty(...) } catch] of one loop
    iteration, on the object and on its prototype. *)
Definition define_on_both (props : list (string * Value))
    (obj proto : gmap string Property)
    : gmap string Property * gmap string Property :=
  fold_left
    (fun '(obj, proto) '(prop, v) =>
       (try_defineProperty obj prop v, try_defineProperty proto prop v))
    props (obj, proto).

Definition hardware_payload (config : HardwareConfig) (d : Document) : Document :=
  if __hardwareSpoofApplied d then d
  else if negb (hw_enabled config) then
    mkDocument (__canvasNoiseApplied d) (__webglSpoofApplied d) true
      (HTMLCanvasElement_toDataURL d) (HTMLCanvasElement_toBlob d)
      (CanvasRenderingContext2D_getImageData d) (HTMLCanvasElement_getContext d)
      (window_props d) (navigator_props d) (navigatorProto_props d)
      (screen_props d) (screenProto_props d)
      (Intl_DateTimeFormat d) (Date_getTimezoneOffset d)
      (navigator_permissions_query d) (console d)
  else
    let navigatorProps := [
      ("hardwareConcurrency", V_int (hardwareConcurrency config));
      ("deviceMemory", V_int (deviceMemory config));
      ("platform", V_string (hw_platform config));
      ("language", V_string (language config));
      ("languages", V_strings (languages config)) ] in
    let '(navigator_, navigatorProto_) :=
      define_on_both navigatorProps (navigator_props d) (navigatorProto_props d) in
    let screenProps := [
      ("width", V_int (screenWidth config));
      ("height", V_int (screenHeight config));
      ("availWidth", V_int (screenWidth config));
      ("availHeight", V_int (screenHeight config - 40));
      ("colorDepth", V_int (colorDepth config));
      ("pixelDepth", V_int (colorDepth config)) ] in
    let '(screen_, screenProto_) :=
      define_on_both screenProps (screen_props d) (screenProto_props d) in
    let window_ :=
      try_defineProperty (window_props d) "devicePixelRatio"
        (V_number (pixelRatio config)) in
    let originalDateTimeFormat := Intl_DateTimeFormat d in
    let targetOffset := getTimezoneOffset (timezone config) in
    mkDocument (__canvasNoiseApplied d) (__webglSpoofApplied d) true
      (HTMLCanvasElement_toDataURL d) (HTMLCanvasElement_toBlob d)
      (CanvasRenderingContext2D_getImageData d) (HTMLCanvasElement_getContext d)
      window_ navigator_ navigatorProto_ screen_ screenProto_
      (DateTimeFormat_zone (timezone config) originalDateTimeFormat)
      (getTimezoneOffset_const targetOffset)
      (navigator_permissions_query d)
      (console d ++ ["[BFP] Hardware spoofing applied"]).

(** *** [hideAutomationIndicators] of [launcher.ts] *)

Definition plugin_data : list PluginData := [
  {| plugin_name := "Chrome PDF Plugin"; plugin_filename := "internal-pdf-viewer";
     plugin_description := "Portable Document Format";
     plugin_mimeTypes := [
       {| mt_type := "application/x-google-chrome-pdf"; mt_suffixes := "pdf";
          mt_description := "Portable Document Format" |} ] |};
  {| plugin_name := "Chrome PDF Viewer";
     plugin_filename := "mhjfbmdgcfjbbpaeojofohoefgiehjai";
     plugin_description := EmptyString;
     plugin_mimeTypes := [
       {| mt_type := "application/pdf"; mt_suffixes := "pdf";
          mt_description := EmptyString |} ] |};
  {| plugin_name := "Native Client"; plugin_filename := "internal-nacl-plugin";
     plugin_description := EmptyString;
     plugin_mimeTypes := [
       {| mt_type := "application/x-nacl"; mt_suffixes := EmptyString;
          mt_description := "Native Client Executable" |};
       {| mt_type := "application/x-pnacl"; mt_suffixes := EmptyString;
          mt_description := "Portable Native Client Executable" |} ] |}
].

(** The script throws ([None]) when one of its two unguarded
    [Object.defineProperty] calls does; the permissions mock is its last
    statement. *)
Definition hideAutomationIndicators (d : Document) : option Document :=
  let newProto := delete_property "webdriver" (navigatorProto_props d) in
  let pluginArray := V_plugins plugin_data in
  let mimeTypeArray := V_mimeTypes (concat (map plugin_mimeTypes plugin_data)) in
  match defineProperty (navigator_props d) "plugins" pluginArray with
  | None => None
  | Some navigator1 =>
      match defineProperty navigator1 "mimeTypes" mimeTypeArray with
      | None => None
      | Some navigator2 =>
          let originalQuery := navigator_permissions_query d in
          Some (mkDocument (__canvasNoiseApplied d) (__webglSpoofApplied d)
                  (__hardwareSpoofApplied d)
                  (HTMLCanvasElement_toDataURL d) (HTMLCanvasElement_toBlob d)
                  (CanvasRenderingContext2D_getImageData d)
                  (HTMLCanvasElement_getContext d)
                  (window_props d) navigator2 newProto
                  (screen_props d) (screenProto_props d)
                  (Intl_DateTimeFormat d) (Date_getTimezoneOffset d)
                  (query_mock originalQuery)
                  (console d))
      end
  end.

(** A call of a [permissions.query] function. The mock is an arrow
    function: it ignores its receiver, and calls [originalQuery] as a plain
    function, that is with an undefined receiver. *)
Fixpoint call_query (f : QueryFn) (this : Receiver) (parameters : PermissionDescriptor)
    : Promise PermissionStatus :=
  match f with
  | query_native => native_query this parameters
  | query_mock originalQuery =>
      if String.eqb (perm_name parameters) "notifications"
      then Resolved {| perm_state := "denied" |}
      else call_query originalQuery this_undefined parameters
  end.

(** [navigator.permissions.query(parameters)] as a page script calls it. *)
Definition permissions_query (d : Document) (parameters : PermissionDescriptor)
    : Promise PermissionStatus :=
  call_query (navigator_permissions_query d) this_permissions parameters.

End PageScripts.

(** ** More of the code *)

(** *** [toBlob] of [getCanvasInjectionScript]

    [toBlob] returns at once and hands the blob to its callback later. A
    call yields the blob, here the serialisation of the bitmap as it is when
    the browser's own [toBlob] is called, and the pixel arrays that the
    wrapped callbacks put back, in the order they run, before the page's
    callback runs. *)
Record BlobDelivery := {
  delivered_blob : string;
  restores : list (list Z);
}.

(** The canvas as the page's callback finds it. *)
Definition deliver (t : BlobDelivery) (c : Canvas) : Canvas :=
  fold_left putImageData (restores t) c.

Section PageScriptsBlob.

Variable Math_sin : number -> number.
Variable serialize_bitmap : Z -> Z -> list Z -> list string -> string.

(** A call of a [toBlob] function on a canvas: the delivery it schedules
    ([None] when it throws) and the canvas it leaves behind when it
    returns. *)
Fixpoint call_toBlob (f : ToBlobFn) (c : Canvas) (args : list string)
    : option BlobDelivery * Canvas :=
  match f with
  | toBlob_native =>
      (match native_toDataURL serialize_bitmap c args with
       | Some blob => Some {| delivered_blob := blob; restores := [] |}
       | None => None
       end, c)
  | toBlob_noise config originalToBlob originalGetImageData =>
      if negb (canvas_enabled config) then call_toBlob originalToBlob c args
      else if has_2d_context c then
        match call_getImageData Math_sin originalGetImageData c with
        | Some imageData =>
            let originalData := imageData in
            let noisyData := addNoise Math_sin config imageData in
            let c1 := putImageData c noisyData in
            match call_toBlob originalToBlob c1 args with
            | (Some t, c2) =>
                (Some {| delivered_blob := delivered_blob t;
                         restores := restores t ++ [originalData] |}, c2)
            | (None, c2) =>
                (* the exception is caught; the callback was not wrapped *)
                call_toBlob originalToBlob c2 args
            end
        | None => call_toBlob originalToBlob c args
        end
      else call_toBlob originalToBlob c args
  end.

End PageScriptsBlob.

(** *** [getImageData] of a rectangle *)

(** The arguments of [getImageData(sx, sy, sw, sh)]. *)
Record Rect := mkRect { rect_sx : Z; rect_sy : Z; rect_sw : Z; rect_sh : Z }.

Section PageScriptsRect.

(** The browser's [Math.sin] and its own [getImageData] of a rectangle of
    a canvas: the bytes of the image data, [None] where it throws. *)
Variable Math_sin : number -> number.
Variable native_getImageData_rect : Canvas -> Rect -> option (list Z).

(** A call [getImageData(...args)] of a [getImageData] function by the
    page. The wrapper passes its arguments on,
    [originalGetImageData.apply(this, args)], and adds the noise to the
    pixel array that comes back, whatever rectangle it is. *)
Fixpoint call_getImageData_args (f : GetImageDataFn) (c : Canvas) (args : Rect)
    : option (list Z) :=
  match f with
  | getImageData_native => native_getImageData_rect c args
  | getImageData_noise config originalGetImageData =>
      match call_getImageData_args originalGetImageData c args with
      | Some imageData =>
          if negb (canvas_enabled config) then Some imageData
          else Some (addNoise Math_sin config imageData)
      | None => None
      end
  end.

End PageScriptsRect.

(** *** The contexts that the WebGL script patches

    The [getContext] installed by [getWebGLInjectionScript] replaces, on
    every WebGL context it returns, the context's [getParameter] and
    [getExtension] by wrappers of the ones it finds there. The browser
    returns the same context object for a canvas and a type each time, so
    the wrappers pile up on it. *)
Inductive GetParameterFn :=
  | getParameter_native
  | getParameter_proxy (config : WebGLConfig) (originalFn : GetParameterFn).

Inductive GetExtensionFn :=
  | getExtension_native
  | getExtension_spoof (originalGetExtension : GetExtensionFn).

Record WebGLContext := {
  ctx_getParameter : GetParameterFn;
  ctx_getExtension : GetExtensionFn;
}.

(** What [getExtension] returns: [null], an object of the browser, or the
    object literal with the two constants. *)
Inductive Extension :=
  | ext_null
  | ext_host (description : string)
  | ext_constants (UNMASKED_VENDOR_WEBGL UNMASKED_RENDERER_WEBGL : Z).

(** [type === 'webgl' || type === 'webgl2' || type === 'experimental-webgl']. *)
Definition is_webgl_type (type : string) : bool :=
  String.eqb type "webgl" || String.eqb type "webgl2" ||
  String.eqb type "experimental-webgl".

(** A call of a [getContext] function for a type, on a canvas for which the
    browser's [getContext] returns [context] ([None] for [null]): the
    context returned, with the functions it now carries. *)
Fixpoint call_getContext (f : GetContextFn) (type : string)
    (context : option WebGLContext) : option WebGLContext :=
  match f with
  | getContext_native => context
  | getContext_spoof config originalGetContext =>
      match call_getContext originalGetContext type context with
      | Some context =>
          if is_webgl_type type then
            let originalGetParameter := ctx_getParameter context in
            let originalGetExtension := ctx_getExtension context in
            Some {| ctx_getParameter := getParameter_proxy config originalGetParameter;
                    ctx_getExtension := getExtension_spoof originalGetExtension |}
          else Some context
      | None => None
      end
  end.

Section WebGLCalls.

(** The browser's own [getParameter] and [getExtension] of the context. *)
Variable native_getParameter : Z -> Value.
Variable native_getExtension : string -> Extension.

Fixpoint call_getParameter (f : GetParameterFn) (parameter : Z) : Value :=
  match f with
  | getParameter_native => native_getParameter parameter
  | getParameter_proxy config originalFn =>
      if parameter =? 37445 then V_string (webgl_vendor config)
      else if parameter =? 37446 then V_string (webgl_renderer config)
      else call_getParameter originalFn parameter
  end.

Fixpoint call_getExtension (f : GetExtensionFn) (name_ : string) : Extension :=
  match f with
  | getExtension_native => native_getExtension name_
  | getExtension_spoof originalGetExtension =>
      let ext := call_getExtension originalGetExtension name_ in
      if String.eqb name_ "WEBGL_debug_renderer_info" then ext_constants 37445 37446
      else ext
  end.

End WebGLCalls.

(** ** [launcher.ts]: the proxy argument *)

(** JavaScript truthiness of an optional string (absent and empty are
    falsy) and of an optional integer (absent and zero are falsy). *)
Definition truthy_string (s : option string) : bool :=
  match s with
  | Some (String _ _) => true
  | _ => false
  end.

Definition truthy_Z (n : option Z) : bool :=
  match n with
  | Some n => negb (n =? 0)
  | None => false
  end.

(** [getProxyArg(profile, overrideProxy)]; [None] is [null]. *)
Definition getProxyArg (profile : ProfileConfig) (overrideProxy : option string)
    : option string :=
  if truthy_string overrideProxy
  then Some ("--proxy-server=" +:+ default EmptyString overrideProxy)
  else
    match proxy profile with
    | None => None
    | Some p =>
        let is_warp := match proxy_type p with proxy_warp => true | _ => false end in
        if is_warp && truthy_Z (warpPort p)
        then Some ("--proxy-server=socks5://127.0.0.1:" +:+ pretty (default 0 (warpPort p)))
        else if truthy_string (proxy_host p) && truthy_Z (proxy_port p)
        then
          let scheme := match proxy_type p with
                        | proxy_socks5 => "socks5"
                        | _ => "http"
                        end in
          Some ("--proxy-server=" +:+ scheme +:+ "://" +:+
                default EmptyString (proxy_host p) +:+ ":" +:+
                pretty (default 0 (proxy_port p)))
        else None
    end.

(** ** The command line: finding a profile by reference *)

(** [p.id === profileRef || p.id.startsWith(profileRef) || p.name === profileRef]. *)
Definition matches_ref (profileRef : string) (p : ProfileConfig) : bool :=
  String.eqb (id p) profileRef || String.prefix profileRef (id p) ||
  String.eqb (name p) profileRef.

(** [profiles.find(...)], as the commands launch, delete, clean, regenerate
    and info all write it. *)
Definition find_profile (profileRef : string) (profiles : list ProfileConfig)
    : option ProfileConfig :=
  find (matches_ref profileRef) profiles.

(** ** [warp.ts] *)

(** [output.toLowerCase()], on the ASCII letters. *)
Definition toLowerCase_ascii (c : ascii) : ascii :=
  let n := nat_of_ascii c in
  if (65 <=? n)%nat && (n <=? 90)%nat then ascii_of_nat (n + 32) else c.

Fixpoint toLowerCase (s : string) : string :=
  match s with
  | EmptyString => EmptyString
  | String c s' => String (toLowerCase_ascii c) (toLowerCase s')
  end.

(** [getWarpStatus().connected], from the output of [warp-cli status];
    [None] when [execSync] throws. *)
Definition getWarpStatus_connected (output : option string) : bool :=
  match output with
  | Some output => includes "connected" (toLowerCase output)
  | None => false
  end.

(** [findAvailablePort(basePort)]: the loop over [basePort], ...,
    [basePort + 99] with [n] ports left to try. [isPortAvailable] is the
    outcome of trying to listen on a port; [None] is the thrown
    [No available port found]. *)
Fixpoint findAvailablePort_from (isPortAvailable : Z -> bool) (n : nat) (port : Z)
    : option Z :=
  match n with
  | O => None
  | S n' =>
      if isPortAvailable port then Some port
      else findAvailablePort_from isPortAvailable n' (port + 1)
  end.

Definition findAvailablePort (isPortAvailable : Z -> bool) (basePort : Z) : option Z :=
  findAvailablePort_from isPortAvailable 100 basePort.

Inductive WarpStatus := warp_starting | warp_running | warp_stopped | warp_error.

Record WarpInstance := {
  inst_id : string;
  inst_port : Z;
  inst_status : WarpStatus;
}.

Record WarpConfig := {
  warp_enabled : bool;
  socksPort : Z;
}.

Module WarpManager.

Record State := mkState {
  instances : gmap string WarpInstance;
  basePort : Z;
}.

(** [getConfigForProfile(profileId)]; [None] when [findAvailablePort]
    throws. *)
Definition getConfigForProfile (isPortAvailable : Z -> bool) (profileId : string)
    (this : State) : option (WarpConfig * State) :=
  match instances this !! profileId with
  | Some instance =>
      Some ({| warp_enabled := true; socksPort := inst_port instance |}, this)
  | None =>
      match findAvailablePort isPortAvailable
              (basePort this + Z.of_nat (size (instances this))) with
      | Some port =>
          let instance :=
            {| inst_id := profileId; inst_port := port; inst_status := warp_stopped |} in
          Some ({| warp_enabled := true; socksPort := inst_port instance |},
                mkState (<[profileId := instance]> (instances this)) (basePort this))
      | None => None
      end
  end.

End WarpManager.

Inductive ProxyServerType := server_http | server_socks5.

Record ProxyServer := {
  server_host : string;
  server_port : Z;
  server_username : option string;
  server_password : option string;
  server_type : ProxyServerType;
  server_country : option string;
}.

#[global] Instance ProxyServerType_eq_dec : EqDecision ProxyServerType.
Proof. solve_decision. Defined.

Module ProxyManager.

Record State := mkState {
  proxies : list ProxyServer;
  currentIndex : nat;
}.

(** [new ProxyManager()]. *)
Definition new : State := mkState [] 0.

Definition addProxy (proxy : ProxyServer) (this : State) : State :=
  mkState (proxies this ++ [proxy]) (currentIndex this).

Definition addProxies (proxies_ : list ProxyServer) (this : State) : State :=
  mkState (proxies this ++ proxies_) (currentIndex this).

(** [getNext()]: [None] is [null], or the [undefined] of an index past the
    end of the array. *)
Definition getNext (this : State) : option ProxyServer * State :=
  if (length (proxies this) =? 0)%nat then (None, this)
  else
    let proxy := proxies this !! currentIndex this in
    (proxy, mkState (proxies this) ((currentIndex this + 1) mod length (proxies this))).

Definition getRandom (this : State) : M (option ProxyServer) :=
  if (length (proxies this) =? 0)%nat then ret None
  else
    do r <- Math_random;
    ret (js_get (proxies this)
           (Math_floor (SF64mul r (Z2F (Z.of_nat (length (proxies this))))))).

Definition getByCountry (country : string) (this : State) : M (option ProxyServer) :=
  let filtered := filter (fun p => server_country p = Some country) (proxies this) in
  if (length filtered =? 0)%nat then ret None
  else
    do r <- Math_random;
    ret (js_get filtered (Math_floor (SF64mul r (Z2F (Z.of_nat (length filtered)))))).

End ProxyManager.

(** ** [cleanup.ts]

    What lies at a path: a file with its size in bytes, or a directory
    with its entries by name. The state of a path is an [option Node],
    [None] when nothing exists there. *)
Set Warnings "-register-all".
Inductive Node :=
  | File (size : Z)
  | Folder (entries : list (string * Node)).

(** [fs.rmSync(path.join(dir, name), { recursive: true, force: true })],
    seen from the entries of [dir]. *)
Definition rmSync (name : string) (entries : list (string * Node))
    : list (string * Node) :=
  filter (fun e => fst e <> name) entries.

(** [cleanAll(profilePath)]: the new state of the path; [None] when
    [readdirSync] throws because the path is a file. *)
Definition cleanAll (target : option Node) : option (option Node) :=
  match target with
  | None => Some None
  | Some (File _) => None
  | Some (Folder entries) =>
      Some (Some (Folder
        (fold_left
           (fun remaining entry =>
              if String.eqb entry "config.json" then remaining
              else rmSync entry remaining)
           (map fst entries) entries)))
  end.

Record CleanupOptions := {
  opt_cookies : bool;
  opt_cache : bool;
  opt_localStorage : bool;
  opt_sessionStorage : bool;
  opt_indexedDB : bool;
  opt_history : bool;
  opt_all : bool;
}.

(** [Partial<CleanupOptions>]: for each key, whether it is present, and
    then whether its value is truthy. *)
Record PartialCleanupOptions := {
  given_cookies : option bool;
  given_cache : option bool;
  given_localStorage : option bool;
  given_sessionStorage : option bool;
  given_indexedDB : option bool;
  given_history : option bool;
  given_all : option bool;
}.

(** The defaults of [cleanProfile] overlaid with [options]. *)
Definition cleanup_opts (options : PartialCleanupOptions) : CleanupOptions :=
  {| opt_cookies := default true (given_cookies options);
     opt_cache := default true (given_cache options);
     opt_localStorage := default true (given_localStorage options);
     opt_sessionStorage := default true (given_sessionStorage options);
     opt_indexedDB := default true (given_indexedDB options);
     opt_history := default true (given_history options);
     opt_all := default false (given_all options) |}.

(** The [targets] array of the selective cleanup. *)
Definition cleanup_targets (opts : CleanupOptions) : list string :=
  (if opt_cache opts
   then ["Cache"; "Code Cache"; "GPUCache"; "ShaderCache"; "Default/Cache";
         "Default/Code Cache"]
   else []) ++
  (if opt_cookies opts then ["Default/Cookies"; "Default/Cookies-journal"] else []) ++
  (if opt_localStorage opts then ["Default/Local Storage"] else []) ++
  (if opt_sessionStorage opts then ["Default/Session Storage"] else []) ++
  (if opt_indexedDB opts then ["Default/IndexedDB"] else []) ++
  (if opt_history opts
   then ["Default/History"; "Default/History-journal"; "Default/Visited Links"]
   else []).

(** The components of a relative path written with [/]. *)
Fixpoint path_components_from (s : string) (current : string) : list string :=
  match s with
  | EmptyString => [current]
  | String c s' =>
      if Ascii.eqb c "/" then current :: path_components_from s' EmptyString
      else path_components_from s' (current +:+ String c EmptyString)
  end.

Definition path_components (s : string) : list string :=
  path_components_from s EmptyString.

(** [fs.existsSync(path.join(dir, target))] and [fs.rmSync] of it, for a
    path given by its components, seen from the node at [dir]. *)
Fixpoint exists_at (path : list string) (n : Node) : bool :=
  match path, n with
  | [], _ => true
  | name :: rest, Folder entries =>
      existsb (fun e => String.eqb (fst e) name && exists_at rest (snd e)) entries
  | _ :: _, File _ => false
  end.

Fixpoint remove_at (path : list string) (n : Node) : Node :=
  match path, n with
  | [], _ => n
  | [name], Folder entries => Folder (rmSync name entries)
  | name :: rest, Folder entries =>
      Folder (map (fun e => if String.eqb (fst e) name
                            then (fst e, remove_at rest (snd e)) else e) entries)
  | _ :: _, File _ => n
  end.

(** [cleanProfile(profilePath, options)]. *)
Definition cleanProfile (target : option Node) (options : PartialCleanupOptions)
    : option (option Node) :=
  let opts := cleanup_opts options in
  if opt_all opts then cleanAll target
  else
    let targets := cleanup_targets opts in
    Some (fold_left
            (fun state target_ =>
               match state with
               | Some n =>
                   let path := path_components target_ in
                   if exists_at path n then Some (remove_at path n) else Some n
               | None => None
               end)
            targets target).

(** [calculateSize(dirPath)] of [getProfileSize], summed over a node. *)
Fixpoint node_size (n : Node) : Z :=
  match n with
  | File size => size
  | Folder entries =>
      (fix sum (entries : list (string * Node)) : Z :=
         match entries with
         | [] => 0
         | (_, child) :: entries' => node_size child + sum entries'
         end) entries
  end.

(** [getProfileSize(profilePath)]; [None] when [readdirSync] throws because
    the path is a file. *)
Definition getProfileSize (target : option Node) : option Z :=
  match target with
  | None => Some 0
  | Some (File _) => None
  | Some (Folder entries) => Some (node_size (Folder entries))
  end.

(* ================================================================== *)
(** * Part II. Predicates and sample values of the statements *)
(* ================================================================== *)

(** ** Numbers and generators *)

(** [N] is the double of the integer [n], 1 <= n <= 2^31, with its mantissa
    and exponent as [Z2F] leaves them. *)
Definition int_operand (n : Z) (N : number) : Prop :=
  exists mn en, N = S754_finite false mn en /\ -52 <= en <= 0 /\
                Zpos mn = n * 2 ^ (- en) /\ 1 <= n <= 2 ^ 31.

(** The world after [k] more calls of [Math.random()]. *)
Definition advance (k : nat) (w : World) : World :=
  mkWorld (Math_random_tape w) (k + Math_random_calls w)
          (uuid_tape w) (uuid_calls w) (Date_tape w) (Date_calls w) (config_files w).

(** In a world whose draws lie in [0, 1), [m] returns a value satisfying [P]
    and changes nothing but the number of draws read. *)
Definition gen_ok {A} (m : M A) (P : A -> Prop) : Prop :=
  forall w, random_in_range w -> exists a k, m w = Some (a, advance k w) /\ P a.

(** Checking a property of every integer of an interval by evaluation. *)
Definition all_below (n : Z) (p : Z -> bool) : bool := forallb p (seqZ 0 n).

(** ** Generated user agents *)

(** The strings the user-agent generators build, by their parts. *)
Definition chrome_version (major build patch : Z) : string :=
  pretty major +:+ "." +:+ pretty 0 +:+ "." +:+ pretty build +:+ "." +:+ pretty patch.

Definition ua_prefix (os : string) : string :=
  "Mozilla/5.0 (" +:+ os +:+ ") AppleWebKit/" +:+ WEBKIT_BASE +:+ " (KHTML, like Gecko) ".

Definition ua_tail (major build patch : Z) : string :=
  "Chrome/" +:+ chrome_version major build patch +:+ " Safari/" +:+ WEBKIT_BASE.

Definition ua_string (os : string) (major build patch : Z) : string :=
  ua_prefix os +:+ ua_tail major build patch.

(** The parenthesised OS tokens of a platform; the default branch of
    [generateUA] generates a Windows user agent. *)
Definition os_tokens (p : PlatformType) : list string :=
  match p with
  | windows | random =>
      map (fun v => "Windows NT " +:+ v +:+ "; Win64; x64") PLATFORMS_windows_versions
  | mac => map (fun v => "Macintosh; Intel Mac OS X " +:+ v) PLATFORMS_mac_versions
  | linux => ["X11; Linux x86_64"]
  end.

(** The [sec-ch-ua-platform] value that names a platform. *)
Definition platform_hint (p : PlatformType) : string :=
  match p with
  | windows | random => dq +:+ "Windows" +:+ dq
  | mac => dq +:+ "macOS" +:+ dq
  | linux => dq +:+ "Linux" +:+ dq
  end.

(** The ranges [generateChromeVersion] draws from. *)
Definition version_ranges (major build patch : Z) : Prop :=
  110 <= major <= 120 /\ 5000 <= build <= 6000 /\ 0 <= patch <= 200.

Fixpoint all_chars (p : ascii -> bool) (s : string) : bool :=
  match s with
  | EmptyString => true
  | String c s' => p c && all_chars p s'
  end.

Definition head_fails (p : ascii -> bool) (s : string) : bool :=
  match s with
  | EmptyString => true
  | String c _ => negb (p c)
  end.

(** [needle] and [u] differ at a position that both have. *)
Fixpoint clash (needle u : string) : bool :=
  match needle, u with
  | String a needle', String b u' => if Ascii.eqb a b then clash needle' u' else true
  | _, _ => false
  end.

Fixpoint all_suffixes_clash (needle pre : string) : bool :=
  match pre with
  | EmptyString => true
  | String _ pre' => clash needle pre && all_suffixes_clash needle pre'
  end.

Definition is_numeral (s : string) : bool :=
  all_chars is_digit s && negb (String.eqb s EmptyString).

(** A string none of whose characters starts [needle] has no occurrence of it. *)
Definition avoids_head (needle : string) (c : ascii) : bool :=
  match needle with
  | String x _ => negb (Ascii.eqb x c)
  | EmptyString => false
  end.

(** ** Seeds and tables *)

Definition is_hex_char (c : ascii) : bool :=
  let n := nat_of_ascii c in is_digit c || ((97 <=? n)%nat && (n <=? 102)%nat).

(** A seed as the generators produce it: 32 lower-case hexadecimal digits. *)
Definition is_seed (s : string) : Prop :=
  String.length s = 32%nat /\ all_chars is_hex_char s = true.

(** The entries of a GPU table that suit a platform: Apple GPUs for mac,
    the others for windows and linux. *)
Definition GPU_for (table : list GPU) (platform_ : PlatformType) : list GPU :=
  match platform_ with
  | mac => filter (fun g => includes "(Apple)" (vendor g) = true) table
  | windows | linux => filter (fun g => negb (includes "(Apple)" (vendor g)) = true) table
  | random => table
  end.

(** Every field of [h] is an entry of its table. *)
Definition hardware_from_tables (h : RandomHardware) : Prop :=
  hardwareConcurrency h ∈ CPU_CORES /\
  deviceMemory h ∈ MEMORY_SIZES /\
  hw_platform h ∈ ["Win32"; "MacIntel"; "Linux x86_64"] /\
  {| primary := language h; list_ := languages h |} ∈ LANGUAGES /\
  timezone h ∈ TIMEZONES /\
  {| width := screenWidth h; height := screenHeight h |} ∈ SCREEN_RESOLUTIONS /\
  colorDepth h = 24 /\
  pixelRatio h ∈ [Z2F 1; lit_1_25; lit_1_5; Z2F 2].

(** ** Fingerprints and worlds *)

(** Two worlds whose future [Math.random()] results coincide. *)
Definition same_draws (w1 w2 : World) : Prop :=
  forall i, Math_random_tape w1 (Math_random_calls w1 + i)
          = Math_random_tape w2 (Math_random_calls w2 + i).

(** [m] reads nothing of the world but the future draws. *)
Definition draws_only {A} (m : M A) : Prop :=
  forall w1 w2, same_draws w1 w2 ->
    match m w1, m w2 with
    | Some (a1, w1'), Some (a2, w2') => a1 = a2 /\ same_draws w1' w2'
    | None, None => True
    | _, _ => False
    end.

(** The four attribute sets of a profile. *)
Record Fingerprint := {
  fp_userAgent : string;
  fp_canvas : CanvasNoiseConfig;
  fp_webgl : WebGLConfig;
  fp_hardware : HardwareConfig;
}.

Definition fingerprint (c : ProfileConfig) : Fingerprint :=
  {| fp_userAgent := userAgent c; fp_canvas := canvas c;
     fp_webgl := webgl c; fp_hardware := hardware c |}.

(** The four generator calls of [create] and [regenerateFingerprint]. *)
Definition generate_fingerprint (platform_ : PlatformType) : M Fingerprint :=
  do userAgent_ <- generateUA platform_;
  do canvas_ <- getDefaultCanvasConfig;
  do webgl_ <- getDefaultWebGLConfig random;
  do hardware_ <- getDefaultHardwareConfig random;
  ret {| fp_userAgent := userAgent_; fp_canvas := canvas_;
         fp_webgl := webgl_; fp_hardware := hardware_ |}.

(** A world whose [Math.random()] results are given by [draws], with fixed
    uuids and dates and no profile on disk. *)
Definition world_with (draws : nat -> number) (uuid_ date_ : string) : World :=
  mkWorld draws 0 (fun _ => uuid_) 0 (fun _ => date_) 0 ∅.

Definition zero_draws : nat -> number := fun _ => S754_zero false.

(** The first draw is 0.5, every other one is 0. *)
Definition half_then_zero : nat -> number :=
  fun i => match i with O => lit_0_5 | S _ => S754_zero false end.

(** The doubles just below 0.9 and 1. *)
Definition lit_below_0_9 : number := Eval vm_compute in Prim2SF 0.8999999999999999%float.

Definition lit_below_1 : number := Eval vm_compute in Prim2SF 0.9999999999999999%float.

(** What [generateUA] makes of the platform for a first draw [rand]. *)
Definition resolved_platform (rand : number) : PlatformType :=
  pick_weighted rand (Z2F 0) [windows; mac; linux] [lit_0_7; lit_0_2; lit_0_1] random.

(** A profile on disk, for the examples. *)
Definition sample_profile : ProfileConfig :=
  {| id := "id-1"; name := "account1";
     createdAt := "2024-01-01T00:00:00.000Z"; lastUsed := "2024-01-02T00:00:00.000Z";
     userAgent := "old-agent"; platform := linux;
     canvas := {| canvas_enabled := false; canvas_noise := Z2F 7; canvas_seed := "old" |};
     webgl := {| webgl_enabled := false; webgl_vendor := "old"; webgl_renderer := "old";
                 webgl_seed := "old" |};
     hardware :=
       {| hw_enabled := false;
          hw_fields := {| hardwareConcurrency := 2; deviceMemory := 2;
                          hw_platform := "old"; language := "old"; languages := [];
                          timezone := "old"; screenWidth := 1; screenHeight := 1;
                          colorDepth := 1; pixelRatio := Z2F 3 |};
          hw_seed := "old" |};
     proxy := Some {| proxy_type := proxy_socks5; proxy_host := Some "127.0.0.1";
                      proxy_port := Some 1080; proxy_username := None;
                      proxy_password := None; warpPort := None |} |}.

Definition sample_world : World :=
  mkWorld zero_draws 0 (fun _ => "u") 0 (fun _ => "2024-03-03T00:00:00.000Z") 0
    (<["id-1" := sample_profile]> ∅).

(** [config] with its four attribute sets replaced by those of [f] and
    [lastUsed] set to [now]. *)
Definition regenerated (config : ProfileConfig) (f : Fingerprint) (now : string)
    : ProfileConfig :=
  {| id := id config; name := name config; createdAt := createdAt config;
     lastUsed := now;
     userAgent := fp_userAgent f; platform := platform config;
     canvas := fp_canvas f; webgl := fp_webgl f; hardware := fp_hardware f;
     proxy := proxy config |}.

(** The [updates] object that [regenerateFingerprint] passes to [update]. *)
Definition fingerprint_updates (f : Fingerprint) : ProfileUpdates :=
  {| upd_id := None; upd_name := None; upd_createdAt := None; upd_lastUsed := None;
     upd_userAgent := Some (fp_userAgent f); upd_platform := None;
     upd_canvas := Some (fp_canvas f); upd_webgl := Some (fp_webgl f);
     upd_hardware := Some (fp_hardware f); upd_proxy := None |}.

(** ** Documents *)

(** A document no script has touched. *)
Definition fresh_document : Document :=
  mkDocument false false false toDataURL_native toBlob_native getImageData_native
    getContext_native ∅ ∅ ∅ ∅ ∅ DateTimeFormat_native getTimezoneOffset_native
    query_native [].

(** The combined script of [generateInjectionScript]: the three payloads, in
    the order canvas, WebGL, hardware. *)
Definition injection_script (profile : ProfileConfig) (d : Document) : Document :=
  hardware_payload (hardware profile)
    (webgl_payload (webgl profile) (canvas_payload (canvas profile) d)).

(** [n] runs of [hideAutomationIndicators] in the same document. *)
Fixpoint hide_n (n : nat) (d : Document) : option Document :=
  match n with
  | O => Some d
  | S n' => match hideAutomationIndicators d with
            | Some d' => hide_n n' d'
            | None => None
            end
  end.

(** [Object.defineProperty(obj, prop, ...)] does not throw: [obj] has no
    own property [prop], or a configurable one. *)
Definition redefinable (obj : gmap string Property) (prop : string) : bool :=
  match obj !! prop with
  | Some p => prop_configurable p
  | None => true
  end.

(** Sample values for the examples: a stand-in for [Math.sin], a bitmap
    serialisation, a [permissions.query] that rejects a call without its
    receiver, a canvas of two pixels and a noise configuration. *)
Definition sample_sin (x : number) : number := SF64div x (Z2F 7).

Definition sample_serialize (w h : Z) (px : list Z) (args : list string) : string :=
  fold_right (fun b s => pretty b +:+ "," +:+ s) EmptyString px.

Definition sample_native_query (this : Receiver) (p : PermissionDescriptor)
    : Promise PermissionStatus :=
  match this with
  | this_permissions => Resolved {| perm_state := "prompt" |}
  | this_undefined => Rejected "TypeError: Illegal invocation"
  end.

Definition sample_canvas : Canvas :=
  mkCanvas 2 1 true true [10; 200; 0; 255; 255; 128; 3; 77].

Definition sample_canvas_config : CanvasNoiseConfig :=
  {| canvas_enabled := true; canvas_noise := Z2F 30; canvas_seed := "abc123" |}.

(** ** For the further properties *)

(** What [parseUA] returns for a generated user agent. *)
Definition parsed_ua (os : string) (major build patch : Z) : UAComponents :=
  {| ua_platform := os;
     ua_platformVersion := EmptyString;
     ua_browser := "Chrome";
     ua_browserVersion := chrome_version major build patch;
     ua_webkit := "537.36";
     ua_chrome := chrome_version major build patch |}.

(** The value of [hash] in [seededRandom] after [k] calls of the function
    it returned. *)
Fixpoint hash_after (Math_sin : number -> number) (k : nat) (hash : number) : number :=
  match k with
  | O => hash
  | S k' => hash_after Math_sin k' (snd (seededRandom_next Math_sin hash))
  end.

(** The [noise] that [addNoise] computes from its [k]-th random number
    (counting from 0), and the byte it stores for a byte [b] and a noise. *)
Definition noise_at (Math_sin : number -> number) (config : CanvasNoiseConfig)
    (k : nat) : number :=
  let hash := Z2F (seed_hash (canvas_seed config +:+ "_canvas")) in
  let r := fst (seededRandom_next Math_sin (hash_after Math_sin k hash)) in
  Math_floor (SF64mul (SF64mul (SF64sub r lit_0_5) (noiseScale config)) (Z2F 10)).

Definition noised_byte (b : Z) (noise : number) : Z :=
  ToUint8Clamp (Math_max (Z2F 0) (Math_min (Z2F 255) (SF64add (Z2F b) noise))).

(** The rectangle of the whole canvas, [(0, 0, width, height)]. *)
Definition whole_canvas (c : Canvas) : Rect :=
  mkRect 0 0 (canvas_width c) (canvas_height c).

(** A stand-in for the browser's [getImageData] of a rectangle of positive
    size: the pixels row by row, transparent black outside the bitmap. *)
Definition sample_pixel (c : Canvas) (x y : Z) : list Z :=
  if (0 <=? x) && (x <? canvas_width c) && (0 <=? y) && (y <? canvas_height c)
  then map (fun k => default 0 (bitmap c !! Z.to_nat (4 * (y * canvas_width c + x) + k)))
           [0; 1; 2; 3]
  else [0; 0; 0; 0].

Definition sample_getImageData_rect (c : Canvas) (r : Rect) : option (list Z) :=
  if origin_clean c && (0 <? rect_sw r) && (0 <? rect_sh r)
  then Some (flat_map
               (fun y => flat_map (fun x => sample_pixel c x y) (seqZ (rect_sx r) (rect_sw r)))
               (seqZ (rect_sy r) (rect_sh r)))
  else None.

(** A context as the browser hands it out, and the context after [n]
    calls of [getContext] for the same type. *)
Definition native_context : WebGLContext :=
  {| ctx_getParameter := getParameter_native; ctx_getExtension := getExtension_native |}.

Definition after_getContext (f : GetContextFn) (type : string) (n : nat)
    (context : option WebGLContext) : option WebGLContext :=
  Nat.iter n (call_getContext f type) context.

(** A browser without the debug extension, for the examples. *)
Definition sample_getParameter (parameter : Z) : Value :=
  if parameter =? 7936 then V_string "WebKit" else V_host "null".

Definition sample_getExtension (name_ : string) : Extension := ext_null.

(** [obj.prop] as a page reads it, for an object with one prototype: the
    object's own property if it has one, else the prototype's. *)
Definition read_property (obj proto : gmap string Property) (prop : string)
    : option Value :=
  match obj !! prop with
  | Some p => Some (prop_get p)
  | None => prop_get <$> proto !! prop
  end.

(** The keys the hardware script defines on [navigator] and on [screen],
    with the values their getters return. *)
Definition navigator_values (config : HardwareConfig) : list (string * Value) := [
  ("hardwareConcurrency", V_int (hardwareConcurrency config));
  ("deviceMemory", V_int (deviceMemory config));
  ("platform", V_string (hw_platform config));
  ("language", V_string (language config));
  ("languages", V_strings (languages config)) ].

Definition screen_values (config : HardwareConfig) : list (string * Value) := [
  ("width", V_int (screenWidth config));
  ("height", V_int (screenHeight config));
  ("availWidth", V_int (screenWidth config));
  ("availHeight", V_int (screenHeight config - 40));
  ("colorDepth", V_int (colorDepth config));
  ("pixelDepth", V_int (colorDepth config)) ].

(** What a page reads at [prop] after the script has tried to define it
    with value [v]: [v] where the property could be defined, the
    browser's value where the object has a non-configurable own property. *)
Definition spoofed_read (obj proto obj' proto' : gmap string Property)
    (prop : string) (v : Value) : Prop :=
  if redefinable obj prop
  then read_property obj' proto' prop = Some v
  else read_property obj' proto' prop = read_property obj proto prop.

(** The profile with the credentials of its proxy, if it has one, replaced. *)
Definition with_credentials (username password : option string) (profile : ProfileConfig)
    : ProfileConfig :=
  {| id := id profile; name := name profile; createdAt := createdAt profile;
     lastUsed := lastUsed profile; userAgent := userAgent profile;
     platform := platform profile; canvas := canvas profile; webgl := webgl profile;
     hardware := hardware profile;
     proxy :=
       match proxy profile with
       | Some p =>
           Some {| proxy_type := proxy_type p; proxy_host := proxy_host p;
                   proxy_port := proxy_port p; proxy_username := username;
                   proxy_password := password; warpPort := warpPort p |}
       | None => None
       end |}.

(** The results of [k] successive calls of [getNext], and the manager
    after them. *)
Fixpoint getNext_n (k : nat) (this : ProxyManager.State)
    : list (option ProxyServer) * ProxyManager.State :=
  match k with
  | O => ([], this)
  | S k' =>
      let '(proxy, this) := ProxyManager.getNext this in
      let '(rest, this) := getNext_n k' this in
      (proxy :: rest, this)
  end.

(** No file has a negative size. *)
Fixpoint sizes_nonneg (n : Node) : bool :=
  match n with
  | File size => 0 <=? size
  | Folder entries =>
      (fix all (entries : list (string * Node)) : bool :=
         match entries with
         | [] => true
         | (_, child) :: entries' => sizes_nonneg child && all entries'
         end) entries
  end.

(** The names that the selective cleanup removes at the top of a profile
    directory and inside its [Default] directory. *)
Definition top_targets : list string := ["Cache"; "Code Cache"; "GPUCache"; "ShaderCache"].

Definition Default_targets : list string :=
  ["Cache"; "Code Cache"; "Cookies"; "Cookies-journal"; "Local Storage";
   "Session Storage"; "IndexedDB"; "History"; "History-journal"; "Visited Links"].

(** A profile directory for the examples. *)
Definition sample_profile_dir : Node :=
  Folder [
    ("config.json", File 900);
    ("Cache", Folder [("data_0", File 4096); ("data_1", File 8192)]);
    ("Default", Folder [
       ("Cookies", File 20480);
       ("Preferences", File 1500);
       ("Web Data", File 3000);
       ("Local Storage", Folder [("leveldb", Folder [("000003.log", File 700)])]) ]);
    ("Local State", File 250) ].

(* ================================================================== *)
(** * Part III. Properties *)
(* ================================================================== *)

(** ** Binary64 arithmetic of [Math.floor(Math.random() * n)] *)

Lemma iter_pos_nat {A} (f : A -> A) p x :
  SpecFloat.iter_pos f p x = Nat.iter (Pos.to_nat p) f x.
Proof.
  revert x. induction p as [p IH|p IH|]; intros x; simpl SpecFloat.iter_pos.
  - rewrite !IH, Pos2Nat.inj_xI, Nat.iter_succ_r.
    replace (2 * Pos.to_nat p)%nat with (Pos.to_nat p + Pos.to_nat p)%nat by lia.
    now rewrite Nat.iter_add.
  - rewrite !IH, Pos2Nat.inj_xO.
    replace (2 * Pos.to_nat p)%nat with (Pos.to_nat p + Pos.to_nat p)%nat by lia.
    now rewrite Nat.iter_add.
  - reflexivity.
Qed.

Lemma shr_1_m mrs : 0 <= shr_m mrs -> shr_m (shr_1 mrs) = shr_m mrs / 2.
Proof.
  destruct mrs as [m r s]. simpl. intros Hm.
  destruct m as [|[p|p|]|p]; simpl; try lia; try reflexivity.
  - rewrite Pos2Z.inj_xI. apply Z.div_unique with 1; lia.
  - rewrite Pos2Z.inj_xO. apply Z.div_unique with 0; lia.
Qed.

Lemma shr_1_r mrs : 0 <= shr_m mrs -> shr_r (shr_1 mrs) = Z.odd (shr_m mrs).
Proof.
  destruct mrs as [m r s]. simpl. intros Hm.
  destruct m as [|[p|p|]|p]; simpl; try lia; reflexivity.
Qed.

Lemma shr_iter_m k mrs :
  0 <= shr_m mrs -> shr_m (Nat.iter k shr_1 mrs) = shr_m mrs / 2 ^ Z.of_nat k.
Proof.
  intros Hm. induction k as [|k IH].
  - simpl. now rewrite Z.div_1_r.
  - rewrite Nat.iter_succ, shr_1_m; rewrite IH.
    + rewrite Nat2Z.inj_succ, Z.pow_succ_r by lia.
      rewrite Z.div_div by lia. f_equal. lia.
    + apply Z.div_pos; lia.
Qed.

Lemma shr_iter_r k mrs :
  0 <= shr_m mrs ->
  shr_r (Nat.iter (S k) shr_1 mrs) = Z.odd (shr_m mrs / 2 ^ Z.of_nat k).
Proof.
  intros Hm. rewrite Nat.iter_succ, shr_1_r; rewrite shr_iter_m by assumption.
  - reflexivity.
  - apply Z.div_pos; lia.
Qed.

Lemma digits2_pos_bounds p :
  2 ^ (Zpos (digits2_pos p) - 1) <= Zpos p < 2 ^ Zpos (digits2_pos p).
Proof.
  induction p as [p IH|p IH|]; simpl digits2_pos; [| |simpl; lia].
  all: rewrite Pos2Z.inj_succ;
    replace (Z.succ (Zpos (digits2_pos p)) - 1) with (Zpos (digits2_pos p)) by lia;
    rewrite Z.pow_succ_r by lia;
    assert (E : 2 ^ Zpos (digits2_pos p) = 2 * 2 ^ (Zpos (digits2_pos p) - 1))
      by (rewrite <- Z.pow_succ_r by lia; f_equal; lia);
    lia.
Qed.

Lemma shr_spec mrs e n :
  0 <= shr_m mrs ->
  let k := Z.max 0 n in
  snd (shr mrs e n) = e + k /\
  shr_m (fst (shr mrs e n)) = shr_m mrs / 2 ^ k /\
  (0 < k -> shr_r (fst (shr mrs e n)) = Z.odd (shr_m mrs / 2 ^ (k - 1))) /\
  (k = 0 -> fst (shr mrs e n) = mrs).
Proof.
  intros Hm k. unfold shr. destruct n as [|p|p]; subst k; simpl Z.max; simpl fst; simpl snd.
  - rewrite Z.add_0_r, Z.div_1_r. repeat split; auto; lia.
  - rewrite iter_pos_nat.
    assert (Hp : Pos.to_nat p = S (Nat.pred (Pos.to_nat p))) by lia.
    repeat split.
    + rewrite shr_iter_m by assumption. now rewrite positive_nat_Z.
    + intros _. rewrite Hp, shr_iter_r by assumption.
      do 3 f_equal. lia.
    + intros; lia.
  - rewrite Z.div_1_r. repeat split; auto; lia.
Qed.

Lemma round_nearest_even_cases mrs :
  let m' := round_nearest_even (shr_m mrs) (loc_of_shr_record mrs) in
  m' = shr_m mrs \/ (m' = shr_m mrs + 1 /\ shr_r mrs = true).
Proof.
  destruct mrs as [m [|] [|]]; simpl; auto.
  destruct (Z.even m); auto.
Qed.

Lemma binary_round_aux_spec (M : positive) (E : Z) :
  let k1 := Z.max 0 (fexp prec emax (Zdigits2 (Zpos M) + E) - E) in
  exists mr,
    Zpos M / 2 ^ k1 <= mr /\ mr * 2 ^ k1 <= Zpos M + 2 ^ k1 / 2 /\
    let k2 := Z.max 0 (fexp prec emax (Zdigits2 mr + (E + k1)) - (E + k1)) in
    binary_round_aux prec emax false (Zpos M) E loc_Exact =
      match mr / 2 ^ k2 with
      | Z0 => S754_zero false
      | Zpos m =>
          if E + k1 + k2 <=? emax - prec then S754_finite false m (E + k1 + k2)
          else S754_infinity false
      | Zneg _ => S754_nan
      end.
Proof.
  intros k1. unfold binary_round_aux, shr_fexp.
  set (n1 := fexp prec emax (Zdigits2 (Zpos M) + E) - E) in *.
  pose proof (shr_spec (shr_record_of_loc (Zpos M) loc_Exact) E n1) as H1.
  cbn [shr_record_of_loc shr_m] in H1.
  specialize (H1 ltac:(lia)). cbv zeta in H1. fold k1 in H1.
  destruct H1 as (He1 & Hm1 & Hr1 & Hz1).
  cbn [shr_record_of_loc].
  destruct (shr {| shr_m := Zpos M; shr_r := false; shr_s := false |} E n1) as [mrs1 e1].
  cbn [fst snd] in *. subst e1.
  set (mr := round_nearest_even (shr_m mrs1) (loc_of_shr_record mrs1)).
  assert (Hk1 : 0 <= k1) by (subst k1; lia).
  assert (Hpow : 0 < 2 ^ k1) by (apply Z.pow_pos_nonneg; lia).
  assert (Hmr : Zpos M / 2 ^ k1 <= mr /\ mr * 2 ^ k1 <= Zpos M + 2 ^ k1 / 2).
  { pose proof (round_nearest_even_cases mrs1) as Hc. cbv zeta in Hc. fold mr in Hc.
    pose proof (Z.mul_div_le (Zpos M) (2 ^ k1) Hpow) as Hle.
    assert (0 <= 2 ^ k1 / 2) by (apply Z.div_pos; lia).
    destruct Hc as [Hc | [Hc Hr]]; rewrite Hc, Hm1; (split; [lia|]); [lia|].
    destruct (Z.eq_dec k1 0) as [K0|K0].
    { rewrite (Hz1 K0) in Hr. discriminate. }
    rewrite Hr1 in Hr by lia.
    set (h := 2 ^ (k1 - 1)) in *.
    assert (Hh : 2 ^ k1 = 2 * h).
    { subst h. rewrite <- Z.pow_succ_r by lia. f_equal. lia. }
    assert (Hhpos : 0 < h) by (subst h; apply Z.pow_pos_nonneg; lia).
    rewrite Hh in *.
    replace (2 * h / 2) with h by (apply Z.div_unique with 0; lia).
    assert (Hq : Zpos M / (2 * h) = (Zpos M / h) / 2).
    { rewrite Z.div_div by lia. f_equal. lia. }
    rewrite Hq.
    pose proof (Z.mul_div_le (Zpos M) h Hhpos) as Hqh.
    set (q := Zpos M / h) in *.
    apply Z.odd_spec in Hr. destruct Hr as [t Ht].
    replace (q / 2) with t by (apply Z.div_unique with 1; lia).
    nia. }
  exists mr. split; [apply Hmr|]. split; [apply Hmr|].
  cbv zeta.
  assert (Hmr0 : 0 <= mr).
  { destruct Hmr as [Hlo _]. pose proof (Z.div_pos (Zpos M) (2 ^ k1)). lia. }
  set (n2 := fexp prec emax (Zdigits2 mr + (E + k1)) - (E + k1)).
  pose proof (shr_spec (shr_record_of_loc mr loc_Exact) (E + k1) n2) as H2.
  cbn [shr_record_of_loc shr_m] in H2. specialize (H2 Hmr0). cbv zeta in H2.
  destruct H2 as (He2 & Hm2 & _ & _).
  destruct (shr {| shr_m := mr; shr_r := false; shr_s := false |} (E + k1) n2) as [mrs2 e2].
  cbn [fst snd] in *. subst e2. rewrite Hm2.
  reflexivity.
Qed.

Lemma unit_draw_inv r :
  is_unit_draw r = true ->
  r = S754_zero false \/
  exists m e, r = S754_finite false m e /\ Zpos m < 2 ^ 53 /\ -1074 <= e <= -53.
Proof.
  unfold is_unit_draw.
  change (Z2F 1) with (S754_finite false 4503599627370496 (-52)).
  destruct r as [[|]|[|]| |[|] m e]; cbn [negb andb]; try discriminate; auto.
  intros H. right. exists m, e. split; [reflexivity|].
  apply andb_prop in H as [Hv Hlt].
  unfold SpecFloat.valid_binary, bounded, canonical_mantissa in Hv.
  apply andb_prop in Hv as [Hc _].
  apply Z.eqb_eq in Hc. unfold fexp, SpecFloat.emin, prec, emax in Hc.
  pose proof (digits2_pos_bounds m) as [Hlo Hhi].
  unfold SFltb, SFcompare in Hlt.
  rewrite Pos.compare_cont_spec in Hlt.
  destruct (Z.compare_spec e (-52)) as [He|He|He]; try discriminate.
  - exfalso.
    destruct (Pos.compare_spec m 4503599627370496) as [Hm|Hm|Hm]; try discriminate.
    apply Pos2Z.pos_lt_pos in Hm.
    assert (Hd : Zpos (digits2_pos m) = 53) by lia.
    rewrite Hd in Hlo. change (2 ^ (53 - 1)) with 4503599627370496 in Hlo.  lia.
  - 
assert (Hd : Zpos (digits2_pos m) <= 53) by lia.
    split; [|lia].
    eapply Z.lt_le_trans; [exact Hhi|]. apply Z.pow_le_mono_r; lia.
Qed.

Lemma pow2_lt_inv a b : 0 <= b -> 2 ^ a < 2 ^ b -> a < b.
Proof. intros Hb H. apply (Z.pow_lt_mono_r_iff 2); lia. Qed.

Lemma pow2_split a b : 0 <= a -> 0 <= b -> 2 ^ (a + b) = 2 ^ a * 2 ^ b.
Proof. intros. apply Z.pow_add_r; lia. Qed.

Lemma floor_random_mul r n N :
  is_unit_draw r = true -> int_operand n N ->
  exists i, 0 <= i < n /\ Math_floor (SF64mul r N) = Z2F i.
Proof.
  intros Hr (mn & en & -> & Hen & Hmn & Hn).
  apply unit_draw_inv in Hr as [-> | (m & e & -> & Hm & He)].
  { exists 0. split; [lia|reflexivity]. }
  unfold SF64mul, SFmul. cbn [xorb].
  change (Zpos (Pos.mul m mn)) with (Zpos (m * mn)).
  destruct (binary_round_aux_spec (m * mn) (e + en)) as (mr & Hlo & Hhi & Hres).
  cbv zeta in Hres. rewrite Hres. clear Hres.
  set (M := (m * mn)%positive) in *. set (E := e + en) in *.
  set (k1 := Z.max 0 (fexp prec emax (Zdigits2 (Zpos M) + E) - E)) in *.
  set (k2 := Z.max 0 (fexp prec emax (Zdigits2 mr + (E + k1)) - (E + k1))).
  assert (Hk1 : 0 <= k1) by (subst k1; lia).
  assert (Hk2 : 0 <= k2) by (subst k2; lia).
  (* the exact product, scaled by 2^(-E), stays below n * 2^(-E) by more than
     the rounding error *)
  set (T := n * 2 ^ (- E)).
  assert (HpE : 2 ^ (- E) = 2 ^ (- e) * 2 ^ (- en)).
  { subst E. replace (- (e + en)) with (- e + - en) by lia. apply pow2_split; lia. }
  assert (Hpe : 2 ^ (- e) = 2 ^ 53 * 2 ^ (- e - 53)).
  { replace (- e) with (53 + (- e - 53)) at 1 by lia. apply pow2_split; lia. }
  assert (HP : 0 < 2 ^ (- e - 53)) by (apply Z.pow_pos_nonneg; lia).
  assert (Hpen : 0 < 2 ^ (- en)) by (apply Z.pow_pos_nonneg; lia).
  assert (HM : Zpos M = Zpos m * Zpos mn) by (subst M; apply Pos2Z.inj_mul).
  assert (HT : T = 2 ^ (- e) * Zpos mn) by (subst T; rewrite HpE, Hmn; ring).
  pose proof (digits2_pos_bounds M) as [HdLo HdHi].
  set (d := Zpos (digits2_pos M)) in *.
  assert (Hd1 : 1 <= d) by (subst d; lia).
  assert (KB : Zpos M + 2 ^ k1 / 2 < T).
  { destruct (Z.eq_dec k1 0) as [K0|K0].
    - rewrite K0. change (2 ^ 0 / 2) with 0. rewrite HT, HM, Hpe. nia.
    - assert (Hh : 2 ^ k1 / 2 = 2 ^ (k1 - 1)).
      { replace k1 with (Z.succ (k1 - 1)) at 1 by lia.
        rewrite Z.pow_succ_r by lia. symmetry. apply Z.div_unique with 0; lia. }
      rewrite Hh.
      assert (Hlt : 2 ^ (k1 - 1) < 2 ^ (- e - 53) * Zpos mn).
      { unfold fexp, SpecFloat.emin, prec, emax in k1. cbn [Zdigits2] in k1. fold d in k1.
        destruct (Z.le_gt_cases (-1074 - E) (d - 53)) as [Hc|Hc].
        - assert (Hk : k1 = d - 53) by (subst k1; lia).
          rewrite Hk in *.
          assert (Hsp : 2 ^ (d - 1) = 2 ^ 53 * 2 ^ (d - 53 - 1)).
          { replace (d - 1) with (53 + (d - 53 - 1)) by lia. apply pow2_split; lia. }
          assert (0 < 2 ^ (d - 53 - 1)) by (apply Z.pow_pos_nonneg; lia).
          rewrite Hsp, HM in HdLo. rewrite Hpe in *.
          assert (Zpos m * Zpos mn < 2 ^ 53 * Zpos mn) by nia.
          nia.
        - assert (Hk : k1 = -1074 - E) by (subst k1; lia).
          rewrite Hk in *.
          assert (2 ^ (-1074 - E - 1) < 2 ^ (- e - 53)).
          { apply Z.pow_lt_mono_r; subst E; lia. }
          nia. }
      rewrite HT, HM, Hpe.
      assert (Zpos m + 1 <= 2 ^ 53) by lia.
      nia. }
  assert (HTn : T <= 2 ^ (31 - E)).
  { subst T. replace (31 - E) with (31 + - E) by lia.
    rewrite pow2_split by (subst E; lia).
    apply Z.mul_le_mono_nonneg_r; [apply Z.pow_nonneg; lia | lia]. }
  assert (Hhalf : 0 <= 2 ^ k1 / 2) by (apply Z.div_pos; [apply Z.pow_nonneg|]; lia).
  assert (HdE : d + E < 32).
  { assert (2 ^ (d - 1) < 2 ^ (31 - E)) by lia.
    apply pow2_lt_inv in H; subst E; lia. }
  assert (Hmr0 : 0 <= mr).
  { pose proof (Z.div_pos (Zpos M) (2 ^ k1)) as Hq.
    assert (0 < 2 ^ k1) by (apply Z.pow_pos_nonneg; lia). lia. }
  assert (Hpk1 : 0 < 2 ^ k1) by (apply Z.pow_pos_nonneg; lia).
  assert (Hpk2 : 0 < 2 ^ k2) by (apply Z.pow_pos_nonneg; lia).
  assert (HdrE : Zdigits2 mr + E + k1 < 33).
  { destruct mr as [|q|q]; [cbn [Zdigits2]; subst k1; unfold fexp, SpecFloat.emin, prec, emax; cbn [Zdigits2]; fold d; lia | | lia].
    cbn [Zdigits2]. pose proof (digits2_pos_bounds q) as [HqLo _].
    set (dr := Zpos (digits2_pos q)) in *.
    assert (2 ^ (dr - 1 + k1) < 2 ^ (31 - E)).
    { rewrite pow2_split by (subst dr; lia). nia. }
    apply pow2_lt_inv in H; subst E; lia. }
  assert (He2 : E + k1 + k2 < 0).
  { subst k2. unfold fexp, SpecFloat.emin, prec, emax in *. cbn [Zdigits2] in k1. fold d in k1.
    subst k1 E. lia. }
  pose proof (Z.mul_div_le mr (2 ^ k2) Hpk2) as Hq2.
  destruct (mr / 2 ^ k2) as [|p|p] eqn:Hp.
  - exists 0. split; [lia|reflexivity].
  - replace (E + k1 + k2 <=? emax - prec) with true
      by (symmetry; apply Z.leb_le; unfold emax, prec; lia).
    unfold Math_floor. replace (0 <=? E + k1 + k2) with false by (symmetry; apply Z.leb_gt; lia).
    cbn [cond_Zopp]. exists (Z.shiftl (Zpos p) (E + k1 + k2)). split; [|reflexivity].
    rewrite Z.shiftl_div_pow2 by lia.
    set (s := - (E + k1 + k2)) in *.
    assert (Hs : 0 < 2 ^ s) by (apply Z.pow_pos_nonneg; subst s; lia).
    split; [apply Z.div_pos; lia|].
    apply Z.div_lt_upper_bound; [lia|].
    assert (HsE : 2 ^ (- E) = 2 ^ s * (2 ^ k1 * 2 ^ k2)).
    { rewrite <- !pow2_split by (subst s; lia). f_equal. subst s. lia. }
    assert (Zpos p * (2 ^ k1 * 2 ^ k2) < n * 2 ^ s * (2 ^ k1 * 2 ^ k2)).
    { replace (n * 2 ^ s * (2 ^ k1 * 2 ^ k2)) with T by (subst T; rewrite HsE; ring). nia. }
    nia.
  - exfalso. pose proof (Z.div_pos mr (2 ^ k2)). lia.
Qed.

Lemma iter_xO_Z p d : Zpos (Pos.iter xO p d) = Zpos p * 2 ^ Zpos d.
Proof.
  revert p. induction d as [|d IH] using Pos.peano_ind; intros p.
  - simpl. lia.
  - rewrite Pos.iter_succ, Pos2Z.inj_xO, IH, Pos2Z.inj_succ, Z.pow_succ_r by lia. ring.
Qed.

Lemma iter_xO_digits p d :
  Zpos (digits2_pos (Pos.iter xO p d)) = Zpos (digits2_pos p) + Zpos d.
Proof.
  revert p. induction d as [|d IH] using Pos.peano_ind; intros p.
  - simpl. lia.
  - rewrite Pos.iter_succ. simpl digits2_pos. rewrite Pos2Z.inj_succ, IH. lia.
Qed.

(** A mantissa of 53 digits at an exponent in range rounds to itself. *)
Lemma binary_round_aux_exact (M : positive) (E : Z) :
  Zpos (digits2_pos M) = 53 -> -1074 <= E <= 971 ->
  binary_round_aux prec emax false (Zpos M) E loc_Exact = S754_finite false M E.
Proof.
  intros Hd HE.
  destruct (binary_round_aux_spec M E) as (mr & Hlo & Hhi & Hres).
  cbv zeta in Hres. rewrite Hres. clear Hres.
  unfold fexp, SpecFloat.emin, prec, emax in *. cbn [Zdigits2] in *. rewrite Hd in *.
  replace (0 `max` ((53 + E - 53) `max` (3 - 1024 - 53) - E)) with 0 in * by lia.
  change (2 ^ 0) with 1 in *. change (1 / 2) with 0 in *.
  rewrite Z.div_1_r in Hlo.
  assert (mr = Zpos M) by lia. subst mr.
  cbn [Zdigits2]. rewrite Hd.
  replace (0 `max` ((53 + (E + 0) - 53) `max` (3 - 1024 - 53) - (E + 0))) with 0 by lia.
  change (2 ^ 0) with 1. rewrite Z.div_1_r.
  replace (E + 0 + 0) with E by lia.
  replace (E <=? 1024 - 53) with true by (symmetry; apply Z.leb_le; lia).
  reflexivity.
Qed.

Lemma Z2F_form (n : Z) :
  1 <= n < 2 ^ 53 ->
  exists mn en, Z2F n = S754_finite false mn en /\ -52 <= en <= 0 /\
                Zpos mn = n * 2 ^ (- en).
Proof.
  intros Hn. destruct n as [|p|p]; try lia.
  unfold Z2F, binary_normalize, binary_round.
  pose proof (digits2_pos_bounds p) as [Hlo Hhi].
  set (dp := Zpos (digits2_pos p)) in *.
  assert (Hdp : 1 <= dp <= 53).
  { split; [subst dp; lia|].
    destruct (Z.le_gt_cases dp 53) as [|Hgt]; [assumption|exfalso].
    assert (2 ^ 53 <= 2 ^ (dp - 1)) by (apply Z.pow_le_mono_r; lia). lia. }
  unfold shl_align, fexp, SpecFloat.emin, prec, emax. fold dp.
  replace ((dp + 0 - 53) `max` (3 - 1024 - 53) - 0) with (dp - 53) by lia.
  replace ((dp + 0 - 53) `max` (3 - 1024 - 53)) with (dp - 53) by lia.
  destruct (dp - 53) as [|q|q] eqn:Hq; try lia; cbv beta iota zeta.
  - exists p, 0. change (binary_round_aux 53 1024) with (binary_round_aux prec emax).
    rewrite (binary_round_aux_exact p 0) by (fold dp; lia).
    split; [reflexivity|]. split; [lia|]. simpl. lia.
  - exists (Pos.iter xO p q), (Zneg q).
    change (binary_round_aux 53 1024) with (binary_round_aux prec emax).
    rewrite binary_round_aux_exact.
    + split; [reflexivity|]. split; [lia|].
      rewrite iter_xO_Z. reflexivity.
    + rewrite iter_xO_digits. fold dp. lia.
    + lia.
Qed.

Lemma int_operand_Z2F n : 1 <= n <= 2 ^ 31 -> int_operand n (Z2F n).
Proof.
  intros Hn. destruct (Z2F_form n) as (mn & en & H1 & H2 & H3).
  { split; [lia|]. eapply Z.le_lt_trans; [apply Hn|]. reflexivity. }
  exists mn, en. auto.
Qed.

Lemma to_Z_Z2F n : 0 <= n < 2 ^ 53 -> to_Z (Z2F n) = Some n.
Proof.
  intros Hn. destruct (Z.eq_dec n 0) as [->|Hn0]; [reflexivity|].
  destruct (Z2F_form n) as (mn & en & -> & Hen & Hmn); [lia|].
  unfold to_Z. cbn [cond_Zopp].
  destruct (Z.leb_spec 0 en).
  - assert (en = 0) by lia. subst en. rewrite Hmn. simpl. f_equal. lia.
  - assert (0 < 2 ^ (- en)) by (apply Z.pow_pos_nonneg; lia).
    rewrite Hmn, Z.mod_mul, Z.div_mul by lia. reflexivity.
Qed.

Lemma int_part_Z2F n : 0 <= n < 2 ^ 53 -> int_part (Z2F n) = n.
Proof.
  intros Hn. destruct (Z.eq_dec n 0) as [->|Hn0]; [reflexivity|].
  destruct (Z2F_form n) as (mn & en & -> & Hen & Hmn); [lia|].
  unfold int_part. cbn [cond_Zopp].
  destruct (Z.eq_dec en 0) as [->|].
  - rewrite Z.shiftl_0_r, Hmn. change (2 ^ (- 0)) with 1. lia.
  - rewrite Z.shiftl_div_pow2 by lia.
    assert (0 < 2 ^ (- en)) by (apply Z.pow_pos_nonneg; lia).
    rewrite Hmn, Z.div_mul by lia. reflexivity.
Qed.

Lemma Z2F_not_special n : 0 <= n < 2 ^ 53 ->
  Z2F n <> S754_nan /\ forall s, Z2F n <> S754_infinity s.
Proof.
  intros Hn. destruct (Z.eq_dec n 0) as [->|Hn0]; [split; [discriminate|intros; discriminate]|].
  destruct (Z2F_form n) as (mn & en & -> & _); [lia|].
  split; [discriminate|intros; discriminate].
Qed.

Lemma Number_toString_Z2F n : 0 <= n < 2 ^ 53 -> Number_toString (Z2F n) = pretty n.
Proof.
  intros Hn. pose proof (int_part_Z2F n Hn) as Hi.
  destruct (Z2F_not_special n Hn) as [Hnan Hinf].
  unfold Number_toString. destruct (Z2F n); congruence.
Qed.

(** ** Generators in the monad *)

Lemma advance_0 w : advance 0 w = w.
Proof. destruct w; reflexivity. Qed.

Lemma advance_advance j k w : advance j (advance k w) = advance (j + k) w.
Proof. unfold advance; cbn. f_equal. lia. Qed.

Lemma random_in_range_advance k w : random_in_range w -> random_in_range (advance k w).
Proof.
  intros H i. unfold advance; cbn.
  replace (k + Math_random_calls w + i)%nat with (Math_random_calls w + (k + i))%nat by lia.
  apply H.
Qed.

Lemma gen_ok_ret {A} (a : A) (P : A -> Prop) : P a -> gen_ok (ret a) P.
Proof. intros HP w _. exists a, 0%nat. rewrite advance_0. split; [reflexivity|assumption]. Qed.

Lemma gen_ok_bind {A B} (m : M A) (k : A -> M B) (P : A -> Prop) (Q : B -> Prop) :
  gen_ok m P -> (forall a, P a -> gen_ok (k a) Q) -> gen_ok (bind m k) Q.
Proof.
  intros Hm Hk w Hw.
  destruct (Hm w Hw) as (a & j & Hrun & HP).
  destruct (Hk a HP (advance j w) (random_in_range_advance j w Hw)) as (b & j' & Hrun' & HQ).
  exists b, (j' + j)%nat. unfold bind. rewrite Hrun, Hrun', advance_advance. auto.
Qed.

Lemma gen_ok_weaken {A} (m : M A) (P Q : A -> Prop) :
  gen_ok m P -> (forall a, P a -> Q a) -> gen_ok m Q.
Proof.
  intros Hm HPQ w Hw. destruct (Hm w Hw) as (a & k & Hrun & HP).
  exists a, k. auto.
Qed.

Lemma gen_ok_Math_random : gen_ok Math_random (fun r => is_unit_draw r = true).
Proof.
  intros w Hw. exists (Math_random_tape w (Math_random_calls w)), 1%nat.
  split; [reflexivity|].
  specialize (Hw 0%nat). now rewrite Nat.add_0_r in Hw.
Qed.

Lemma gen_ok_replicateM {A} (n : nat) (m : M A) (P : A -> Prop) :
  gen_ok m P -> gen_ok (replicateM n m) (fun l => length l = n /\ Forall P l).
Proof.
  intros Hm. induction n as [|n IH]; simpl replicateM.
  - apply gen_ok_ret. split; [reflexivity|constructor].
  - eapply gen_ok_bind; [exact Hm|]. intros x Hx.
    eapply gen_ok_bind; [exact IH|]. intros xs [Hlen Hxs].
    apply gen_ok_ret. split; [simpl; congruence|constructor; assumption].
Qed.

Lemma js_get_Z2F {A} (arr : list A) i :
  0 <= i < Z.of_nat (length arr) -> Z.of_nat (length arr) <= 2 ^ 31 ->
  exists a, js_get arr (Z2F i) = Some a /\ a ∈ arr.
Proof.
  intros Hi Hlen. unfold js_get.
  rewrite to_Z_Z2F.
  2:{ split; [lia|]. eapply Z.lt_le_trans; [apply Hi|].
      eapply Z.le_trans; [apply Hlen|]. apply Z.pow_le_mono_r; lia. }
  replace (0 <=? i) with true by (symmetry; apply Z.leb_le; lia).
  destruct (lookup_lt_is_Some_2 arr (Z.to_nat i)) as [a Ha]; [lia|].
  exists a. split; [assumption|]. eapply list_elem_of_lookup_2; eassumption.
Qed.

Lemma randomChoice_ok {A} (arr : list A) :
  arr <> [] -> Z.of_nat (length arr) <= 2 ^ 31 ->
  gen_ok (randomChoice arr) (fun a => a ∈ arr).
Proof.
  intros Hne Hlen. unfold randomChoice.
  eapply gen_ok_bind; [apply gen_ok_Math_random|]. intros r Hr.
  assert (Hn : 1 <= Z.of_nat (length arr) <= 2 ^ 31).
  { split; [|assumption]. destruct arr; [congruence|simpl; lia]. }
  destruct (floor_random_mul r _ _ Hr (int_operand_Z2F _ Hn)) as (i & Hi & ->).
  destruct (js_get_Z2F arr i Hi Hlen) as (a & -> & Ha).
  apply gen_ok_ret. assumption.
Qed.

(** [randomInt] on literals whose span and sums are exact. *)
Lemma randomInt_ok (lo hi n : Z) :
  SF64add (SF64sub (Z2F hi) (Z2F lo)) (Z2F 1) = Z2F n ->
  1 <= n <= 2 ^ 31 ->
  (forall i, 0 <= i < n -> SF64add (Z2F i) (Z2F lo) = Z2F (i + lo)) ->
  gen_ok (randomInt (Z2F lo) (Z2F hi)) (fun x => exists z, lo <= z < lo + n /\ x = Z2F z).
Proof.
  intros Hspan Hn Hsum. unfold randomInt.
  eapply gen_ok_bind; [apply gen_ok_Math_random|]. intros r Hr.
  rewrite Hspan.
  destruct (floor_random_mul r _ _ Hr (int_operand_Z2F _ Hn)) as (i & Hi & ->).
  apply gen_ok_ret. exists (i + lo). split; [lia|]. apply Hsum, Hi.
Qed.

Lemma all_below_spec n p :
  all_below n p = true -> forall i, 0 <= i < n -> p i = true.
Proof.
  unfold all_below. rewrite forallb_forall. intros H i Hi.
  apply H, list_elem_of_In, elem_of_seqZ. lia.
Qed.

Lemma sums_major : forall i, 0 <= i < 11 -> SF64add (Z2F i) (Z2F 110) = Z2F (i + 110).
Proof.
  intros i Hi.
  apply (all_below_spec 11 (fun i => bool_decide (SF64add (Z2F i) (Z2F 110) = Z2F (i + 110)))) in Hi.
  - now apply bool_decide_eq_true in Hi.
  - vm_compute. reflexivity.
Qed.

Lemma sums_build : forall i, 0 <= i < 1001 -> SF64add (Z2F i) (Z2F 5000) = Z2F (i + 5000).
Proof.
  intros i Hi.
  apply (all_below_spec 1001 (fun i => bool_decide (SF64add (Z2F i) (Z2F 5000) = Z2F (i + 5000)))) in Hi.
  - now apply bool_decide_eq_true in Hi.
  - vm_compute. reflexivity.
Qed.

Lemma sums_patch : forall i, 0 <= i < 201 -> SF64add (Z2F i) (Z2F 0) = Z2F (i + 0).
Proof.
  intros i Hi.
  apply (all_below_spec 201 (fun i => bool_decide (SF64add (Z2F i) (Z2F 0) = Z2F (i + 0)))) in Hi.
  - now apply bool_decide_eq_true in Hi.
  - vm_compute. reflexivity.
Qed.

(** ** The user-agent generators *)

Lemma generateChromeVersion_ok :
  gen_ok generateChromeVersion
    (fun s => exists major build patch,
       version_ranges major build patch /\ s = chrome_version major build patch).
Proof.
  unfold generateChromeVersion.
  eapply gen_ok_bind.
  { apply (randomInt_ok 110 120 11); [reflexivity|split; [lia|discriminate]|exact sums_major]. }
  intros major (ma & Hma & ->).
  eapply gen_ok_bind.
  { apply (randomInt_ok 5000 6000 1001); [reflexivity|split; [lia|discriminate]|exact sums_build]. }
  intros build (bu & Hbu & ->).
  eapply gen_ok_bind.
  { apply (randomInt_ok 0 200 201); [reflexivity|split; [lia|discriminate]|exact sums_patch]. }
  intros patch (pa & Hpa & ->).
  apply gen_ok_ret. exists ma, bu, pa. split; [unfold version_ranges; lia|].
  unfold chrome_version.
  rewrite !Number_toString_Z2F by (split; [lia|]; apply Z.lt_le_trans with 10000; [lia|discriminate]).
  reflexivity.
Qed.

Lemma generateWindowsUA_ok :
  gen_ok generateWindowsUA
    (fun ua => exists os major build patch,
       os ∈ os_tokens windows /\ version_ranges major build patch /\
       ua = ua_string os major build patch).
Proof.
  unfold generateWindowsUA.
  eapply gen_ok_bind; [apply generateChromeVersion_ok|].
  intros cv (ma & bu & pa & Hr & ->).
  eapply gen_ok_bind; [apply randomChoice_ok; [discriminate|discriminate]|].
  intros nt Hnt.
  eapply gen_ok_bind; [apply randomChoice_ok; [discriminate|discriminate]|].
  intros arch Harch.
  apply gen_ok_ret.
  unfold PLATFORMS_windows_versions in Hnt. unfold PLATFORMS_windows_arch in Harch.
  apply list_elem_of_In in Hnt, Harch. simpl in Hnt, Harch.
  destruct Harch as [<-|[]].
  destruct Hnt as [<-|[<-|[]]].
  - exists "Windows NT 10.0; Win64; x64", ma, bu, pa.
    split; [apply list_elem_of_In; simpl; auto|]. split; [assumption|reflexivity].
  - exists "Windows NT 11.0; Win64; x64", ma, bu, pa.
    split; [apply list_elem_of_In; simpl; auto|]. split; [assumption|reflexivity].
Qed.

Lemma generateMacUA_ok :
  gen_ok generateMacUA
    (fun ua => exists os major build patch,
       os ∈ os_tokens mac /\ version_ranges major build patch /\
       ua = ua_string os major build patch).
Proof.
  unfold generateMacUA.
  eapply gen_ok_bind; [apply generateChromeVersion_ok|].
  intros cv (ma & bu & pa & Hr & ->).
  eapply gen_ok_bind; [apply randomChoice_ok; [discriminate|discriminate]|].
  intros v Hv.
  apply gen_ok_ret.
  exists ("Macintosh; Intel Mac OS X " +:+ v), ma, bu, pa.
  split; [|split; [assumption|]].
  - unfold os_tokens. apply list_elem_of_fmap. exists v. auto.
  - unfold PLATFORMS_mac_versions in Hv. apply list_elem_of_In in Hv. simpl in Hv.
    repeat (destruct Hv as [<-|Hv]; [reflexivity|]). destruct Hv.
Qed.

Lemma generateLinuxUA_ok :
  gen_ok generateLinuxUA
    (fun ua => exists os major build patch,
       os ∈ os_tokens linux /\ version_ranges major build patch /\
       ua = ua_string os major build patch).
Proof.
  unfold generateLinuxUA.
  eapply gen_ok_bind; [apply generateChromeVersion_ok|].
  intros cv (ma & bu & pa & Hr & ->).
  apply gen_ok_ret.
  exists "X11; Linux x86_64", ma, bu, pa.
  split; [apply list_elem_of_In; simpl; auto|]. split; [assumption|reflexivity].
Qed.

Lemma resolve_platform_ok p :
  gen_ok (resolve_platform p) (fun q => p <> random -> q = p).
Proof.
  destruct p; simpl; try (apply gen_ok_ret; reflexivity).
  eapply gen_ok_bind; [apply gen_ok_Math_random|]. intros r _.
  apply gen_ok_ret. congruence.
Qed.

Lemma generateUA_ok p :
  gen_ok (generateUA p)
    (fun ua => exists q os major build patch,
       (p <> random -> q = p) /\ os ∈ os_tokens q /\
       version_ranges major build patch /\ ua = ua_string os major build patch).
Proof.
  unfold generateUA.
  eapply gen_ok_bind; [apply resolve_platform_ok|]. intros q Hq.
  destruct q.
  - eapply gen_ok_weaken; [apply generateWindowsUA_ok|].
    intros ua (os & ma & bu & pa & H). exists windows, os, ma, bu, pa. tauto.
  - eapply gen_ok_weaken; [apply generateMacUA_ok|].
    intros ua (os & ma & bu & pa & H). exists mac, os, ma, bu, pa. tauto.
  - eapply gen_ok_weaken; [apply generateLinuxUA_ok|].
    intros ua (os & ma & bu & pa & H). exists linux, os, ma, bu, pa. tauto.
  - eapply gen_ok_weaken; [apply generateWindowsUA_ok|].
    intros ua (os & ma & bu & pa & H). exists random, os, ma, bu, pa. tauto.
Qed.

(** ** Parsing a generated user agent *)

Lemma prefix_clash needle u t :
  clash needle u = true -> String.prefix needle (u +:+ t) = false.
Proof.
  revert u. induction needle as [|a needle IH]; intros u; [discriminate|].
  destruct u as [|b u]; simpl; [discriminate|].
  destruct (Ascii.eqb_spec a b) as [->|Hne].
  - intros H. destruct (ascii_dec b b); [auto|congruence].
  - intros _. destruct (ascii_dec a b); [congruence|reflexivity].
Qed.

Lemma includes_skip needle pre t :
  all_suffixes_clash needle pre = true ->
  includes needle (pre +:+ t) = includes needle t.
Proof.
  induction pre as [|c pre IH]; [reflexivity|].
  cbn [all_suffixes_clash]. intros H. apply andb_prop in H as [Hc Hs].
  change (String c pre +:+ t) with (String c (pre +:+ t)).
  cbn [includes].
  change (String c (pre +:+ t)) with (String c pre +:+ t) at 1.
  rewrite (prefix_clash _ _ _ Hc). auto.
Qed.

Lemma prefix_app_l needle pre t :
  String.prefix needle pre = true -> String.prefix needle (pre +:+ t) = true.
Proof.
  revert pre. induction needle as [|a needle IH]; intros pre;
    [intros _; now destruct (pre +:+ t)|].
  destruct pre as [|b pre]; simpl; [discriminate|].
  destruct (ascii_dec a b); [auto|discriminate].
Qed.

Lemma includes_app_l needle pre t :
  includes needle pre = true -> includes needle (pre +:+ t) = true.
Proof.
  induction pre as [|c pre IH].
  - cbn [includes]. destruct (String.prefix needle EmptyString) eqn:Hp; [|discriminate].
    intros _. destruct needle; [|discriminate]. destruct t; reflexivity.
  - cbn [includes]. change (String c pre +:+ t) with (String c (pre +:+ t)).
    cbn [includes]. change (String c (pre +:+ t)) with (String c pre +:+ t) at 1.
    destruct (String.prefix needle (String c pre)) eqn:Hp.
    + now rewrite (prefix_app_l _ _ t Hp).
    + intros H. rewrite (IH H). now destruct (String.prefix needle (String c pre +:+ t)).
Qed.

Lemma span_app p a b :
  all_chars p a = true -> head_fails p b = true -> span p (a +:+ b) = (a, b).
Proof.
  intros Ha Hb. induction a as [|c a IH].
  - destruct b as [|c b]; [reflexivity|]. simpl in *. 
    destruct (p c); [discriminate|reflexivity].
  - cbn [all_chars] in Ha. apply andb_prop in Ha as [Hc Ha].
    change (String c a +:+ b) with (String c (a +:+ b)).
    cbn [span]. rewrite Hc, (IH Ha). reflexivity.
Qed.

Lemma substring_all s : String.substring 0 (String.length s) s = s.
Proof. induction s as [|c s IH]; [reflexivity|]. simpl. now rewrite IH. Qed.

Lemma match_Chrome_unfold s :
  match_Chrome_version s =
    match (if String.prefix "Chrome/" s
           then version_at (String.substring 7 (String.length s - 7) s)
           else None) with
    | Some v => Some v
    | None => match s with
              | EmptyString => None
              | String _ s' => match_Chrome_version s'
              end
    end.
Proof. destruct s; reflexivity. Qed.

Lemma match_Chrome_skip pre t :
  all_suffixes_clash "Chrome/" pre = true ->
  match_Chrome_version (pre +:+ t) = match_Chrome_version t.
Proof.
  induction pre as [|c pre IH]; [reflexivity|].
  cbn [all_suffixes_clash]. intros H. apply andb_prop in H as [Hc Hs].
  rewrite match_Chrome_unfold, (prefix_clash _ _ _ Hc).
  change (String c pre +:+ t) with (String c (pre +:+ t)). auto.
Qed.

Lemma match_Chrome_here t v :
  version_at t = Some v -> match_Chrome_version ("Chrome/" +:+ t) = Some v.
Proof.
  intros H. rewrite match_Chrome_unfold.
  replace (String.prefix "Chrome/" ("Chrome/" +:+ t)) with true
    by (simpl; now destruct t).
  replace (String.substring 7 (String.length ("Chrome/" +:+ t) - 7) ("Chrome/" +:+ t)) with t.
  - now rewrite H.
  - simpl. rewrite Nat.sub_0_r. symmetry. apply substring_all.
Qed.

Lemma pretty_numeral z : 0 <= z <= 6000 -> is_numeral (pretty z) = true.
Proof.
  intros Hz. apply (all_below_spec 6001 (fun z => is_numeral (pretty z))); [|lia].
  vm_compute. reflexivity.
Qed.

Lemma append_assoc (a b c : string) : (a +:+ b) +:+ c = a +:+ (b +:+ c).
Proof.
  induction a as [|x a IH]; [reflexivity|].
  change (String x ((a +:+ b) +:+ c) = String x (a +:+ (b +:+ c))).
  f_equal. exact IH.
Qed.

Lemma digits_dot_app d r :
  is_numeral d = true -> digits_dot (d +:+ "." +:+ r) = Some (d, r).
Proof.
  intros H. apply andb_prop in H as [Hd Hne].
  unfold digits_dot. rewrite span_app by (assumption || reflexivity).
  destruct d; [discriminate|reflexivity].
Qed.

Lemma version_at_app d1 d2 d3 d4 rest :
  is_numeral d1 = true -> is_numeral d2 = true -> is_numeral d3 = true ->
  is_numeral d4 = true -> head_fails is_digit rest = true ->
  version_at ((d1 +:+ "." +:+ d2 +:+ "." +:+ d3 +:+ "." +:+ d4) +:+ rest)
  = Some (d1 +:+ "." +:+ d2 +:+ "." +:+ d3 +:+ "." +:+ d4).
Proof.
  intros H1 H2 H3 H4 Hr. unfold version_at.
  rewrite !append_assoc.
  rewrite !digits_dot_app by assumption.
  apply andb_prop in H4 as [Hd Hne].
  rewrite span_app by assumption.
  destruct d4; [discriminate|reflexivity].
Qed.

Lemma split_dot_head_app d r :
  is_numeral d = true -> split_dot_head (d +:+ "." +:+ r) = d.
Proof.
  intros H. apply andb_prop in H as [Hd _].
  unfold split_dot_head. rewrite span_app; [reflexivity| |reflexivity].
  clear r. induction d as [|c d IH]; [reflexivity|].
  cbn [all_chars] in *. apply andb_prop in Hd as [Hc Hd].
  rewrite (IH Hd), andb_true_r.
  destruct (Ascii.eqb_spec c "."); [subst c; discriminate|reflexivity].
Qed.

Lemma includes_avoids x needle s :
  all_chars (avoids_head (String x needle)) s = true ->
  includes (String x needle) s = false.
Proof.
  induction s as [|c s IH]; [reflexivity|].
  cbn [all_chars avoids_head]. intros H. apply andb_prop in H as [Hc Hs].
  cbn [includes]. rewrite (IH Hs).
  simpl. destruct (ascii_dec x c) as [->|]; [|reflexivity].
  rewrite Ascii.eqb_refl in Hc. discriminate.
Qed.

Lemma all_chars_app p a b :
  all_chars p (a +:+ b) = all_chars p a && all_chars p b.
Proof.
  induction a as [|c a IH]; [reflexivity|].
  change (String c a +:+ b) with (String c (a +:+ b)).
  cbn [all_chars]. rewrite IH. apply andb_assoc.
Qed.

Lemma all_chars_impl (p q : ascii -> bool) s :
  (forall c, p c = true -> q c = true) -> all_chars p s = true -> all_chars q s = true.
Proof.
  intros Hpq. induction s as [|c s IH]; [reflexivity|].
  cbn [all_chars]. intros H. apply andb_prop in H as [Hc Hs].
  now rewrite (Hpq c Hc), (IH Hs).
Qed.

Lemma digit_avoids x needle c :
  is_digit x = false -> is_digit c = true -> avoids_head (String x needle) c = true.
Proof.
  cbn [avoids_head]. intros Hx Hc.
  destruct (Ascii.eqb_spec x c) as [->|]; [congruence|reflexivity].
Qed.

(** Occurrences of a word in the tail of a user-agent string. *)
Lemma includes_ua_tail x needle major build patch :
  version_ranges major build patch ->
  is_digit x = false ->
  all_chars (avoids_head (String x needle)) "Chrome/. Safari/537.36" = true ->
  includes (String x needle) (ua_tail major build patch) = false.
Proof.
  intros (Hma & Hbu & Hpa) Hhead Hfix.
  apply includes_avoids.
  assert (Hnum : forall z, 0 <= z <= 6000 ->
            all_chars (avoids_head (String x needle)) (pretty z) = true).
  { intros z Hz. pose proof (pretty_numeral z Hz) as H. apply andb_prop in H as [H _].
    eapply all_chars_impl; [|exact H]. intros c. now apply digit_avoids. }
  unfold ua_tail, chrome_version.
  rewrite !all_chars_app, !Hnum by lia.
  cbn [all_chars] in Hfix |- *.
  repeat (apply andb_prop in Hfix as [? Hfix]).
  repeat (apply andb_true_intro; split); assumption || reflexivity.
Qed.

Lemma match_Chrome_ua_tail major build patch :
  version_ranges major build patch ->
  match_Chrome_version (ua_tail major build patch)
  = Some (chrome_version major build patch).
Proof.
  intros (Hma & Hbu & Hpa). unfold ua_tail.
  apply match_Chrome_here. unfold chrome_version.
  apply version_at_app; try (apply pretty_numeral; lia). reflexivity.
Qed.

Lemma os_tokens_cases q os :
  os ∈ os_tokens q ->
  all_suffixes_clash "Chrome/" (ua_prefix os) = true /\
  (forall t, match_parenthesised (ua_prefix os +:+ t) = Some os) /\
  (forall t, includes "Windows" (ua_prefix os +:+ t) =
             match q with windows | random => true | _ => includes "Windows" t end) /\
  (forall t, includes "Mac" (ua_prefix os +:+ t) =
             match q with mac => true | _ => includes "Mac" t end).
Proof.
  intros Hos. apply list_elem_of_In in Hos.
  destruct q; simpl in Hos;
    repeat (destruct Hos as [<-|Hos]; [
      split; [reflexivity|]; split; [intros t; reflexivity|];
      split; intros t;
        first [ apply includes_app_l; reflexivity
              | apply includes_skip; reflexivity ] |]); destruct Hos.
Qed.

Lemma generateClientHints_ua_string q os major build patch :
  os ∈ os_tokens q -> version_ranges major build patch ->
  generateClientHints (ua_string os major build patch) =
    [ ("sec-ch-ua", sec_ch_ua (pretty major));
      ("sec-ch-ua-mobile", "?0");
      ("sec-ch-ua-platform", platform_hint q) ].
Proof.
  intros Hos Hr.
  destruct (os_tokens_cases q os Hos) as (Hskip & Hparen & Hwin & Hmac).
  unfold generateClientHints, parseUA, ua_string.
  rewrite (match_Chrome_skip _ _ Hskip), (match_Chrome_ua_tail _ _ _ Hr), Hparen.
  cbn [ua_browserVersion].
  unfold chrome_version at 1.
  rewrite split_dot_head_app by (destruct Hr; apply pretty_numeral; lia).
  rewrite Hwin, Hmac.
  rewrite (includes_ua_tail "W" "indows"), (includes_ua_tail "M" "ac")
    by (assumption || reflexivity).
  destruct q; reflexivity.
Qed.

Lemma prefix_append_same a b c :
  String.prefix b c = true -> String.prefix (a +:+ b) (a +:+ c) = true.
Proof.
  intros H. induction a as [|x a IH]; [assumption|].
  change (String x a +:+ b) with (String x (a +:+ b)).
  change (String x a +:+ c) with (String x (a +:+ c)).
  cbn [String.prefix]. destruct (ascii_dec x x); [assumption|congruence].
Qed.

Lemma includes_after needle pre t :
  String.prefix needle t = true -> includes needle (pre +:+ t) = true.
Proof.
  intros H. induction pre as [|c pre IH].
  - change (EmptyString +:+ t) with t. destruct t; cbn [includes]; rewrite H; reflexivity.
  - change (String c pre +:+ t) with (String c (pre +:+ t)).
    cbn [includes]. rewrite IH.
    now destruct (String.prefix needle (String c (pre +:+ t))).
Qed.

(** The Chrome major version is written in the user agent, after [Chrome/]
    and before the first dot. *)
Lemma ua_string_major os major build patch :
  includes ("Chrome/" +:+ pretty major +:+ ".") (ua_string os major build patch) = true.
Proof.
  unfold ua_string. apply includes_after. unfold ua_tail, chrome_version.
  rewrite !append_assoc.
  apply (prefix_append_same "Chrome/"), prefix_append_same.
  reflexivity.
Qed.

(** C4. With every draw in [0, 1), [generateUA] returns a user agent
    [ua_string os major build patch] whose OS token [os] belongs to the
    resolved platform [q] (the requested one unless it is [random]) and
    whose Chrome major version lies in 110..120 and stands in the string
    after [Chrome/] and before a dot; and [generateClientHints] of that
    string is the three-entry map whose [sec-ch-ua] lists, character for
    character, the brands Chromium, Google Chrome and Not=A?Brand, each
    between double quotes ([dq]) and followed by [;v=] and its quoted
    version, the decimal numeral of [major] for the first two and 8 for
    the third, with a comma and a space between brands; whose
    [sec-ch-ua-mobile] is [?0]; and whose [sec-ch-ua-platform] is the name
    of [q]: Windows, macOS or Linux. *)
Theorem clientHints_from_generated_ua (p : PlatformType) (w : World) :
  random_in_range w ->
  exists ua k q os major build patch,
    generateUA p w = Some (ua, advance k w) /\
    (p <> random -> q = p) /\ os ∈ os_tokens q /\
    110 <= major <= 120 /\
    ua = ua_string os major build patch /\
    includes ("Chrome/" +:+ pretty major +:+ ".") ua = true /\
    generateClientHints ua =
      [ ("sec-ch-ua",
         dq +:+ "Chromium" +:+ dq +:+ ";v=" +:+ dq +:+ pretty major +:+ dq +:+ ", " +:+
         dq +:+ "Google Chrome" +:+ dq +:+ ";v=" +:+ dq +:+ pretty major +:+ dq +:+ ", " +:+
         dq +:+ "Not=A?Brand" +:+ dq +:+ ";v=" +:+ dq +:+ "8" +:+ dq);
        ("sec-ch-ua-mobile", "?0");
        ("sec-ch-ua-platform", platform_hint q) ].
Proof.
  intros Hw.
  destruct (generateUA_ok p w Hw) as (ua & k & Hrun & q & os & ma & bu & pa & Hq & Hos & Hr & ->).
  exists (ua_string os ma bu pa), k, q, os, ma, bu, pa.
  split; [assumption|]. split; [assumption|]. split; [assumption|].
  split; [apply Hr|]. split; [reflexivity|]. split; [apply ua_string_major|].
  rewrite (generateClientHints_ua_string q os ma bu pa Hos Hr). reflexivity.
Qed.

Lemma clientHints_from_generated_ua_witness :
  exists ua k q os major build patch,
    generateUA mac (world_with zero_draws "u" "d")
      = Some (ua, advance k (world_with zero_draws "u" "d")) /\
    (mac <> random -> q = mac) /\ os ∈ os_tokens q /\
    110 <= major <= 120 /\
    ua = ua_string os major build patch /\
    includes ("Chrome/" +:+ pretty major +:+ ".") ua = true /\
    generateClientHints ua =
      [ ("sec-ch-ua",
         dq +:+ "Chromium" +:+ dq +:+ ";v=" +:+ dq +:+ pretty major +:+ dq +:+ ", " +:+
         dq +:+ "Google Chrome" +:+ dq +:+ ";v=" +:+ dq +:+ pretty major +:+ dq +:+ ", " +:+
         dq +:+ "Not=A?Brand" +:+ dq +:+ ";v=" +:+ dq +:+ "8" +:+ dq);
        ("sec-ch-ua-mobile", "?0");
        ("sec-ch-ua-platform", platform_hint q) ].
Proof.
  apply (clientHints_from_generated_ua mac (world_with zero_draws "u" "d")).
  intros i. reflexivity.
Defined.

(** ** Seeds, GPU and hardware generators *)

Lemma random_hex_digit_ok :
  gen_ok random_hex_digit
    (fun s => String.length s = 1%nat /\ all_chars is_hex_char s = true).
Proof.
  unfold random_hex_digit.
  eapply gen_ok_bind; [apply gen_ok_Math_random|]. intros r Hr.
  destruct (floor_random_mul r 16 (Z2F 16) Hr) as (i & Hi & ->).
  { apply int_operand_Z2F. split; [lia|discriminate]. }
  apply gen_ok_ret.
  pose proof (all_below_spec 16
    (fun i => (String.length (Number_toString16 (Z2F i)) =? 1)%nat &&
              all_chars is_hex_char (Number_toString16 (Z2F i))) eq_refl i Hi) as H.
  apply andb_prop in H as [H1 H2]. apply Nat.eqb_eq in H1. auto.
Qed.

Lemma length_append (a b : string) :
  String.length (a +:+ b) = (String.length a + String.length b)%nat.
Proof.
  induction a as [|c a IH]; [reflexivity|].
  change (String c a +:+ b) with (String c (a +:+ b)).
  cbn [String.length]. now rewrite IH.
Qed.

Lemma concat_hex (l : list string) :
  Forall (fun s => String.length s = 1%nat /\ all_chars is_hex_char s = true) l ->
  String.length (fold_right String.append EmptyString l) = length l /\
  all_chars is_hex_char (fold_right String.append EmptyString l) = true.
Proof.
  induction 1 as [|s l [Hlen Hhex] _ [IHlen IHhex]]; [split; reflexivity|].
  cbn [fold_right]. split.
  - rewrite length_append, Hlen, IHlen. reflexivity.
  - now rewrite all_chars_app, Hhex, IHhex.
Qed.

Lemma random_hex32_ok : gen_ok random_hex32 is_seed.
Proof.
  unfold random_hex32.
  eapply gen_ok_bind; [apply gen_ok_replicateM, random_hex_digit_ok|].
  intros l [Hlen Hl]. apply gen_ok_ret.
  destruct (concat_hex l Hl) as [H1 H2]. split; [congruence|assumption].
Qed.

Lemma getDefaultCanvasConfig_ok :
  gen_ok getDefaultCanvasConfig
    (fun c => canvas_enabled c = true /\ canvas_noise c = Z2F 3 /\ is_seed (canvas_seed c)).
Proof.
  unfold getDefaultCanvasConfig, generateCanvasNoiseSeed.
  eapply gen_ok_bind; [apply random_hex32_ok|]. intros s Hs.
  apply gen_ok_ret. auto.
Qed.

Lemma generateRandomGPU_from_ok (table : list GPU) (platform_ : PlatformType) :
  table <> [] -> Z.of_nat (length table) <= 2 ^ 31 ->
  gen_ok (generateRandomGPU_from table platform_)
    (fun g => g ∈ table /\ (GPU_for table platform_ <> [] -> g ∈ GPU_for table platform_)).
Proof.
  intros Hne Hlen.
  assert (Hsub : forall (P : GPU -> Prop) `{!forall g, Decision (P g)},
            filter P table ≠ [] ->
            gen_ok (randomChoice (or_all (filter P table) table))
                   (fun g => g ∈ table /\ g ∈ filter P table)).
  { intros P ? Hf. 
    replace (or_all (filter P table) table) with (filter P table)
      by (destruct (filter P table); [congruence|reflexivity]).
    eapply gen_ok_weaken.
    - apply randomChoice_ok; [assumption|].
      pose proof (length_filter P table). lia.
    - intros g Hg. split; [|assumption]. now apply list_elem_of_filter in Hg. }
  assert (Hall : forall (P : GPU -> Prop) `{!forall g, Decision (P g)},
            filter P table = [] ->
            gen_ok (randomChoice (or_all (filter P table) table))
                   (fun g => g ∈ table /\ (filter P table <> [] -> g ∈ filter P table))).
  { intros P ? Hf. rewrite Hf. cbn [or_all].
    eapply gen_ok_weaken; [apply randomChoice_ok; assumption|].
    intros g Hg. split; [assumption|congruence]. }
  destruct platform_; cbn [generateRandomGPU_from GPU_for].
  - destruct (decide (filter (fun g => negb (includes "(Apple)" (vendor g)) = true) table = [])) as [E|E].
    + apply Hall, E.
    + eapply gen_ok_weaken; [apply Hsub, E|]. intros g []. auto.
  - destruct (decide (filter (fun g => includes "(Apple)" (vendor g) = true) table = [])) as [E|E].
    + apply Hall, E.
    + eapply gen_ok_weaken; [apply Hsub, E|]. intros g []. auto.
  - destruct (decide (filter (fun g => negb (includes "(Apple)" (vendor g)) = true) table = [])) as [E|E].
    + apply Hall, E.
    + eapply gen_ok_weaken; [apply Hsub, E|]. intros g []. auto.
  - eapply gen_ok_weaken; [apply randomChoice_ok; assumption|]. auto.
Qed.

Lemma generateRandomGPU_ok (platform_ : PlatformType) :
  gen_ok (generateRandomGPU platform_) (fun g => g ∈ GPU_for GPU_CONFIGS platform_).
Proof.
  eapply gen_ok_weaken.
  - apply (generateRandomGPU_from_ok GPU_CONFIGS platform_); discriminate.
  - intros g [_ Hg]. apply Hg. destruct platform_; discriminate.
Qed.

Lemma getDefaultWebGLConfig_ok (platform_ : PlatformType) :
  gen_ok (getDefaultWebGLConfig platform_)
    (fun c => webgl_enabled c = true /\ is_seed (webgl_seed c) /\
              {| vendor := webgl_vendor c; renderer := webgl_renderer c |}
                ∈ GPU_for GPU_CONFIGS platform_).
Proof.
  unfold getDefaultWebGLConfig, generateWebGLSeed.
  eapply gen_ok_bind; [apply generateRandomGPU_ok|]. intros g Hg.
  eapply gen_ok_bind; [apply random_hex32_ok|]. intros s Hs.
  apply gen_ok_ret. cbn. destruct g. auto.
Qed.

Lemma generateRandomHardware_ok (platform_ : PlatformType) :
  gen_ok (generateRandomHardware platform_)
    (fun h => hardware_from_tables h /\
              (platform_ <> random -> hw_platform h = navigatorPlatform platform_)).
Proof.
  unfold generateRandomHardware.
  eapply gen_ok_bind; [apply randomChoice_ok; discriminate|]. intros screen Hscreen.
  eapply gen_ok_bind; [apply randomChoice_ok; discriminate|]. intros lang Hlang.
  eapply gen_ok_bind with
    (P := fun q => q ∈ [windows; mac; linux] /\ (platform_ <> random -> q = platform_)).
  { destruct platform_.
    - apply gen_ok_ret. split; [repeat constructor|auto].
    - apply gen_ok_ret. split; [repeat constructor|auto].
    - apply gen_ok_ret. split; [repeat constructor|auto].
    - eapply gen_ok_weaken; [apply randomChoice_ok; discriminate|].
      intros q Hq. split; [assumption|congruence]. }
  intros q [Hq Hqp].
  eapply gen_ok_bind; [apply randomChoice_ok; discriminate|]. intros cores Hcores.
  eapply gen_ok_bind; [apply randomChoice_ok; discriminate|]. intros memory Hmemory.
  eapply gen_ok_bind; [apply randomChoice_ok; discriminate|]. intros tz Htz.
  eapply gen_ok_bind; [apply randomChoice_ok; discriminate|]. intros ratio Hratio.
  apply gen_ok_ret. split.
  - unfold hardware_from_tables. cbn.
    destruct screen, lang. repeat split; try assumption.
    apply list_elem_of_In in Hq. simpl in Hq.
    destruct Hq as [<-|[<-|[<-|[]]]]; cbn; repeat constructor.
  - cbn. intros Hp. now rewrite (Hqp Hp).
Qed.

Lemma getDefaultHardwareConfig_ok (platform_ : PlatformType) :
  gen_ok (getDefaultHardwareConfig platform_)
    (fun c => hw_enabled c = true /\ is_seed (hw_seed c) /\ hardware_from_tables c /\
              (platform_ <> random -> hw_platform c = navigatorPlatform platform_)).
Proof.
  unfold getDefaultHardwareConfig, generateHardwareSeed.
  eapply gen_ok_bind; [apply generateRandomHardware_ok|]. intros h [Hh Hp].
  eapply gen_ok_bind; [apply random_hex32_ok|]. intros s Hs.
  apply gen_ok_ret. cbn. auto.
Qed.

(** ** What the generators read of the world *)

Lemma draws_only_ret {A} (a : A) : draws_only (ret a).
Proof. intros w1 w2 H. cbn. auto. Qed.

Lemma draws_only_fail {A} : draws_only (@fail A).
Proof. intros w1 w2 H. exact I. Qed.

Lemma draws_only_bind {A B} (m : M A) (k : A -> M B) :
  draws_only m -> (forall a, draws_only (k a)) -> draws_only (bind m k).
Proof.
  intros Hm Hk w1 w2 H. unfold bind. specialize (Hm w1 w2 H).
  destruct (m w1) as [[a1 w1']|], (m w2) as [[a2 w2']|]; try tauto.
  destruct Hm as [<- H']. apply Hk, H'.
Qed.

Lemma draws_only_Math_random : draws_only Math_random.
Proof.
  intros w1 w2 H. cbn. split.
  - specialize (H 0%nat). now rewrite !Nat.add_0_r in H.
  - intros i. cbn. specialize (H (S i)). now rewrite !Nat.add_succ_r in H.
Qed.

Lemma draws_only_defined {A} (o : option A) : draws_only (defined o).
Proof. destruct o; [apply draws_only_ret|apply draws_only_fail]. Qed.

Lemma draws_only_replicateM {A} n (m : M A) : draws_only m -> draws_only (replicateM n m).
Proof.
  intros Hm. induction n as [|n IH]; simpl replicateM.
  - apply draws_only_ret.
  - apply draws_only_bind; [assumption|]. intros x.
    apply draws_only_bind; [assumption|]. intros xs. apply draws_only_ret.
Qed.

Ltac draws_only_step :=
  lazymatch goal with
  | |- draws_only (ret ?a) => exact (draws_only_ret a)
  | |- draws_only Math_random => exact draws_only_Math_random
  | |- draws_only (defined ?o) => exact (draws_only_defined o)
  | |- draws_only (replicateM ?n ?m) => refine (draws_only_replicateM n m _)
  | |- draws_only (bind ?m ?k) => refine (draws_only_bind m k _ _); [|intros ?]
  end.

Lemma draws_only_randomChoice {A} (arr : list A) : draws_only (randomChoice arr).
Proof. unfold randomChoice. repeat draws_only_step. Qed.

Lemma draws_only_randomInt lo hi : draws_only (randomInt lo hi).
Proof. unfold randomInt. repeat draws_only_step. Qed.

Lemma draws_only_random_hex32 : draws_only random_hex32.
Proof. unfold random_hex32, random_hex_digit. repeat draws_only_step. Qed.

Ltac draws_only_gen :=
  lazymatch goal with
  | |- draws_only (randomChoice ?arr) => exact (draws_only_randomChoice arr)
  | |- draws_only (randomInt ?lo ?hi) => exact (draws_only_randomInt lo hi)
  | |- draws_only random_hex32 => exact draws_only_random_hex32
  | |- draws_only (match ?p with windows => _ | mac => _ | linux => _ | random => _ end) =>
      destruct p
  | |- _ => draws_only_step
  end.

Lemma draws_only_generateChromeVersion : draws_only generateChromeVersion.
Proof. unfold generateChromeVersion. repeat draws_only_gen. Qed.

Lemma draws_only_generateUA p : draws_only (generateUA p).
Proof.
  unfold generateUA, resolve_platform, generateWindowsUA, generateMacUA,
    generateLinuxUA.
  repeat first [exact draws_only_generateChromeVersion | draws_only_gen].
Qed.

Lemma draws_only_getDefaultCanvasConfig : draws_only getDefaultCanvasConfig.
Proof.
  unfold getDefaultCanvasConfig, generateCanvasNoiseSeed. repeat draws_only_gen.
Qed.

Lemma draws_only_getDefaultWebGLConfig p : draws_only (getDefaultWebGLConfig p).
Proof.
  unfold getDefaultWebGLConfig, generateWebGLSeed, generateRandomGPU,
    generateRandomGPU_from.
  repeat draws_only_gen.
Qed.

Lemma draws_only_getDefaultHardwareConfig p : draws_only (getDefaultHardwareConfig p).
Proof.
  unfold getDefaultHardwareConfig, generateHardwareSeed, generateRandomHardware.
  repeat draws_only_gen.
Qed.

Lemma draws_only_generate_fingerprint p : draws_only (generate_fingerprint p).
Proof.
  unfold generate_fingerprint.
  repeat lazymatch goal with
    | |- draws_only (generateUA ?q) => exact (draws_only_generateUA q)
    | |- draws_only getDefaultCanvasConfig => exact draws_only_getDefaultCanvasConfig
    | |- draws_only (getDefaultWebGLConfig ?q) => exact (draws_only_getDefaultWebGLConfig q)
    | |- draws_only (getDefaultHardwareConfig ?q) =>
        exact (draws_only_getDefaultHardwareConfig q)
    | |- _ => draws_only_step
    end.
Qed.

Lemma generate_fingerprint_ok p :
  gen_ok (generate_fingerprint p)
    (fun f => (exists q os major build patch,
                 (p <> random -> q = p) /\ os ∈ os_tokens q /\
                 version_ranges major build patch /\
                 fp_userAgent f = ua_string os major build patch) /\
              is_seed (canvas_seed (fp_canvas f)) /\
              {| vendor := webgl_vendor (fp_webgl f);
                 renderer := webgl_renderer (fp_webgl f) |} ∈ GPU_CONFIGS /\
              hardware_from_tables (fp_hardware f)).
Proof.
  unfold generate_fingerprint.
  eapply gen_ok_bind; [apply generateUA_ok|]. intros ua Hua.
  eapply gen_ok_bind; [apply getDefaultCanvasConfig_ok|]. intros c (_ & _ & Hc).
  eapply gen_ok_bind; [apply getDefaultWebGLConfig_ok|]. intros g (_ & _ & Hg).
  eapply gen_ok_bind; [apply getDefaultHardwareConfig_ok|]. intros h (_ & _ & Hh & _).
  apply gen_ok_ret. cbn. auto.
Qed.

(** [create] runs the four generators after reading one uuid and two dates,
    and writes the record it returns. *)
Lemma create_unfold name_ platform_ proxy_ w :
  ProfileManager.create name_ platform_ proxy_ w =
    let id_ := uuid_tape w (uuid_calls w) in
    let createdAt_ := Date_tape w (Date_calls w) in
    let lastUsed_ := Date_tape w (S (Date_calls w)) in
    let w3 := mkWorld (Math_random_tape w) (Math_random_calls w) (uuid_tape w)
                (S (uuid_calls w)) (Date_tape w) (S (S (Date_calls w))) (config_files w) in
    match generate_fingerprint platform_ w3 with
    | Some (f, w') =>
        let config :=
          {| id := id_; name := name_; createdAt := createdAt_; lastUsed := lastUsed_;
             userAgent := fp_userAgent f; platform := platform_; canvas := fp_canvas f;
             webgl := fp_webgl f; hardware := fp_hardware f; proxy := proxy_ |} in
        Some (config,
              mkWorld (Math_random_tape w') (Math_random_calls w') (uuid_tape w')
                (uuid_calls w') (Date_tape w') (Date_calls w')
                (<[id_ := config]> (config_files w')))
    | None => None
    end.
Proof.
  unfold ProfileManager.create, generate_fingerprint, bind, uuidv4, Date_now_ISO,
    write_config, ret.
  cbv beta iota zeta delta [Math_random_tape Math_random_calls uuid_tape uuid_calls
    Date_tape Date_calls config_files].
  destruct (generateUA _ _) as [[ua w1]|]; [|reflexivity].
  destruct (getDefaultCanvasConfig w1) as [[c w2]|]; [|reflexivity].
  destruct (getDefaultWebGLConfig random w2) as [[g w4]|]; [|reflexivity].
  destruct (getDefaultHardwareConfig random w4) as [[h w5]|]; reflexivity.
Qed.

(** ** Profile creation *)

Lemma same_draws_in_range w1 w2 :
  same_draws w1 w2 -> random_in_range w1 -> random_in_range w2.
Proof. intros H H1 i. rewrite <- H. apply H1. Qed.

(** C1, counterexample: two successive [create] calls with the same platform
    choice return the same canvas seed and different user agents. There is
    no seed among the inputs of [create]; the seeds it stores are drawn from
    [Math.random()] like everything else. *)
Lemma create_same_seed_different_fingerprint :
  exists c1 w1 c2 w2,
    ProfileManager.create "p" mac None (world_with half_then_zero "u" "d") = Some (c1, w1) /\
    ProfileManager.create "p" mac None w1 = Some (c2, w2) /\
    platform c1 = platform c2 /\
    canvas_seed (canvas c1) = canvas_seed (canvas c2) /\
    userAgent c1 <> userAgent c2.
Proof.
  eexists _, _, _, _.
  split; [vm_compute; reflexivity|].
  split; [vm_compute; reflexivity|].
  split; [reflexivity|]. split; [reflexivity|]. discriminate.
Qed.

Lemma create_fingerprint name_ platform_ proxy_ w :
  random_in_range w ->
  exists c w' f k,
    ProfileManager.create name_ platform_ proxy_ w = Some (c, w') /\
    generate_fingerprint platform_
      (mkWorld (Math_random_tape w) (Math_random_calls w) (uuid_tape w)
         (S (uuid_calls w)) (Date_tape w) (S (S (Date_calls w))) (config_files w))
      = Some (f, k) /\
    fingerprint c = f /\ platform c = platform_ /\ name c = name_ /\ proxy c = proxy_.
Proof.
  intros Hw. rewrite create_unfold. cbv zeta.
  set (w3 := mkWorld _ _ _ _ _ _ _).
  destruct (generate_fingerprint_ok platform_ w3) as (f & k & Hrun & _).
  { intros i. apply Hw. }
  rewrite Hrun. eexists _, _, f, _. repeat split. now destruct f.
Qed.

(** C1, amended. The attribute sets that [create] generates are a function
    of the platform choice and of the [Math.random()] results it reads: with
    the same platform and the same draws, two calls return the same
    [userAgent], [canvas], [webgl] and [hardware], whatever the names, the
    proxies, the uuids, the dates and the profiles already on disk. *)
Theorem create_deterministic_in_draws
    (name1 name2 : string) (platform_ : PlatformType)
    (proxy1 proxy2 : option ProxyConfig) (w1 w2 : World) :
  same_draws w1 w2 -> random_in_range w1 ->
  exists c1 w1' c2 w2',
    ProfileManager.create name1 platform_ proxy1 w1 = Some (c1, w1') /\
    ProfileManager.create name2 platform_ proxy2 w2 = Some (c2, w2') /\
    fingerprint c1 = fingerprint c2.
Proof.
  intros Hsame Hw1.
  pose proof (same_draws_in_range _ _ Hsame Hw1) as Hw2.
  destruct (create_fingerprint name1 platform_ proxy1 w1 Hw1)
    as (c1 & w1' & f1 & k1 & Hc1 & Hf1 & Hfp1 & _).
  destruct (create_fingerprint name2 platform_ proxy2 w2 Hw2)
    as (c2 & w2' & f2 & k2 & Hc2 & Hf2 & Hfp2 & _).
  exists c1, w1', c2, w2'. split; [assumption|]. split; [assumption|].
  rewrite Hfp1, Hfp2.
  match type of Hf1 with generate_fingerprint _ ?u1 = _ =>
    match type of Hf2 with generate_fingerprint _ ?u2 = _ =>
      assert (Hsame' : same_draws u1 u2) by (intros i; apply Hsame);
      pose proof (draws_only_generate_fingerprint platform_ u1 u2 Hsame') as Hdet
    end end.
  rewrite Hf1, Hf2 in Hdet. apply Hdet.
Qed.

Lemma create_deterministic_in_draws_witness :
  exists c1 w1' c2 w2',
    ProfileManager.create "a" mac None (world_with half_then_zero "u1" "d1") = Some (c1, w1') /\
    ProfileManager.create "b" mac None (world_with half_then_zero "u2" "d2") = Some (c2, w2') /\
    fingerprint c1 = fingerprint c2.
Proof.
  apply (create_deterministic_in_draws "a" "b" mac None None
           (world_with half_then_zero "u1" "d1") (world_with half_then_zero "u2" "d2")).
  - intros i. reflexivity.
  - intros i. destruct i; reflexivity.
Defined.

(** C2, at the failing input: [create] with platform [mac] and every
    draw equal to 0 returns a Macintosh user agent together with the
    navigator platform [Win32] and an NVIDIA vendor string, because it calls
    [getDefaultWebGLConfig()] and [getDefaultHardwareConfig()] without the
    platform. *)
Theorem create_mac_mismatch :
  exists c w',
    ProfileManager.create "p" mac None (world_with zero_draws "u" "d") = Some (c, w') /\
    includes "Macintosh" (userAgent c) = true /\
    hw_platform (hardware c) = "Win32" /\
    webgl_vendor (webgl c) = "Google Inc. (NVIDIA)" /\
    includes "(Apple)" (webgl_vendor (webgl c)) = false.
Proof.
  eexists _, _. split; [vm_compute; reflexivity|]. repeat split.
Qed.

(** The platform-aware paths that [create] does not take: called with the
    platform, the hardware generator returns the matching navigator platform
    and the WebGL generator a GPU of the matching family. *)
Lemma generators_follow_platform (platform_ : PlatformType) (w : World) :
  random_in_range w -> platform_ <> random ->
  (exists h k, getDefaultHardwareConfig platform_ w = Some (h, advance k w) /\
               hw_platform h = navigatorPlatform platform_) /\
  (exists g k, getDefaultWebGLConfig platform_ w = Some (g, advance k w) /\
               includes "(Apple)" (webgl_vendor g) =
                 match platform_ with mac => true | _ => false end).
Proof.
  intros Hw Hp. split.
  - destruct (getDefaultHardwareConfig_ok platform_ w Hw) as (h & k & Hrun & _ & _ & _ & H).
    exists h, k. auto.
  - destruct (getDefaultWebGLConfig_ok platform_ w Hw) as (g & k & Hrun & _ & _ & H).
    exists g, k. split; [assumption|].
    destruct platform_; [| |  |congruence]; cbn [GPU_for] in H;
      apply list_elem_of_filter in H as [H _]; cbn in H;
      destruct (includes "(Apple)" (webgl_vendor g)); cbn in H; congruence.
Qed.

(** The navigator platform of a generated profile is always one of the three
    canonical tokens. *)
Lemma create_hardware_platform_canonical name_ platform_ proxy_ w :
  random_in_range w ->
  exists c w', ProfileManager.create name_ platform_ proxy_ w = Some (c, w') /\
    hw_platform (hardware c) ∈ ["Win32"; "MacIntel"; "Linux x86_64"].
Proof.
  intros Hw. rewrite create_unfold. cbv zeta.
  set (w3 := mkWorld _ _ _ _ _ _ _).
  destruct (generate_fingerprint_ok platform_ w3) as (f & k & Hrun & _ & _ & _ & Hh).
  { intros i. apply Hw. }
  rewrite Hrun. eexists _, _. split; [reflexivity|]. cbn. apply Hh.
Qed.

(** The thresholds of the weighted selection, as binary64 running sums. *)
Lemma resolved_platform_thresholds (rand : number) :
  resolved_platform rand =
    if SFltb rand lit_0_7 then windows
    else if SFltb rand lit_below_0_9 then mac
    else if SFltb rand lit_below_1 then linux
    else random.
Proof. reflexivity. Qed.

Lemma resolve_platform_random w :
  resolve_platform random w =
    Some (resolved_platform (Math_random_tape w (Math_random_calls w)), advance 1 w).
Proof. reflexivity. Qed.

(** C6, at the failing inputs: the running sum [0.7 + 0.2] is the
    double 0.8999999999999999, so a draw equal to it, which lies in
    [0.7, 0.9), selects linux and not mac; and the last running sum is
    0.9999999999999999, so a draw equal to it selects no platform and the
    default branch generates a Windows user agent. *)
Theorem weighted_selection_boundaries :
  SFleb lit_0_7 lit_below_0_9 = true /\ SFltb lit_below_0_9 lit_0_9 = true /\
  resolved_platform lit_below_0_9 = linux /\
  (exists ua w', generateUA random (world_with (fun _ => lit_below_0_9) "u" "d") = Some (ua, w') /\
                 includes "X11; Linux x86_64" ua = true) /\
  SFleb lit_0_9 lit_below_1 = true /\ SFltb lit_below_1 (Z2F 1) = true /\
  is_unit_draw lit_below_1 = true /\
  resolved_platform lit_below_1 = random /\
  (exists ua w', generateUA random (world_with (fun _ => lit_below_1) "u" "d") = Some (ua, w') /\
                 includes "Windows NT" ua = true).
Proof.
  repeat split; try reflexivity.
  - eexists _, _. split; [vm_compute; reflexivity|reflexivity].
  - eexists _, _. split; [vm_compute; reflexivity|reflexivity].
Qed.

(** C7. With every draw in [0, 1), each generator returns a value taken from
    its tables, for every platform choice; and over any non-empty GPU table
    [generateRandomGPU] returns an entry of the table, which is one of the
    platform's candidates whenever there is one. *)
Theorem generators_never_fail (platform_ : PlatformType) (w : World) :
  random_in_range w ->
  (exists g k, generateRandomGPU platform_ w = Some (g, advance k w) /\
               g ∈ GPU_CONFIGS /\ g ∈ GPU_for GPU_CONFIGS platform_) /\
  (forall table : list GPU,
     table <> [] -> Z.of_nat (length table) <= 2 ^ 31 ->
     exists g k, generateRandomGPU_from table platform_ w = Some (g, advance k w) /\
                 g ∈ table /\
                 (GPU_for table platform_ <> [] -> g ∈ GPU_for table platform_)) /\
  (exists ua k os major build patch,
     generateUA platform_ w = Some (ua, advance k w) /\
     version_ranges major build patch /\ ua = ua_string os major build patch) /\
  (exists c k, getDefaultCanvasConfig w = Some (c, advance k w) /\
               is_seed (canvas_seed c)) /\
  (exists c k, getDefaultWebGLConfig platform_ w = Some (c, advance k w) /\
               is_seed (webgl_seed c) /\
               {| vendor := webgl_vendor c; renderer := webgl_renderer c |} ∈ GPU_CONFIGS) /\
  (exists h k, generateRandomHardware platform_ w = Some (h, advance k w) /\
               hardware_from_tables h) /\
  (exists c k, getDefaultHardwareConfig platform_ w = Some (c, advance k w) /\
               is_seed (hw_seed c) /\ hardware_from_tables c).
Proof.
  intros Hw.
  assert (Hsub : forall g, g ∈ GPU_for GPU_CONFIGS platform_ -> g ∈ GPU_CONFIGS).
  { intros g Hg. destruct platform_; cbn [GPU_for] in Hg;
      try apply list_elem_of_filter in Hg as [_ Hg]; assumption. }
  repeat split.
  - destruct (generateRandomGPU_ok platform_ w Hw) as (g & k & Hrun & Hg).
    exists g, k. auto.
  - intros table Hne Hlen.
    destruct (generateRandomGPU_from_ok table platform_ Hne Hlen w Hw)
      as (g & k & Hrun & H1 & H2).
    exists g, k. auto.
  - destruct (generateUA_ok platform_ w Hw)
      as (ua & k & Hrun & q & os & ma & bu & pa & _ & _ & Hr & ->).
    exists (ua_string os ma bu pa), k, os, ma, bu, pa. auto.
  - destruct (getDefaultCanvasConfig_ok w Hw) as (c & k & Hrun & _ & _ & Hs).
    exists c, k. auto.
  - destruct (getDefaultWebGLConfig_ok platform_ w Hw) as (c & k & Hrun & _ & Hs & Hg).
    exists c, k. auto.
  - destruct (generateRandomHardware_ok platform_ w Hw) as (h & k & Hrun & Hh & _).
    exists h, k. auto.
  - destruct (getDefaultHardwareConfig_ok platform_ w Hw) as (c & k & Hrun & _ & Hs & Hh & _).
    exists c, k. auto.
Qed.

Lemma generators_never_fail_witness :
  exists g k,
    generateRandomGPU mac (world_with zero_draws "u" "d")
      = Some (g, advance k (world_with zero_draws "u" "d")) /\
    g ∈ GPU_CONFIGS /\ g ∈ GPU_for GPU_CONFIGS mac.
Proof.
  apply (generators_never_fail mac (world_with zero_draws "u" "d")).
  intros i. reflexivity.
Defined.

(** ** Fingerprint regeneration *)

Lemma update_found profileId updates config w :
  config_files w !! profileId = Some config ->
  ProfileManager.update profileId updates w =
    Some (Some (merge_updates config updates (Date_tape w (Date_calls w))),
          mkWorld (Math_random_tape w) (Math_random_calls w) (uuid_tape w) (uuid_calls w)
            (Date_tape w) (S (Date_calls w))
            (<[profileId := merge_updates config updates (Date_tape w (Date_calls w))]>
               (config_files w))).
Proof.
  intros Hlook.
  unfold ProfileManager.update, ProfileManager.get, read_config, bind.
  rewrite Hlook. reflexivity.
Qed.

Lemma merge_fingerprint_updates config f now :
  merge_updates config (fingerprint_updates f) now = regenerated config f now.
Proof. reflexivity. Qed.

Lemma regenerateFingerprint_unfold profileId w :
  ProfileManager.regenerateFingerprint profileId w =
    match config_files w !! profileId with
    | None => Some (None, w)
    | Some config =>
        match generate_fingerprint (platform config) w with
        | Some (f, w') => ProfileManager.update profileId (fingerprint_updates f) w'
        | None => None
        end
    end.
Proof.
  unfold ProfileManager.regenerateFingerprint, ProfileManager.get, read_config,
    generate_fingerprint, bind, ret.
  destruct (config_files w !! profileId) as [config|]; [|reflexivity].
  destruct (generateUA (platform config) w) as [[ua wa]|]; [|reflexivity].
  destruct (getDefaultCanvasConfig wa) as [[c wb]|]; [|reflexivity].
  destruct (getDefaultWebGLConfig random wb) as [[g wc]|]; [|reflexivity].
  destruct (getDefaultHardwareConfig random wc) as [[h wd]|]; reflexivity.
Qed.

(** C9. For a profile on disk, [regenerateFingerprint] runs the four
    generators (the user agent for the profile's own platform choice) and
    writes and returns the old record with all four attribute sets replaced
    by the generated ones and [lastUsed] set to the current date; [id],
    [name], [platform], [createdAt] and [proxy] are kept, and no other
    profile is touched. For an id with no profile it returns [null] and
    leaves the world as it was. *)
Theorem regenerateFingerprint_replaces_all (profileId : string) (w : World) :
  match config_files w !! profileId with
  | None => ProfileManager.regenerateFingerprint profileId w = Some (None, w)
  | Some config =>
      random_in_range w ->
      exists f k,
        generate_fingerprint (platform config) w = Some (f, advance k w) /\
        let updated := regenerated config f (Date_tape w (Date_calls w)) in
        ProfileManager.regenerateFingerprint profileId w =
          Some (Some updated,
                mkWorld (Math_random_tape w) (k + Math_random_calls w)
                  (uuid_tape w) (uuid_calls w) (Date_tape w) (S (Date_calls w))
                  (<[profileId := updated]> (config_files w)))
  end.
Proof.
  rewrite regenerateFingerprint_unfold.
  destruct (config_files w !! profileId) as [config|] eqn:Hlook; [|reflexivity].
  intros Hw.
  destruct (generate_fingerprint_ok (platform config) w Hw) as (f & k & Hrun & _).
  exists f, k. split; [assumption|]. cbv zeta.
  rewrite Hrun, (update_found profileId _ config (advance k w) Hlook).
  rewrite merge_fingerprint_updates. reflexivity.
Qed.

Lemma regenerateFingerprint_replaces_all_witness :
  random_in_range sample_world /\
  exists updated w',
    ProfileManager.regenerateFingerprint "id-1" sample_world = Some (Some updated, w') /\
    id updated = "id-1" /\ name updated = "account1" /\ platform updated = linux /\
    createdAt updated = "2024-01-01T00:00:00.000Z" /\
    proxy updated = proxy sample_profile /\
    userAgent updated <> "old-agent" /\ canvas_seed (canvas updated) <> "old" /\
    webgl_seed (webgl updated) <> "old" /\ hw_seed (hardware updated) <> "old".
Proof.
  assert (Hw : random_in_range sample_world) by (intros i; reflexivity).
  split; [exact Hw|].
  pose proof (regenerateFingerprint_replaces_all "id-1" sample_world) as H.
  assert (Hl : config_files sample_world !! "id-1" = Some sample_profile)
    by (vm_compute; reflexivity).
  rewrite Hl in H. destruct (H Hw) as (f & k & Hf & Hrun).
  cbv zeta in Hrun. eexists _, _. split; [exact Hrun|].
  unfold regenerated. cbn [id name platform createdAt proxy userAgent canvas webgl hardware].
  vm_compute in Hf. injection Hf as <- _.
  repeat split; discriminate.
Defined.

(** ** Page scripts *)

Section PageProperties.

Variable Math_sin : number -> number.
Variable serialize_bitmap : Z -> Z -> list Z -> list string -> string.
Variable native_query : Receiver -> PermissionDescriptor -> Promise PermissionStatus.

Lemma round_half_even_nonneg m e : 0 <= round_half_even m e.
Proof.
  unfold round_half_even. destruct (0 <=? e) eqn:He.
  - apply Z.leb_le in He. apply Z.mul_nonneg_nonneg; [lia|apply Z.pow_nonneg; lia].
  - apply Z.leb_gt in He.
    assert (0 < 2 ^ (- e)) by (apply Z.pow_pos_nonneg; lia).
    assert (0 <= Zpos m / 2 ^ (- e)) by (apply Z.div_pos; lia).
    cbv zeta. repeat destruct (_ <? _); try destruct (Z.even _); lia.
Qed.

Lemma ToUint8Clamp_range x : 0 <= ToUint8Clamp x <= 255.
Proof.
  destruct x as [s|s| |s m e]; cbn [ToUint8Clamp]; try lia.
  - destruct s; lia.
  - destruct s; [lia|]. pose proof (round_half_even_nonneg m e). lia.
Qed.

(** The inner loop writes clamped bytes at the positions [i + j], ...,
    [i + j + n - 1] that exist, and nothing else. *)
Lemma addNoise_channels_spec config n i j hash data :
  let out := snd (addNoise_channels Math_sin config n i j hash data) in
  length out = length data /\
  (forall p, (p < i + j \/ i + j + n <= p)%nat -> out !! p = data !! p) /\
  (forall p b, (i + j <= p < i + j + n)%nat -> out !! p = Some b -> 0 <= b <= 255).
Proof.
  revert j hash data. induction n as [|n IH]; intros j hash data; cbn [addNoise_channels].
  - cbn [snd]. split; [reflexivity|]. split; [reflexivity|]. intros; lia.
  - destruct (seededRandom_next Math_sin hash) as [r hash'].
    set (v := ToUint8Clamp _).
    specialize (IH (S j) hash' (<[(i + j)%nat := v]> data)).
    cbv zeta in IH |- *. destruct IH as (Hlen & Hout & Hin).
    rewrite length_insert in Hlen.
    split; [assumption|]. split.
    + intros p Hp. rewrite Hout by lia. apply list_lookup_insert_ne. lia.
    + intros p b Hp Hb. destruct (decide (p = i + j)%nat) as [->|Hne].
      * rewrite Hout in Hb by lia.
        destruct (decide (i + j < length data)%nat) as [Hlt|Hge].
        -- rewrite list_lookup_insert_eq in Hb by assumption.
           injection Hb as <-. apply ToUint8Clamp_range.
        -- rewrite list_insert_ge in Hb by lia.
           apply lookup_lt_Some in Hb. lia.
      * apply (Hin p b); [lia|assumption].
Qed.

(** The outer loop, started at a multiple of four. *)
Lemma addNoise_pixels_spec config n t hash data :
  let out := addNoise_pixels Math_sin config n (4 * t) hash data in
  length out = length data /\
  (forall p, (p mod 4 = 3 \/ p < 4 * t \/ 4 * t + 4 * n <= p)%nat ->
             out !! p = data !! p) /\
  (forall p b, (4 * t <= p < 4 * t + 4 * n)%nat -> (p mod 4 <> 3)%nat ->
               out !! p = Some b -> 0 <= b <= 255).
Proof.
  revert t hash data. induction n as [|n IH]; intros t hash data; cbn [addNoise_pixels].
  - split; [reflexivity|]. split; [reflexivity|]. intros; lia.
  - pose proof (addNoise_channels_spec config 3 (4 * t) 0 hash data) as Hc.
    destruct (addNoise_channels Math_sin config 3 (4 * t) 0 hash data) as [hash' data'].
    cbn [snd] in Hc. cbv zeta in Hc. destruct Hc as (Hlen1 & Hout1 & Hin1).
    replace (4 * t + 4)%nat with (4 * S t)%nat by lia.
    specialize (IH (S t) hash' data'). cbv zeta in IH |- *.
    destruct IH as (Hlen & Hout & Hin).
    split; [congruence|]. split.
    + intros p Hp.
      assert (Hp1 : (p < 4 * t + 0 \/ 4 * t + 0 + 3 <= p)%nat).
      { destruct Hp as [Hp|Hp]; [|lia].
        destruct (decide (p < 4 * t)%nat); [lia|]. right.
        destruct (decide (4 * t + 3 <= p)%nat); [lia|exfalso].
        assert (p = 4 * t \/ p = 4 * t + 1 \/ p = 4 * t + 2)%nat as [ -> | [ -> | -> ] ] by lia.
        - rewrite Nat.mul_comm, Nat.Div0.mod_mul in Hp. discriminate.
        - rewrite Nat.add_comm, Nat.mul_comm, Nat.Div0.mod_add in Hp. discriminate.
        - rewrite Nat.add_comm, Nat.mul_comm, Nat.Div0.mod_add in Hp. discriminate. }
      rewrite Hout by lia. apply Hout1, Hp1.
    + intros p b Hp Hmod Hb.
      destruct (decide (p < 4 * S t)%nat) as [Hlt|Hge].
      * rewrite Hout in Hb by lia.
        apply (Hin1 p b); [|assumption].
        assert (p <> 4 * t + 3)%nat; [|lia].
        intros ->. apply Hmod.
        now rewrite Nat.add_comm, Nat.mul_comm, Nat.Div0.mod_add.
      * apply (Hin p b); [lia|assumption|assumption].
Qed.

(** C10. [addNoise] returns an array of the same length, whose alpha bytes
    (every fourth one) are those of the input and whose red, green and
    blue bytes lie in [0, 255], for every input array, noise level and
    seed. *)
Theorem addNoise_bounds (config : CanvasNoiseConfig) (data : list Z) :
  let out := addNoise Math_sin config data in
  length out = length data /\
  (forall i, (i mod 4 = 3)%nat -> out !! i = data !! i) /\
  (forall i b, (i mod 4 <> 3)%nat -> out !! i = Some b -> 0 <= b <= 255).
Proof.
  unfold addNoise. cbv zeta.
  set (hash := Z2F _). set (n := ((length data + 3) / 4)%nat).
  pose proof (addNoise_pixels_spec config n 0 hash data) as H.
  change (4 * 0)%nat with 0%nat in H. cbv zeta in H.
  destruct H as (Hlen & Hout & Hin).
  split; [assumption|]. split.
  - intros i Hi. apply Hout. auto.
  - intros i b Hi Hb. apply (Hin i b); [|assumption|assumption].
    apply lookup_lt_Some in Hb. rewrite Hlen in Hb.
    pose proof (Nat.div_mod_eq (length data + 3) 4).
    pose proof (Nat.mod_upper_bound (length data + 3) 4). subst n. lia.
Qed.

Lemma putImageData_restore c data : putImageData (putImageData c data) (bitmap c) = c.
Proof. destruct c; reflexivity. Qed.

(** One call of the function that the canvas script installs over the
    browser's own [toDataURL] and [getImageData]. *)
Lemma call_noised_toDataURL config c args :
  call_toDataURL Math_sin serialize_bitmap
    (toDataURL_noise config toDataURL_native getImageData_native) c args =
    (if canvas_enabled config && has_2d_context c && readable c
     then native_toDataURL serialize_bitmap
            (putImageData c (addNoise Math_sin config (bitmap c))) args
     else native_toDataURL serialize_bitmap c args,
     c).
Proof.
  cbn [call_toDataURL call_getImageData].
  destruct (canvas_enabled config); cbn [negb andb]; [|reflexivity].
  destruct (has_2d_context c); cbn [andb]; [|reflexivity].
  unfold native_getImageData. destruct (readable c) eqn:Hr; [|reflexivity].
  assert (Hoc : origin_clean c = true).
  { unfold readable in Hr. destruct (origin_clean c); [reflexivity|discriminate]. }
  unfold native_toDataURL at 1. cbn [putImageData origin_clean]. rewrite Hoc.
  cbv zeta. rewrite putImageData_restore.
  unfold native_toDataURL. cbn [putImageData origin_clean]. now rewrite Hoc.
Qed.

(** C3. In a document whose [toDataURL] and [getImageData] are the
    browser's own when the canvas script is installed, two successive
    calls of the installed [toDataURL] on a canvas return the same result,
    and each call leaves the canvas (its size, its flags and its pixel
    buffer) as it found it. When noise is enabled and the canvas has a
    readable 2d context, that result is the serialisation of the noised
    pixels. *)
Theorem toDataURL_round_trip (config : CanvasNoiseConfig) (d : Document)
    (c : Canvas) (args : list string) :
  __canvasNoiseApplied d = false ->
  HTMLCanvasElement_toDataURL d = toDataURL_native ->
  CanvasRenderingContext2D_getImageData d = getImageData_native ->
  let toDataURL := HTMLCanvasElement_toDataURL (canvas_payload config d) in
  let '(result1, c1) := call_toDataURL Math_sin serialize_bitmap toDataURL c args in
  let '(result2, c2) := call_toDataURL Math_sin serialize_bitmap toDataURL c1 args in
  result1 = result2 /\ c1 = c /\ c2 = c /\ bitmap c1 = bitmap c /\
  (canvas_enabled config = true -> has_2d_context c = true -> readable c = true ->
   result1 = native_toDataURL serialize_bitmap
               (putImageData c (addNoise Math_sin config (bitmap c))) args).
Proof.
  intros Hmark Htd Hgid. unfold canvas_payload. rewrite Hmark, Htd, Hgid.
  cbn [HTMLCanvasElement_toDataURL]. cbv zeta.
  rewrite call_noised_toDataURL. rewrite call_noised_toDataURL.
  repeat split. intros -> -> ->. reflexivity.
Qed.

Lemma canvas_payload_marked config d :
  __canvasNoiseApplied d = true -> canvas_payload config d = d.
Proof. intros H. unfold canvas_payload. now rewrite H. Qed.

Lemma webgl_payload_marked config d :
  __webglSpoofApplied d = true -> webgl_payload config d = d.
Proof. intros H. unfold webgl_payload. now rewrite H. Qed.

Lemma hardware_payload_marked config d :
  __hardwareSpoofApplied d = true -> hardware_payload config d = d.
Proof. intros H. unfold hardware_payload. now rewrite H. Qed.

Lemma canvas_payload_markers config d :
  __canvasNoiseApplied (canvas_payload config d) = true /\
  __webglSpoofApplied (canvas_payload config d) = __webglSpoofApplied d /\
  __hardwareSpoofApplied (canvas_payload config d) = __hardwareSpoofApplied d.
Proof.
  unfold canvas_payload. destruct (__canvasNoiseApplied d) eqn:H; auto.
Qed.

Lemma webgl_payload_markers config d :
  __webglSpoofApplied (webgl_payload config d) = true /\
  __canvasNoiseApplied (webgl_payload config d) = __canvasNoiseApplied d /\
  __hardwareSpoofApplied (webgl_payload config d) = __hardwareSpoofApplied d.
Proof.
  unfold webgl_payload. destruct (__webglSpoofApplied d) eqn:H; auto.
Qed.

Lemma hardware_payload_markers config d :
  __hardwareSpoofApplied (hardware_payload config d) = true /\
  __canvasNoiseApplied (hardware_payload config d) = __canvasNoiseApplied d /\
  __webglSpoofApplied (hardware_payload config d) = __webglSpoofApplied d.
Proof.
  unfold hardware_payload. destruct (__hardwareSpoofApplied d) eqn:H; auto.
  destruct (negb (hw_enabled config)); auto.
Qed.

(** C5. Each payload returns the document unchanged when its marker is
    set, and sets its marker when it runs; so a second installation, with
    the same or another configuration, changes nothing, for the three
    payloads and for the combined script. *)
Theorem payloads_idempotent (d : Document)
    (canvas1 canvas2 : CanvasNoiseConfig) (webgl1 webgl2 : WebGLConfig)
    (hardware1 hardware2 : HardwareConfig) (profile1 profile2 : ProfileConfig) :
  canvas_payload canvas2 (canvas_payload canvas1 d) = canvas_payload canvas1 d /\
  webgl_payload webgl2 (webgl_payload webgl1 d) = webgl_payload webgl1 d /\
  hardware_payload hardware2 (hardware_payload hardware1 d) = hardware_payload hardware1 d /\
  injection_script profile2 (injection_script profile1 d) = injection_script profile1 d /\
  __canvasNoiseApplied (canvas_payload canvas1 d) = true /\
  __webglSpoofApplied (webgl_payload webgl1 d) = true /\
  __hardwareSpoofApplied (hardware_payload hardware1 d) = true.
Proof.
  pose proof (canvas_payload_markers canvas1 d) as (Hc & _ & _).
  pose proof (webgl_payload_markers webgl1 d) as (Hw & _ & _).
  pose proof (hardware_payload_markers hardware1 d) as (Hh & _ & _).
  repeat split; try assumption.
  - now apply canvas_payload_marked.
  - now apply webgl_payload_marked.
  - now apply hardware_payload_marked.
  - unfold injection_script.
    set (d1 := canvas_payload (canvas profile1) d).
    set (d2 := webgl_payload (webgl profile1) d1).
    set (d3 := hardware_payload (hardware profile1) d2).
    pose proof (canvas_payload_markers (canvas profile1) d) as (Hc1 & _ & _).
    pose proof (webgl_payload_markers (webgl profile1) d1) as (Hw2 & Hc2 & _).
    pose proof (hardware_payload_markers (hardware profile1) d2) as (Hh3 & Hc3 & Hw3).
    fold d1 in Hc1. fold d2 in Hw2, Hc2. fold d3 in Hh3, Hc3, Hw3.
    rewrite (canvas_payload_marked _ d3) by congruence.
    rewrite (webgl_payload_marked _ d3) by congruence.
    now apply hardware_payload_marked.
Qed.

(** The first installation is not a no-op. *)
Lemma payloads_change_fresh_document canvas_ webgl_ hardware_ :
  canvas_payload canvas_ fresh_document <> fresh_document /\
  webgl_payload webgl_ fresh_document <> fresh_document /\
  hardware_payload hardware_ fresh_document <> fresh_document.
Proof.
  repeat split; intros H.
  - apply (f_equal __canvasNoiseApplied) in H. discriminate.
  - apply (f_equal __webglSpoofApplied) in H. discriminate.
  - apply (f_equal __hardwareSpoofApplied) in H.
    rewrite (proj1 (hardware_payload_markers hardware_ fresh_document)) in H.
    discriminate.
Qed.

Lemma call_query_mock originalQuery this parameters :
  call_query native_query (query_mock originalQuery) this parameters =
    if String.eqb (perm_name parameters) "notifications"
    then Resolved {| perm_state := "denied" |}
    else call_query native_query originalQuery this_undefined parameters.
Proof. reflexivity. Qed.

Lemma hideAutomationIndicators_query d d' :
  hideAutomationIndicators d = Some d' ->
  navigator_permissions_query d' = query_mock (navigator_permissions_query d).
Proof.
  unfold hideAutomationIndicators.
  destruct (defineProperty (navigator_props d) _ _) as [n1|]; [|discriminate].
  destruct (defineProperty n1 _ _) as [n2|]; [|discriminate].
  intros [= <-]. reflexivity.
Qed.

Lemma defineProperty_redefinable obj prop v :
  redefinable obj prop = true ->
  defineProperty obj prop v =
    Some (<[prop := {| prop_get := v; prop_configurable := true |}]> obj).
Proof.
  unfold redefinable, defineProperty.
  destruct (obj !! prop) as [p|]; [|reflexivity]. now intros ->.
Qed.

Lemma redefinable_insert obj prop prop' v :
  redefinable obj prop = true ->
  redefinable (<[prop' := {| prop_get := v; prop_configurable := true |}]> obj) prop
    = true.
Proof.
  unfold redefinable. intros H.
  destruct (decide (prop' = prop)) as [->|Hne].
  - now rewrite lookup_insert_eq.
  - now rewrite lookup_insert_ne.
Qed.

(** One run of [hideAutomationIndicators] completes where [navigator]'s
    [plugins] and [mimeTypes] can be defined, wraps the current
    [permissions.query], and leaves both properties definable. *)
Lemma hideAutomationIndicators_runs d :
  redefinable (navigator_props d) "plugins" = true ->
  redefinable (navigator_props d) "mimeTypes" = true ->
  exists d',
    hideAutomationIndicators d = Some d' /\
    navigator_permissions_query d' = query_mock (navigator_permissions_query d) /\
    redefinable (navigator_props d') "plugins" = true /\
    redefinable (navigator_props d') "mimeTypes" = true.
Proof.
  intros Hp Hm. unfold hideAutomationIndicators.
  rewrite (defineProperty_redefinable _ _ _ Hp).
  rewrite defineProperty_redefinable by now apply redefinable_insert.
  eexists. split; [reflexivity|]. cbn [navigator_permissions_query navigator_props].
  split; [reflexivity|].
  split; repeat apply redefinable_insert; assumption.
Qed.

(** [n] runs in the same document wrap the query function [n] times. *)
Lemma hide_n_runs n d :
  redefinable (navigator_props d) "plugins" = true ->
  redefinable (navigator_props d) "mimeTypes" = true ->
  exists d',
    hide_n n d = Some d' /\
    navigator_permissions_query d' = Nat.iter n query_mock (navigator_permissions_query d).
Proof.
  revert d. induction n as [|n IH]; intros d Hp Hm.
  - exists d. split; reflexivity.
  - destruct (hideAutomationIndicators_runs d Hp Hm) as (d1 & Hrun & Hq & Hp1 & Hm1).
    destruct (IH d1 Hp1 Hm1) as (d' & Hrun' & Hq').
    exists d'. cbn [hide_n]. rewrite Hrun. split; [assumption|].
    rewrite Hq', Hq. symmetry. apply Nat.iter_succ_r.
Qed.

(** A call through any positive number of wrappers. *)
Lemma call_query_wrapped n this parameters :
  call_query native_query (Nat.iter (S n) query_mock query_native) this parameters =
    if String.eqb (perm_name parameters) "notifications"
    then Resolved {| perm_state := "denied" |}
    else native_query this_undefined parameters.
Proof.
  revert this. induction n as [|n IH]; intros this.
  - reflexivity.
  - change (Nat.iter (S (S n)) query_mock query_native)
      with (query_mock (Nat.iter (S n) query_mock query_native)).
    cbn [call_query]. rewrite IH.
    now destruct (String.eqb _ _).
Qed.

(** Where [navigator.permissions.query] is the browser's own function
    and [navigator]'s [plugins] and [mimeTypes] can be defined, one or
    more runs of [hideAutomationIndicators] complete, and afterwards a
    query named [notifications] resolves to the state [denied], while a
    query of any other name returns what the browser's function returns
    for the same descriptor, called as a plain function (without a
    receiver). *)
Theorem permissions_query_override (n : nat) (d : Document) :
  navigator_permissions_query d = query_native ->
  redefinable (navigator_props d) "plugins" = true ->
  redefinable (navigator_props d) "mimeTypes" = true ->
  exists d',
    hide_n (S n) d = Some d' /\
    forall parameters,
      (perm_name parameters = "notifications" ->
       permissions_query native_query d' parameters
         = Resolved {| perm_state := "denied" |}) /\
      (perm_name parameters <> "notifications" ->
       permissions_query native_query d' parameters
         = native_query this_undefined parameters).
Proof.
  intros Hq Hp Hm.
  destruct (hide_n_runs (S n) d Hp Hm) as (d' & Hrun & Hq').
  exists d'. split; [assumption|]. intros parameters.
  unfold permissions_query. rewrite Hq', Hq, call_query_wrapped.
  split; intros H.
  - now rewrite H.
  - apply String.eqb_neq in H. now rewrite H.
Qed.

End PageProperties.

Lemma toDataURL_round_trip_witness :
  let toDataURL :=
    HTMLCanvasElement_toDataURL (canvas_payload sample_canvas_config fresh_document) in
  let '(result1, c1) :=
    call_toDataURL sample_sin sample_serialize toDataURL sample_canvas [] in
  let '(result2, c2) := call_toDataURL sample_sin sample_serialize toDataURL c1 [] in
  result1 = result2 /\ c1 = sample_canvas /\ c2 = sample_canvas /\
  bitmap c1 = bitmap sample_canvas /\
  (canvas_enabled sample_canvas_config = true -> has_2d_context sample_canvas = true ->
   readable sample_canvas = true ->
   result1 = native_toDataURL sample_serialize
               (putImageData sample_canvas
                  (addNoise sample_sin sample_canvas_config (bitmap sample_canvas))) []).
Proof.
  apply (toDataURL_round_trip sample_sin sample_serialize sample_canvas_config
           fresh_document sample_canvas []); reflexivity.
Defined.

Lemma permissions_query_override_witness :
  exists d',
    hide_n 2 fresh_document = Some d' /\
    forall parameters,
      (perm_name parameters = "notifications" ->
       permissions_query sample_native_query d' parameters
         = Resolved {| perm_state := "denied" |}) /\
      (perm_name parameters <> "notifications" ->
       permissions_query sample_native_query d' parameters
         = sample_native_query this_undefined parameters).
Proof.
  apply (permissions_query_override sample_native_query 1 fresh_document); reflexivity.
Defined.

(** C8, at the failing input. The mock answers a query named
    [notifications] itself, but it forwards any other query by the plain
    call [originalQuery(parameters)], so the browser's function runs
    without its receiver [navigator.permissions]. For a browser function
    that rejects such a call, as [sample_native_query] does, after one run
    of [hideAutomationIndicators] on a fresh page a query named
    [notifications] resolves to [denied], and a query named [geolocation]
    is rejected with a [TypeError], where the same query through the
    browser's function as the page finds it resolves to [prompt]: the
    forwarded query does not return what the original returns. *)
Lemma permissions_query_receiver_lost :
  exists d',
    hideAutomationIndicators fresh_document = Some d' /\
    permissions_query sample_native_query d' {| perm_name := "notifications" |}
      = Resolved {| perm_state := "denied" |} /\
    permissions_query sample_native_query fresh_document {| perm_name := "geolocation" |}
      = Resolved {| perm_state := "prompt" |} /\
    permissions_query sample_native_query d' {| perm_name := "geolocation" |}
      = Rejected "TypeError: Illegal invocation".
Proof. eexists. repeat split. Qed.

(** ** Further properties *)

(** ** Exact sums and differences of integers in binary64 *)

Lemma digits2_pos_unique p d :
  2 ^ (d - 1) <= Zpos p < 2 ^ d -> 1 <= d -> Zpos (digits2_pos p) = d.
Proof.
  intros [Hlo Hhi] Hd. pose proof (digits2_pos_bounds p) as [Glo Ghi].
  assert (H1 : d - 1 < Zpos (digits2_pos p)) by (apply pow2_lt_inv; lia).
  assert (H2 : Zpos (digits2_pos p) - 1 < d) by (apply pow2_lt_inv; lia).
  lia.
Qed.

Lemma digits2_pos_scaled p M k :
  0 <= k -> Zpos M = Zpos p * 2 ^ k ->
  Zpos (digits2_pos M) = Zpos (digits2_pos p) + k.
Proof.
  intros Hk HM. pose proof (digits2_pos_bounds p) as [Glo Ghi].
  apply digits2_pos_unique; [|lia].
  replace (Zpos (digits2_pos p) + k - 1) with (Zpos (digits2_pos p) - 1 + k) by lia.
  rewrite !pow2_split by lia. rewrite HM.
  assert (0 < 2 ^ k) by (apply Z.pow_pos_nonneg; lia). nia.
Qed.

Lemma digits_below_53 p : Zpos p < 2 ^ 53 -> 1 <= Zpos (digits2_pos p) <= 53.
Proof.
  intros Hp. pose proof (digits2_pos_bounds p) as [Hlo Hhi]. split; [lia|].
  destruct (Z.le_gt_cases (Zpos (digits2_pos p)) 53) as [|Hgt]; [assumption|exfalso].
  assert (2 ^ 53 <= 2 ^ (Zpos (digits2_pos p) - 1)) by (apply Z.pow_le_mono_r; lia). lia.
Qed.

(** Rounding an integer [p] below 2^53 given at a scale [2^k]: the result
    is the mantissa of 53 digits at the exponent [digits p - 53]. *)
Lemma binary_round_scaled p M k :
  Zpos p < 2 ^ 53 -> 0 <= k <= 1000 -> Zpos M = Zpos p * 2 ^ k ->
  exists m, Zpos m = Zpos p * 2 ^ (53 - Zpos (digits2_pos p)) /\
    binary_round prec emax false M (- k)
      = S754_finite false m (Zpos (digits2_pos p) - 53).
Proof.
  intros Hp Hk HM.
  pose proof (digits_below_53 p Hp) as Hd.
  pose proof (digits2_pos_scaled p M k (proj1 Hk) HM) as HdM.
  set (d := Zpos (digits2_pos p)) in *.
  assert (Hpow : 0 < 2 ^ (53 - d)) by (apply Z.pow_pos_nonneg; lia).
  unfold binary_round, shl_align, fexp, SpecFloat.emin, prec, emax.
  rewrite HdM.
  replace ((d + k + - k - 53) `max` (3 - 1024 - 53) - - k) with (d - 53 + k) by lia.
  replace ((d + k + - k - 53) `max` (3 - 1024 - 53)) with (d - 53) by lia.
  destruct (d - 53 + k) as [|q|q] eqn:Hq; cbv beta iota zeta.
  - (* the mantissa has 53 digits already *)
    exists M. split; [rewrite HM; replace (53 - d) with k by lia; reflexivity|].
    change (binary_round_aux 53 1024) with (binary_round_aux prec emax).
    rewrite binary_round_aux_exact by lia. f_equal. lia.
  - (* more than 53 digits: the low digits are zeros *)
    change (binary_round_aux 53 1024) with (binary_round_aux prec emax).
    destruct (binary_round_aux_spec M (- k)) as (mr & Hlo & Hhi & Hres).
    cbv zeta in Hres. rewrite Hres. clear Hres.
    unfold fexp, SpecFloat.emin, prec, emax in *. cbn [Zdigits2] in *. rewrite HdM in *.
    replace (0 `max` ((d + k + - k - 53) `max` (3 - 1024 - 53) - - k))
      with (Zpos q) in * by lia.
    assert (Hk1 : 0 < 2 ^ Zpos q) by (apply Z.pow_pos_nonneg; lia).
    assert (HM' : Zpos M = (Zpos p * 2 ^ (53 - d)) * 2 ^ Zpos q).
    { rewrite HM, <- Z.mul_assoc, <- pow2_split by lia. do 2 f_equal. lia. }
    assert (Hhalf : 2 ^ Zpos q / 2 < 2 ^ Zpos q) by (apply Z.div_lt; lia).
    rewrite HM', Z.div_mul in Hlo by lia.
    assert (Hmr : mr = Zpos p * 2 ^ (53 - d)) by nia.
    assert (Hmrpos : 0 < mr) by (rewrite Hmr; lia).
    destruct mr as [|m|m]; try lia.
    assert (Hdm : Zpos (digits2_pos m) = 53).
    { rewrite (digits2_pos_scaled p m (53 - d)) by lia. fold d. lia. }
    cbn [Zdigits2]. rewrite Hdm.
    replace (0 `max` ((53 + (- k + Zpos q) - 53) `max` (3 - 1024 - 53) - (- k + Zpos q)))
      with 0 by lia.
    change (2 ^ 0) with 1. rewrite Z.div_1_r.
    replace (- k + Zpos q + 0) with (d - 53) by lia.
    replace (d - 53 <=? 1024 - 53) with true by (symmetry; apply Z.leb_le; lia).
    exists m. split; [assumption|reflexivity].
  - (* fewer than 53 digits: shift left *)
    exists (Pos.iter xO M q). split.
    + rewrite iter_xO_Z, HM, <- Z.mul_assoc, <- pow2_split by lia. do 2 f_equal. lia.
    + change (binary_round_aux 53 1024) with (binary_round_aux prec emax).
      rewrite binary_round_aux_exact; [reflexivity| |lia].
      rewrite iter_xO_digits, HdM. lia.
Qed.

Lemma binary_normalize_scaled n k :
  0 <= n < 2 ^ 53 -> 0 <= k <= 1000 ->
  binary_normalize prec emax (n * 2 ^ k) (- k) false = Z2F n.
Proof.
  intros Hn Hk. destruct n as [|p|p]; try lia.
  - reflexivity.
  - assert (Hpow : 0 < 2 ^ k) by (apply Z.pow_pos_nonneg; lia).
    destruct (Zpos p * 2 ^ k) as [|M|M] eqn:HM; try lia.
    unfold Z2F, binary_normalize.
    destruct (binary_round_scaled p M k) as (m & Hm & ->); [lia|lia|lia|].
    destruct (binary_round_scaled p p 0) as (m' & Hm' & H'); [lia|lia|simpl; lia|].
    change (- 0) with 0 in H'. rewrite H'. f_equal. lia.
Qed.

Lemma shl_align_fst_Z m e ez :
  ez <= e -> Zpos (fst (shl_align m e ez)) = Zpos m * 2 ^ (e - ez).
Proof.
  intros H. unfold shl_align. destruct (ez - e) as [|q|q] eqn:Hq; try lia; cbn [fst].
  - replace (e - ez) with 0 by lia. simpl. lia.
  - rewrite iter_xO_Z. f_equal. f_equal. lia.
Qed.

(** The finite sum and difference of two integer doubles. *)
Lemma SFadd_finite_Z2F (sub : bool) a b ma ea mb eb :
  0 <= a -> 0 <= b -> -52 <= ea <= 0 -> -52 <= eb <= 0 ->
  Zpos ma = a * 2 ^ (- ea) -> Zpos mb = b * 2 ^ (- eb) ->
  0 <= (if sub then a - b else a + b) < 2 ^ 53 ->
  (if sub then SF64sub else SF64add) (S754_finite false ma ea) (S754_finite false mb eb)
    = Z2F (if sub then a - b else a + b).
Proof.
  intros Ha Hb Hea Heb Hma Hmb Hr.
  set (ez := Z.min ea eb).
  assert (Hez : -52 <= ez <= 0 /\ ez <= ea /\ ez <= eb) by (subst ez; lia).
  assert (Ea : Zpos (fst (shl_align ma ea ez)) = a * 2 ^ (- ez)).
  { rewrite shl_align_fst_Z, Hma, <- Z.mul_assoc, <- pow2_split by lia.
    do 2 f_equal. lia. }
  assert (Eb : Zpos (fst (shl_align mb eb ez)) = b * 2 ^ (- ez)).
  { rewrite shl_align_fst_Z, Hmb, <- Z.mul_assoc, <- pow2_split by lia.
    do 2 f_equal. lia. }
  destruct sub.
  - unfold SF64sub, SFsub. cbv zeta. fold ez. cbn [cond_Zopp]. rewrite Ea, Eb.
    rewrite <- Z.mul_sub_distr_r.
    rewrite <- (binary_normalize_scaled (a - b) (- ez)) by lia.
    f_equal. lia.
  - unfold SF64add, SFadd. cbv zeta. fold ez. cbn [cond_Zopp]. rewrite Ea, Eb.
    rewrite <- Z.mul_add_distr_r.
    rewrite <- (binary_normalize_scaled (a + b) (- ez)) by lia.
    f_equal. lia.
Qed.

Lemma Z2F_0 : Z2F 0 = S754_zero false.
Proof. reflexivity. Qed.

Lemma SF64add_Z2F a b :
  0 <= a -> 0 <= b -> a + b < 2 ^ 53 -> SF64add (Z2F a) (Z2F b) = Z2F (a + b).
Proof.
  intros Ha Hb Hab.
  destruct (Z.eq_dec a 0) as [->|Ha0].
  - rewrite Z2F_0. rewrite Z.add_0_l. destruct (Z.eq_dec b 0) as [->|Hb0]; [reflexivity|].
    destruct (Z2F_form b) as (mb & eb & -> & _); [lia|reflexivity].
  - destruct (Z2F_form a) as (ma & ea & Hfa & Hea & Hma); [lia|].
    destruct (Z.eq_dec b 0) as [->|Hb0].
    + rewrite Z2F_0, Z.add_0_r, Hfa. reflexivity.
    + destruct (Z2F_form b) as (mb & eb & Hfb & Heb & Hmb); [lia|].
      rewrite Hfa, Hfb.
      apply (SFadd_finite_Z2F false a b ma ea mb eb); auto; lia.
Qed.

Lemma SF64sub_Z2F a b :
  0 <= b <= a -> a < 2 ^ 53 -> SF64sub (Z2F a) (Z2F b) = Z2F (a - b).
Proof.
  intros Hab Ha.
  destruct (Z.eq_dec b 0) as [->|Hb0].
  - rewrite Z2F_0, Z.sub_0_r. destruct (Z.eq_dec a 0) as [->|Ha0]; [reflexivity|].
    destruct (Z2F_form a) as (ma & ea & -> & _); [lia|reflexivity].
  - destruct (Z2F_form a) as (ma & ea & Hfa & Hea & Hma); [lia|].
    destruct (Z2F_form b) as (mb & eb & Hfb & Heb & Hmb); [lia|].
    rewrite Hfa, Hfb.
    apply (SFadd_finite_Z2F true a b ma ea mb eb); auto; lia.
Qed.

(** X2. For integers [0 <= min <= max] below 2^53 that span at most 2^31
    values, with the next draw in [0, 1), [randomInt(min, max)] reads that
    one draw and returns an integer between [min] and [max], both
    included; every step of [Math.floor(r * (max - min + 1)) + min] is
    exact in binary64. *)
Theorem randomInt_in_range (min max : Z) (w : World) :
  is_unit_draw (Math_random_tape w (Math_random_calls w)) = true ->
  0 <= min <= max -> max < 2 ^ 53 -> max - min + 1 <= 2 ^ 31 ->
  exists z, min <= z <= max /\
            randomInt (Z2F min) (Z2F max) w = Some (Z2F z, advance 1 w).
Proof.
  intros Hr Hmm Hmax Hspan.
  unfold randomInt, bind, Math_random, ret.
  rewrite SF64sub_Z2F, SF64add_Z2F by lia.
  destruct (floor_random_mul _ (max - min + 1) (Z2F (max - min + 1)) Hr)
    as (i & Hi & ->).
  { apply int_operand_Z2F. lia. }
  rewrite SF64add_Z2F by lia.
  exists (i + min). split; [lia|reflexivity].
Qed.

Lemma randomInt_in_range_witness :
  exists z, 1 <= z <= 6 /\
            randomInt (Z2F 1) (Z2F 6) (world_with half_then_zero "u" "d")
              = Some (Z2F z, advance 1 (world_with half_then_zero "u" "d")).
Proof.
  apply (randomInt_in_range 1 6 (world_with half_then_zero "u" "d"));
    [reflexivity|lia|reflexivity|vm_compute; discriminate].
Defined.

(** ** More on [ua.ts] *)

Lemma js_get_nil {A} (x : number) : js_get (@nil A) x = None.
Proof.
  unfold js_get. destruct (to_Z x) as [i|]; [|reflexivity].
  destruct (0 <=? i); reflexivity.
Qed.

(** X1. On a non-empty array of at most 2^31 elements, with the next draw in
    [0, 1), [randomChoice] reads that one draw and returns an element of the
    array: the computed index [Math.floor(Math.random() * arr.length)] never
    reaches [arr.length]. On an empty array it returns [undefined]. *)
Theorem randomChoice_in_array {A} (arr : list A) (w : World) :
  is_unit_draw (Math_random_tape w (Math_random_calls w)) = true ->
  Z.of_nat (length arr) <= 2 ^ 31 ->
  match arr with
  | [] => randomChoice arr w = None
  | _ :: _ => exists a, randomChoice arr w = Some (a, advance 1 w) /\ a ∈ arr
  end.
Proof.
  intros Hr Hlen. destruct arr as [|x arr'].
  - unfold randomChoice, bind, Math_random. now rewrite js_get_nil.
  - set (arr := x :: arr') in *.
    assert (Hn : 1 <= Z.of_nat (length arr) <= 2 ^ 31).
    { split; [|assumption]. subst arr. simpl. lia. }
    destruct (floor_random_mul _ _ _ Hr (int_operand_Z2F _ Hn)) as (i & Hi & Hfl).
    destruct (js_get_Z2F arr i Hi Hlen) as (a & Ha & Hin).
    exists a. split; [|assumption].
    unfold randomChoice, bind, Math_random. rewrite Hfl, Ha. reflexivity.
Qed.

Lemma randomChoice_in_array_witness :
  exists a, randomChoice ["10.0"; "11.0"] (world_with half_then_zero "u" "d")
              = Some (a, advance 1 (world_with half_then_zero "u" "d")) /\
            a ∈ ["10.0"; "11.0"].
Proof.
  apply (randomChoice_in_array ["10.0"; "11.0"] (world_with half_then_zero "u" "d"));
    [reflexivity|vm_compute; discriminate].
Defined.

(** X3. [parseUA] reads back what [generateUA] wrote: for every platform
    choice and draws in [0, 1), the user agent generated parses to the OS
    token between its first parentheses and to its full Chrome version, as
    both [browserVersion] and [chrome]. *)
Theorem parseUA_of_generated (p : PlatformType) (w : World) :
  random_in_range w ->
  exists ua k q os major build patch,
    generateUA p w = Some (ua, advance k w) /\
    os ∈ os_tokens q /\ version_ranges major build patch /\
    ua = ua_string os major build patch /\
    parseUA ua = Some (parsed_ua os major build patch).
Proof.
  intros Hw.
  destruct (generateUA_ok p w Hw)
    as (ua & k & Hrun & q & os & ma & bu & pa & _ & Hos & Hr & ->).
  exists (ua_string os ma bu pa), k, q, os, ma, bu, pa.
  repeat split; try assumption; try apply Hr.
  destruct (os_tokens_cases q os Hos) as (Hskip & Hparen & _ & _).
  unfold parseUA, ua_string.
  now rewrite (match_Chrome_skip _ _ Hskip), (match_Chrome_ua_tail _ _ _ Hr), Hparen.
Qed.

Lemma parseUA_of_generated_witness :
  exists ua k q os major build patch,
    generateUA linux (world_with zero_draws "u" "d")
      = Some (ua, advance k (world_with zero_draws "u" "d")) /\
    os ∈ os_tokens q /\ version_ranges major build patch /\
    ua = ua_string os major build patch /\
    parseUA ua = Some (parsed_ua os major build patch).
Proof.
  apply (parseUA_of_generated linux (world_with zero_draws "u" "d")).
  intros i. reflexivity.
Defined.

Lemma prefix_includes needle s : String.prefix needle s = true -> includes needle s = true.
Proof. intros H. destruct s; cbn [includes]; now rewrite H. Qed.

Lemma includes_tail needle c s :
  includes needle (String c s) = false -> includes needle s = false.
Proof.
  cbn [includes]. destruct (String.prefix needle (String c s)); [discriminate|auto].
Qed.

Lemma match_Chrome_none s :
  includes "Chrome/" s = false -> match_Chrome_version s = None.
Proof.
  induction s as [|c s IH]; intros H.
  - reflexivity.
  - rewrite match_Chrome_unfold.
    destruct (String.prefix "Chrome/" (String c s)) eqn:Hp.
    + apply prefix_includes in Hp. congruence.
    + apply IH. eapply includes_tail, H.
Qed.

Lemma match_parenthesised_none s :
  includes "(" s = false -> match_parenthesised s = None.
Proof.
  induction s as [|c s IH]; intros H.
  - reflexivity.
  - cbn [match_parenthesised].
    destruct (Ascii.eqb c "(") eqn:Hc.
    + apply Ascii.eqb_eq in Hc. subst c. destruct s; discriminate.
    + cbv zeta. apply IH. eapply includes_tail, H.
Qed.

(** X4. A string with no occurrence of [Chrome/], or with no opening
    parenthesis, is not a user agent for [parseUA], which returns [null],
    and [generateClientHints] then returns the empty object: no header is
    made up for a browser the pattern does not recognise. *)
Theorem parseUA_rejects (ua : string) :
  (includes "Chrome/" ua = false \/ includes "(" ua = false) ->
  parseUA ua = None /\ generateClientHints ua = [].
Proof.
  intros H.
  assert (Hp : parseUA ua = None).
  { unfold parseUA. destruct H as [H|H].
    - now rewrite (match_Chrome_none _ H).
    - rewrite (match_parenthesised_none _ H).
      now destruct (match_Chrome_version ua). }
  split; [assumption|]. unfold generateClientHints. now rewrite Hp.
Qed.

Lemma parseUA_rejects_witness :
  parseUA "Mozilla/5.0 (X11; Linux x86_64; rv:120.0) Gecko/20100101 Firefox/120.0" = None /\
  generateClientHints
    "Mozilla/5.0 (X11; Linux x86_64; rv:120.0) Gecko/20100101 Firefox/120.0" = [].
Proof.
  apply (parseUA_rejects
           "Mozilla/5.0 (X11; Linux x86_64; rv:120.0) Gecko/20100101 Firefox/120.0").
  left. reflexivity.
Defined.

(** X5. The weights as the code applies them. For the platform choice
    [random], [generateUA] reads one draw [rand] and then runs the Windows
    generator when [rand < 0.7], the Mac generator when
    [rand < 0.8999999999999999] (the double [0.7 + 0.2]), the Linux
    generator when [rand < 0.9999999999999999] (the double
    [0.7 + 0.2 + 0.1]), and the Windows generator of the default branch
    otherwise. *)
Theorem generateUA_random_thresholds (w : World) :
  let rand := Math_random_tape w (Math_random_calls w) in
  generateUA random w =
    (if SFltb rand lit_0_7 then generateWindowsUA
     else if SFltb rand lit_below_0_9 then generateMacUA
     else if SFltb rand lit_below_1 then generateLinuxUA
     else generateWindowsUA) (advance 1 w).
Proof.
  cbv zeta. unfold generateUA, bind. rewrite resolve_platform_random.
  rewrite resolved_platform_thresholds.
  destruct (SFltb _ lit_0_7); [reflexivity|].
  destruct (SFltb _ lit_below_0_9); [reflexivity|].
  destruct (SFltb _ lit_below_1); reflexivity.
Qed.

(** ** More on [profile.ts] and on the generated hardware *)

(** X6. [create] stores what it returns: the new profile has the uuid drawn
    as its id, the name, platform choice and proxy it was given and two
    successive clock readings as [createdAt] and [lastUsed]; [get] of that
    id then returns the same record, and the configuration of every other
    id is what it was. *)
Theorem create_then_get (name_ : string) (platform_ : PlatformType)
    (proxy_ : option ProxyConfig) (w : World) :
  random_in_range w ->
  exists c w',
    ProfileManager.create name_ platform_ proxy_ w = Some (c, w') /\
    id c = uuid_tape w (uuid_calls w) /\
    name c = name_ /\ platform c = platform_ /\ proxy c = proxy_ /\
    createdAt c = Date_tape w (Date_calls w) /\
    lastUsed c = Date_tape w (S (Date_calls w)) /\
    ProfileManager.get (id c) w' = Some (Some c, w') /\
    (forall other, other <> id c -> config_files w' !! other = config_files w !! other).
Proof.
  intros Hw. rewrite create_unfold. cbv zeta.
  set (w3 := mkWorld _ _ _ _ _ _ _).
  destruct (generate_fingerprint_ok platform_ w3) as (f & k & Hrun & _).
  { intros i. apply Hw. }
  rewrite Hrun. eexists _, _. split; [reflexivity|].
  cbn [id name platform proxy createdAt lastUsed].
  repeat (split; [reflexivity|]).
  unfold ProfileManager.get, read_config. cbn [config_files advance w3]. split.
  - now rewrite lookup_insert_eq.
  - intros other Hne. now rewrite lookup_insert_ne.
Qed.

Lemma create_then_get_witness :
  exists c w',
    ProfileManager.create "shop" linux None (world_with zero_draws "u-1" "d") = Some (c, w') /\
    id c = "u-1" /\ name c = "shop" /\ platform c = linux /\ proxy c = None /\
    createdAt c = "d" /\ lastUsed c = "d" /\
    ProfileManager.get (id c) w' = Some (Some c, w') /\
    (forall other, other <> id c ->
       config_files w' !! other = config_files (world_with zero_draws "u-1" "d") !! other).
Proof.
  apply (create_then_get "shop" linux None (world_with zero_draws "u-1" "d")).
  intros i. reflexivity.
Defined.

(** X7. [update] of an id with no configuration returns [null] and changes
    nothing. Otherwise it returns the old record overlaid with the keys of
    [updates], except that [lastUsed] is always the current clock reading,
    also when [updates] carries a [lastUsed]; it writes that record under
    the id it was called with, also when [updates] changes the [id] field,
    so that [get] of that id returns it; and it touches no other
    configuration. *)
Theorem update_overlays (profileId : string) (updates : ProfileUpdates) (w : World) :
  match config_files w !! profileId with
  | None => ProfileManager.update profileId updates w = Some (None, w)
  | Some config =>
      exists updated w',
        ProfileManager.update profileId updates w = Some (Some updated, w') /\
        updated = merge_updates config updates (Date_tape w (Date_calls w)) /\
        lastUsed updated = Date_tape w (Date_calls w) /\
        id updated = default (id config) (upd_id updates) /\
        ProfileManager.get profileId w' = Some (Some updated, w') /\
        (forall other, other <> profileId ->
           config_files w' !! other = config_files w !! other)
  end.
Proof.
  destruct (config_files w !! profileId) as [config|] eqn:Hlook.
  - rewrite (update_found _ _ _ _ Hlook). eexists _, _. split; [reflexivity|].
    repeat (split; [reflexivity|]).
    unfold ProfileManager.get, read_config. cbn [config_files]. split.
    + now rewrite lookup_insert_eq.
    + intros other Hne. now rewrite lookup_insert_ne.
  - unfold ProfileManager.update, ProfileManager.get, read_config, bind.
    now rewrite Hlook.
Qed.

(** X8. Every profile that [create] returns is well formed. For every
    platform choice and draws in [0, 1), [create] succeeds; the user agent
    is one the generators write for the requested platform (for [random],
    for the platform drawn), with a Chrome version in the generated ranges;
    the canvas seed is 32 hexadecimal digits; the GPU is an entry of the GPU
    table; and every hardware attribute is an entry of its table, the
    navigator platform being one of [Win32], [MacIntel] and
    [Linux x86_64]. *)
Theorem create_well_formed (name_ : string) (platform_ : PlatformType)
    (proxy_ : option ProxyConfig) (w : World) :
  random_in_range w ->
  exists c w',
    ProfileManager.create name_ platform_ proxy_ w = Some (c, w') /\
    (exists q os major build patch,
       (platform_ <> random -> q = platform_) /\ os ∈ os_tokens q /\
       version_ranges major build patch /\
       userAgent c = ua_string os major build patch) /\
    is_seed (canvas_seed (canvas c)) /\
    {| vendor := webgl_vendor (webgl c); renderer := webgl_renderer (webgl c) |}
      ∈ GPU_CONFIGS /\
    hardware_from_tables (hardware c) /\
    hw_platform (hardware c) ∈ ["Win32"; "MacIntel"; "Linux x86_64"].
Proof.
  intros Hw. rewrite create_unfold. cbv zeta.
  set (w3 := mkWorld _ _ _ _ _ _ _).
  destruct (generate_fingerprint_ok platform_ w3) as (f & k & Hrun & Hua & Hseed & Hgpu & Hh).
  { intros i. apply Hw. }
  rewrite Hrun. eexists _, _. split; [reflexivity|].
  cbn [userAgent canvas webgl hardware].
  repeat (split; [assumption|]). apply Hh.
Qed.

Lemma create_well_formed_witness :
  exists c w',
    ProfileManager.create "p" random None (world_with half_then_zero "u" "d")
      = Some (c, w') /\
    (exists q os major build patch,
       (random <> random -> q = random) /\ os ∈ os_tokens q /\
       version_ranges major build patch /\
       userAgent c = ua_string os major build patch) /\
    is_seed (canvas_seed (canvas c)) /\
    {| vendor := webgl_vendor (webgl c); renderer := webgl_renderer (webgl c) |}
      ∈ GPU_CONFIGS /\
    hardware_from_tables (hardware c) /\
    hw_platform (hardware c) ∈ ["Win32"; "MacIntel"; "Linux x86_64"].
Proof.
  apply (create_well_formed "p" random None (world_with half_then_zero "u" "d")).
  intros i. destruct i; reflexivity.
Defined.

(** X9. The generators follow a platform they are given. Called with
    [windows], [mac] or [linux] and draws in [0, 1),
    [getDefaultHardwareConfig] returns the navigator platform of that
    platform, and [getDefaultWebGLConfig] returns a GPU whose vendor
    contains [(Apple)] exactly when the platform is [mac]. *)
Theorem explicit_platform_is_followed (platform_ : PlatformType) (w : World) :
  random_in_range w -> platform_ <> random ->
  (exists h k, getDefaultHardwareConfig platform_ w = Some (h, advance k w) /\
               hw_platform h = navigatorPlatform platform_) /\
  (exists g k, getDefaultWebGLConfig platform_ w = Some (g, advance k w) /\
               includes "(Apple)" (webgl_vendor g) =
                 match platform_ with mac => true | _ => false end).
Proof. apply generators_follow_platform. Qed.

Lemma explicit_platform_is_followed_witness :
  (exists h k, getDefaultHardwareConfig mac (world_with zero_draws "u" "d")
                 = Some (h, advance k (world_with zero_draws "u" "d")) /\
               hw_platform h = navigatorPlatform mac) /\
  (exists g k, getDefaultWebGLConfig mac (world_with zero_draws "u" "d")
                 = Some (g, advance k (world_with zero_draws "u" "d")) /\
               includes "(Apple)" (webgl_vendor g) = true).
Proof.
  apply (explicit_platform_is_followed mac (world_with zero_draws "u" "d"));
    [intros i; reflexivity|discriminate].
Defined.

Lemma LANGUAGES_head l : l ∈ LANGUAGES -> head (list_ l) = Some (primary l).
Proof.
  intros H. apply list_elem_of_In in H. simpl in H.
  repeat (destruct H as [<-|H]; [reflexivity|]). destruct H.
Qed.

Lemma TIMEZONES_offsets tz :
  tz ∈ TIMEZONES -> tz = "Europe/London" \/ getTimezoneOffset tz <> 0.
Proof.
  intros H. apply list_elem_of_In in H. simpl in H.
  repeat (destruct H as [<-|H]; [first [left; reflexivity | right; discriminate]|]).
  destruct H.
Qed.

(** X10. The hardware attributes that [generateRandomHardware] returns fit
    together and fit the hardware script: [language] is the first entry of
    [languages], the time zone is one the script's offset table knows (the
    fallback offset 0 is only ever used for Europe/London, whose entry is
    0), and the screen is tall enough for the script's [availHeight], the
    height less 40, to be positive. *)
Theorem generated_hardware_coherent (platform_ : PlatformType) (w : World) :
  random_in_range w ->
  exists h k,
    generateRandomHardware platform_ w = Some (h, advance k w) /\
    head (languages h) = Some (language h) /\
    (timezone h = "Europe/London" \/ getTimezoneOffset (timezone h) <> 0) /\
    0 < screenHeight h - 40.
Proof.
  intros Hw.
  destruct (generateRandomHardware_ok platform_ w Hw) as (h & k & Hrun & Hh & _).
  exists h, k. split; [assumption|].
  destruct Hh as (_ & _ & _ & Hlang & Htz & Hscreen & _).
  split; [apply (LANGUAGES_head _ Hlang)|]. split; [apply TIMEZONES_offsets, Htz|].
  apply list_elem_of_In in Hscreen. simpl in Hscreen.
  repeat (destruct Hscreen as [Hs|Hscreen];
          [apply (f_equal height) in Hs; cbn [height] in Hs; lia|]).
  destruct Hscreen.
Qed.

Lemma generated_hardware_coherent_witness :
  exists h k,
    generateRandomHardware random (world_with half_then_zero "u" "d")
      = Some (h, advance k (world_with half_then_zero "u" "d")) /\
    head (languages h) = Some (language h) /\
    (timezone h = "Europe/London" \/ getTimezoneOffset (timezone h) <> 0) /\
    0 < screenHeight h - 40.
Proof.
  apply (generated_hardware_coherent random (world_with half_then_zero "u" "d")).
  intros i. destruct i; reflexivity.
Defined.

(** ** More on the canvas script *)

Section CanvasProperties.

Variable Math_sin : number -> number.
Variable serialize_bitmap : Z -> Z -> list Z -> list string -> string.

Lemma hash_after_S k hash :
  hash_after Math_sin (S k) hash
  = snd (seededRandom_next Math_sin (hash_after Math_sin k hash)).
Proof.
  revert hash. induction k as [|k IH]; intros hash; [reflexivity|].
  change (hash_after Math_sin (S (S k)) hash)
    with (hash_after Math_sin (S k) (snd (seededRandom_next Math_sin hash))).
  rewrite IH. reflexivity.
Qed.

Lemma hash_after_add j k hash :
  hash_after Math_sin (j + k) hash = hash_after Math_sin k (hash_after Math_sin j hash).
Proof.
  revert hash. induction j as [|j IH]; intros hash; [reflexivity|].
  cbn [Nat.add hash_after]. apply IH.
Qed.

(** The inner loop, from the [hash] reached after [k] random numbers. *)
Lemma addNoise_channels_pointwise config n i j k hash0 data :
  let hash := Z2F (seed_hash (canvas_seed config +:+ "_canvas")) in
  hash0 = hash_after Math_sin k hash ->
  let res := addNoise_channels Math_sin config n i j hash0 data in
  fst res = hash_after Math_sin (k + n) hash /\
  forall p b, data !! p = Some b ->
    snd res !! p =
      Some (if decide (i + j <= p < i + j + n)%nat
            then noised_byte b (noise_at Math_sin config (k + (p - (i + j))))
            else b).
Proof.
  cbv zeta. revert j k hash0 data.
  induction n as [|n IH]; intros j k hash0 data Hh; cbn [addNoise_channels].
  - cbn [fst snd]. split; [now rewrite Nat.add_0_r|].
    intros p b Hp. destruct (decide _); [lia|assumption].
  - destruct (seededRandom_next Math_sin hash0) as [r hash'] eqn:Hnext.
    set (v := ToUint8Clamp _).
    assert (Hh' : hash' = hash_after Math_sin (S k)
                            (Z2F (seed_hash (canvas_seed config +:+ "_canvas")))).
    { rewrite hash_after_S, <- Hh, Hnext. reflexivity. }
    destruct (IH (S j) (S k) hash' (<[(i + j)%nat := v]> data) Hh') as [Hfst Hsnd].
    split; [rewrite Hfst; f_equal; lia|].
    intros p b Hp.
    destruct (decide (p = i + j)%nat) as [->|Hne].
    + assert (Hlt : (i + j < length data)%nat) by (eapply lookup_lt_Some, Hp).
      rewrite (Hsnd (i + j)%nat v) by (now apply list_lookup_insert_eq).
      destruct (decide (i + S j <= i + j < i + S j + n)%nat); [lia|].
      destruct (decide (i + j <= i + j < i + j + S n)%nat); [|lia].
      f_equal. subst v. unfold noised_byte, noise_at. rewrite Hp.
      replace (k + (i + j - (i + j)))%nat with k by lia.
      rewrite <- Hh, Hnext. reflexivity.
    + rewrite (Hsnd p b) by (now rewrite list_lookup_insert_ne).
      f_equal.
      destruct (decide (i + S j <= p < i + S j + n)%nat),
               (decide (i + j <= p < i + j + S n)%nat); try lia.
      do 2 f_equal. lia.
Qed.

(** The outer loop, from pixel [t] on. *)
Lemma addNoise_pixels_pointwise config n t hash0 data :
  let hash := Z2F (seed_hash (canvas_seed config +:+ "_canvas")) in
  hash0 = hash_after Math_sin (3 * t) hash ->
  forall p b, data !! p = Some b ->
    addNoise_pixels Math_sin config n (4 * t) hash0 data !! p =
      Some (if decide ((4 * t <= p < 4 * t + 4 * n)%nat /\ (p mod 4 <> 3)%nat)
            then noised_byte b (noise_at Math_sin config (3 * (p / 4) + p mod 4))
            else b).
Proof.
  cbv zeta. revert t hash0 data.
  induction n as [|n IH]; intros t hash0 data Hh p b Hp; cbn [addNoise_pixels].
  - destruct (decide _) as [[? _]|]; [lia|assumption].
  - pose proof (addNoise_channels_pointwise config 3 (4 * t) 0 (3 * t) hash0 data Hh) as Hc.
    cbv zeta in Hc.
    destruct (addNoise_channels Math_sin config 3 (4 * t) 0 hash0 data) as [hash' data'].
    cbn [fst snd] in Hc. destruct Hc as [Hfst Hsnd].
    replace (4 * t + 4)%nat with (4 * S t)%nat by lia.
    specialize (Hsnd p b Hp).
    assert (Hh' : hash' = hash_after Math_sin (3 * S t)
                            (Z2F (seed_hash (canvas_seed config +:+ "_canvas")))).
    { rewrite Hfst. f_equal. lia. }
    rewrite (IH (S t) hash' data' Hh' p _ Hsnd).
    f_equal.
    pose proof (Nat.div_mod_eq p 4) as Hdm.
    pose proof (Nat.mod_upper_bound p 4 ltac:(lia)) as Hmod.
    destruct (decide (4 * t + 0 <= p < 4 * t + 0 + 3)%nat) as [Hin|Hout].
    + assert (Hq : (p / 4 = t)%nat) by lia.
      destruct (decide ((4 * S t <= p < 4 * S t + 4 * n)%nat /\ (p mod 4 <> 3)%nat))
        as [[? _]|_]; [lia|].
      destruct (decide ((4 * t <= p < 4 * t + 4 * S n)%nat /\ (p mod 4 <> 3)%nat))
        as [_|Hno]; [|exfalso; apply Hno; split; lia].
      do 2 f_equal. lia.
    + destruct (decide ((4 * S t <= p < 4 * S t + 4 * n)%nat /\ (p mod 4 <> 3)%nat))
        as [[H1 H2]|Hno1];
      destruct (decide ((4 * t <= p < 4 * t + 4 * S n)%nat /\ (p mod 4 <> 3)%nat))
        as [[H3 H4]|Hno2]; try reflexivity.
      * exfalso. apply Hno2. split; [lia|assumption].
      * exfalso. apply Hno1. split; [|assumption]. lia.
Qed.

(** X15. [addNoise] byte by byte: an alpha byte (every fourth one) is kept,
    and the byte [b] of colour channel [j] of pixel [i] becomes the clamped
    and rounded [b + noise], where [noise] is computed from the
    [(3 * i + j)]-th number of the seeded generator. The noise added at a
    position depends on the seed, the noise level and the position only,
    not on the pixels. *)
Theorem addNoise_pointwise (config : CanvasNoiseConfig) (data : list Z) (p : nat) (b : Z) :
  data !! p = Some b ->
  addNoise Math_sin config data !! p =
    Some (if decide (p mod 4 = 3)%nat then b
          else noised_byte b (noise_at Math_sin config (3 * (p / 4) + p mod 4))).
Proof.
  intros Hp. unfold addNoise. cbv zeta.
  pose proof (addNoise_pixels_pointwise config ((length data + 3) / 4) 0
                (Z2F (seed_hash (canvas_seed config +:+ "_canvas"))) data eq_refl p b Hp)
    as Hpix.
  change (4 * 0)%nat with 0%nat in Hpix. rewrite Hpix. clear Hpix.
  f_equal.
  assert (Hlt : (p < length data)%nat) by (eapply lookup_lt_Some, Hp).
  pose proof (Nat.div_mod_eq (length data + 3) 4).
  pose proof (Nat.mod_upper_bound (length data + 3) 4 ltac:(lia)).
  destruct (decide (p mod 4 = 3)%nat) as [H3|H3];
    destruct (decide _) as [[? ?]|Hno]; try reflexivity; lia.
Qed.

Lemma native_getImageData_readable c :
  readable c = true -> native_getImageData c = Some (bitmap c).
Proof. intros H. unfold native_getImageData. now rewrite H. Qed.

Lemma readable_origin_clean c : readable c = true -> origin_clean c = true.
Proof. unfold readable. destruct (origin_clean c); [reflexivity|discriminate]. Qed.


(** X13. What the page reads of the whole canvas is what the page exports.
    With noise enabled, the installed [getImageData] passes its rectangle
    on to the browser's function and returns the noised copy of the pixel
    array that comes back, the noise sequence starting anew with the first
    byte of whatever rectangle was read. On a canvas with a readable 2d
    context, where the browser's read of the rectangle
    [(0, 0, width, height)] gives the bitmap, the installed
    [getImageData(0, 0, width, height)] returns the noised copy of the
    bitmap, and the installed [toDataURL] serialises exactly that pixel
    array: for the whole canvas the noise is applied once, never on top of
    itself. (Nothing of the kind is said of a read of a smaller
    rectangle.) *)
Theorem noised_read_is_noised_export
    (native_getImageData_rect : Canvas -> Rect -> option (list Z))
    (config : CanvasNoiseConfig) (d : Document) (c : Canvas) (args : list string) :
  __canvasNoiseApplied d = false ->
  HTMLCanvasElement_toDataURL d = toDataURL_native ->
  CanvasRenderingContext2D_getImageData d = getImageData_native ->
  canvas_enabled config = true -> has_2d_context c = true -> readable c = true ->
  native_getImageData_rect c (whole_canvas c) = native_getImageData c ->
  let d' := canvas_payload config d in
  let getImageData :=
    call_getImageData_args Math_sin native_getImageData_rect
      (CanvasRenderingContext2D_getImageData d') in
  (forall rect,
     getImageData c rect
       = option_map (addNoise Math_sin config) (native_getImageData_rect c rect)) /\
  exists pixels,
    pixels = addNoise Math_sin config (bitmap c) /\
    length pixels = length (bitmap c) /\
    getImageData c (whole_canvas c) = Some pixels /\
    call_toDataURL Math_sin serialize_bitmap (HTMLCanvasElement_toDataURL d') c args
      = (Some (serialize_bitmap (canvas_width c) (canvas_height c) pixels args), c).
Proof.
  intros Hmark Htd Hgid Hen H2d Hr Hwhole. unfold canvas_payload.
  rewrite Hmark, Htd, Hgid. cbv zeta.
  cbn [HTMLCanvasElement_toDataURL CanvasRenderingContext2D_getImageData].
  assert (Hrect : forall rect,
            call_getImageData_args Math_sin native_getImageData_rect
              (getImageData_noise config getImageData_native) c rect
            = option_map (addNoise Math_sin config) (native_getImageData_rect c rect)).
  { intros rect. cbn [call_getImageData_args]. rewrite Hen. cbn [negb].
    now destruct (native_getImageData_rect c rect). }
  split; [exact Hrect|].
  exists (addNoise Math_sin config (bitmap c)). split; [reflexivity|].
  split; [apply (proj1 (addNoise_pixels_spec Math_sin config _ 0 _ (bitmap c)))|].
  pose proof (readable_origin_clean c Hr) as Hoc.
  split.
  - rewrite Hrect, Hwhole, (native_getImageData_readable c Hr). reflexivity.
  - cbn [call_getImageData call_toDataURL].
    rewrite Hen, H2d, (native_getImageData_readable c Hr). cbn [negb].
    unfold native_toDataURL. cbn [putImageData origin_clean canvas_width canvas_height bitmap].
    rewrite Hoc. cbv zeta. f_equal. destruct c; reflexivity.
Qed.

(** X14. [toBlob] under the canvas script, with noise enabled, on a canvas
    with a readable 2d context: the blob delivered is the serialisation of
    the noised pixels; the canvas holds the noised pixels from the moment
    [toBlob] returns until the callback runs; and when the callback runs
    the canvas is set back to the pixels it had at the call, whatever was
    drawn on it in between. *)
Theorem toBlob_noised_until_callback (config : CanvasNoiseConfig) (d : Document)
    (c : Canvas) (args : list string) :
  __canvasNoiseApplied d = false ->
  HTMLCanvasElement_toBlob d = toBlob_native ->
  CanvasRenderingContext2D_getImageData d = getImageData_native ->
  canvas_enabled config = true -> has_2d_context c = true -> readable c = true ->
  let toBlob := HTMLCanvasElement_toBlob (canvas_payload config d) in
  exists t,
    call_toBlob Math_sin serialize_bitmap toBlob c args
      = (Some t, putImageData c (addNoise Math_sin config (bitmap c))) /\
    delivered_blob t
      = serialize_bitmap (canvas_width c) (canvas_height c)
          (addNoise Math_sin config (bitmap c)) args /\
    (forall c', bitmap (deliver t c') = bitmap c) /\
    deliver t (putImageData c (addNoise Math_sin config (bitmap c))) = c.
Proof.
  intros Hmark Htb Hgid Hen H2d Hr. unfold canvas_payload.
  rewrite Hmark, Htb, Hgid. cbv zeta. cbn [HTMLCanvasElement_toBlob].
  pose proof (readable_origin_clean c Hr) as Hoc.
  cbn [call_toBlob call_getImageData].
  rewrite Hen, H2d, (native_getImageData_readable c Hr). cbn [negb].
  unfold native_toDataURL. cbn [putImageData origin_clean canvas_width canvas_height bitmap].
  rewrite Hoc. cbv zeta. eexists. split; [reflexivity|].
  cbn [delivered_blob restores app]. split; [reflexivity|].
  unfold deliver. cbn [restores fold_left]. split; [reflexivity|].
  destruct c; reflexivity.
Qed.

End CanvasProperties.

Lemma addNoise_pointwise_witness :
  addNoise sample_sin sample_canvas_config (bitmap sample_canvas) !! 3%nat =
    Some (if decide (3 mod 4 = 3)%nat then 255
          else noised_byte 255 (noise_at sample_sin sample_canvas_config (3 * (3 / 4) + 3 mod 4))).
Proof.
  apply (addNoise_pointwise sample_sin sample_canvas_config (bitmap sample_canvas) 3 255).
  reflexivity.
Defined.


Lemma noised_read_is_noised_export_witness :
  let d' := canvas_payload sample_canvas_config fresh_document in
  let getImageData :=
    call_getImageData_args sample_sin sample_getImageData_rect
      (CanvasRenderingContext2D_getImageData d') in
  (forall rect,
     getImageData sample_canvas rect
       = option_map (addNoise sample_sin sample_canvas_config)
           (sample_getImageData_rect sample_canvas rect)) /\
  exists pixels,
    pixels = addNoise sample_sin sample_canvas_config (bitmap sample_canvas) /\
    length pixels = length (bitmap sample_canvas) /\
    getImageData sample_canvas (whole_canvas sample_canvas) = Some pixels /\
    call_toDataURL sample_sin sample_serialize (HTMLCanvasElement_toDataURL d')
      sample_canvas []
      = (Some (sample_serialize (canvas_width sample_canvas) (canvas_height sample_canvas)
                 pixels []), sample_canvas).
Proof.
  apply (noised_read_is_noised_export sample_sin sample_serialize sample_getImageData_rect
           sample_canvas_config fresh_document sample_canvas []); reflexivity.
Defined.

(** The restriction to the whole canvas matters. With the stand-ins for
    [Math.sin] and for the browser's read, the seed [a] and a noise level
    of 30, the installed [getImageData] gives the second pixel of the
    sample canvas the colour bytes 253, 126, 1 when the whole canvas is
    read and 255, 128, 1 when that pixel is read alone. *)
Lemma noised_read_of_rectangle_restarts :
  let config := {| canvas_enabled := true; canvas_noise := Z2F 30; canvas_seed := "a" |} in
  let getImageData :=
    call_getImageData_args sample_sin sample_getImageData_rect
      (CanvasRenderingContext2D_getImageData (canvas_payload config fresh_document)) in
  getImageData sample_canvas (whole_canvas sample_canvas)
    = Some [10; 200; 0; 255; 253; 126; 1; 77] /\
  getImageData sample_canvas (mkRect 1 0 1 1) = Some [255; 128; 1; 77].
Proof. vm_compute. split; reflexivity. Qed.

Lemma toBlob_noised_until_callback_witness :
  let toBlob := HTMLCanvasElement_toBlob (canvas_payload sample_canvas_config fresh_document) in
  exists t,
    call_toBlob sample_sin sample_serialize toBlob sample_canvas []
      = (Some t, putImageData sample_canvas
                   (addNoise sample_sin sample_canvas_config (bitmap sample_canvas))) /\
    delivered_blob t
      = sample_serialize (canvas_width sample_canvas) (canvas_height sample_canvas)
          (addNoise sample_sin sample_canvas_config (bitmap sample_canvas)) [] /\
    (forall c', bitmap (deliver t c') = bitmap sample_canvas) /\
    deliver t (putImageData sample_canvas
                 (addNoise sample_sin sample_canvas_config (bitmap sample_canvas)))
      = sample_canvas.
Proof.
  apply (toBlob_noised_until_callback sample_sin sample_serialize sample_canvas_config
           fresh_document sample_canvas []); reflexivity.
Defined.

(** On the sample canvas the noise is not the identity. *)
Lemma sample_noise_changes_pixels :
  addNoise sample_sin sample_canvas_config (bitmap sample_canvas) <> bitmap sample_canvas.
Proof. vm_compute. discriminate. Qed.

(** ** The WebGL script *)

Section WebGLProperties.

Variable native_getParameter : Z -> Value.
Variable native_getExtension : string -> Extension.

Lemma call_getContext_spoof_webgl config type context :
  is_webgl_type type = true ->
  call_getContext (getContext_spoof config getContext_native) type (Some context)
  = Some {| ctx_getParameter := getParameter_proxy config (ctx_getParameter context);
            ctx_getExtension := getExtension_spoof (ctx_getExtension context) |}.
Proof. intros H. cbn [call_getContext]. now rewrite H. Qed.

(** After one or more calls, the outermost wrappers answer. *)
Lemma after_getContext_webgl config type n context :
  is_webgl_type type = true ->
  exists ctx,
    after_getContext (getContext_spoof config getContext_native) type (S n) (Some context)
      = Some ctx /\
    (exists f, ctx_getParameter ctx = getParameter_proxy config f /\
       forall parameter, parameter <> 37445 -> parameter <> 37446 ->
         call_getParameter native_getParameter f parameter
         = call_getParameter native_getParameter (ctx_getParameter context) parameter) /\
    (exists g, ctx_getExtension ctx = getExtension_spoof g /\
       forall name_, name_ <> "WEBGL_debug_renderer_info" ->
         call_getExtension native_getExtension g name_
         = call_getExtension native_getExtension (ctx_getExtension context) name_).
Proof.
  intros Hty. unfold after_getContext. induction n as [|n IH].
  - change (Nat.iter 1 ?h ?x) with (h x).
    rewrite call_getContext_spoof_webgl by assumption.
    eexists. split; [reflexivity|]. cbn [ctx_getParameter ctx_getExtension].
    split; eexists; (split; [reflexivity|]); reflexivity.
  - destruct IH as (ctx & Hctx & (f & Hf & Hpar) & (g & Hg & Hext)).
    change (Nat.iter (S (S n)) ?h ?x) with (h (Nat.iter (S n) h x)).
    rewrite Hctx, call_getContext_spoof_webgl by assumption.
    eexists. split; [reflexivity|]. cbn [ctx_getParameter ctx_getExtension].
    split; eexists; (split; [reflexivity|]).
    + intros parameter H1 H2. rewrite Hf. cbn [call_getParameter].
      apply Z.eqb_neq in H1 as E1. apply Z.eqb_neq in H2 as E2. rewrite E1, E2.
      now apply Hpar.
    + intros name_ H. rewrite Hg. cbn [call_getExtension]. cbv zeta.
      apply String.eqb_neq in H as E. rewrite E. now apply Hext.
Qed.

(** X26. What the WebGL script achieves. Installed with an enabled
    configuration over the browser's own [getContext], on a canvas for
    which the browser returns a WebGL context: after any number of
    [getContext] calls for a WebGL type, at least one, the context's
    [getParameter] returns the configured vendor for 37445 and the
    configured renderer for 37446 and the browser's value for every other
    parameter, and its [getExtension] returns the two constants for
    [WEBGL_debug_renderer_info], also where the browser has no such
    extension, and the browser's answer for every other name. A context of
    another type is returned as it is, and [null] stays [null]. *)
Theorem webgl_script_spoofs (config : WebGLConfig) (d : Document) (type : string)
    (n : nat) :
  __webglSpoofApplied d = false ->
  HTMLCanvasElement_getContext d = getContext_native ->
  webgl_enabled config = true ->
  let getContext := HTMLCanvasElement_getContext (webgl_payload config d) in
  (is_webgl_type type = true ->
   exists ctx,
     after_getContext getContext type (S n) (Some native_context) = Some ctx /\
     call_getParameter native_getParameter (ctx_getParameter ctx) 37445
       = V_string (webgl_vendor config) /\
     call_getParameter native_getParameter (ctx_getParameter ctx) 37446
       = V_string (webgl_renderer config) /\
     (forall parameter, parameter <> 37445 -> parameter <> 37446 ->
        call_getParameter native_getParameter (ctx_getParameter ctx) parameter
        = native_getParameter parameter) /\
     call_getExtension native_getExtension (ctx_getExtension ctx)
       "WEBGL_debug_renderer_info" = ext_constants 37445 37446 /\
     (forall name_, name_ <> "WEBGL_debug_renderer_info" ->
        call_getExtension native_getExtension (ctx_getExtension ctx) name_
        = native_getExtension name_)) /\
  (is_webgl_type type = false ->
   forall context, call_getContext getContext type context = context) /\
  call_getContext getContext type None = None.
Proof.
  intros Hmark Hgc Hen. unfold webgl_payload. rewrite Hmark, Hgc, Hen. cbv zeta.
  cbn [HTMLCanvasElement_getContext]. split; [|split].
  - intros Hty.
    destruct (after_getContext_webgl config type n native_context Hty)
      as (ctx & Hctx & (f & Hf & Hpar) & (g & Hg & Hext)).
    exists ctx. split; [assumption|]. rewrite Hf, Hg.
    split; [reflexivity|]. split; [reflexivity|]. split; [|split; [reflexivity|]].
    + intros parameter H1 H2. cbn [call_getParameter].
      apply Z.eqb_neq in H1 as E1. apply Z.eqb_neq in H2 as E2. rewrite E1, E2.
      now apply Hpar.
    + intros name_ H. cbn [call_getExtension]. cbv zeta.
      apply String.eqb_neq in H as E. rewrite E. now apply Hext.
  - intros Hty context. cbn [call_getContext]. rewrite Hty. now destruct context.
  - reflexivity.
Qed.

End WebGLProperties.

Lemma webgl_script_spoofs_witness :
  let config := {| webgl_enabled := true; webgl_vendor := "Google Inc. (Intel)";
                   webgl_renderer := "ANGLE (Intel, Intel(R) UHD Graphics 630 Direct3D11 vs_5_0 ps_5_0, D3D11)";
                   webgl_seed := "0123456789abcdef0123456789abcdef" |} in
  let getContext := HTMLCanvasElement_getContext (webgl_payload config fresh_document) in
  (is_webgl_type "webgl2" = true ->
   exists ctx,
     after_getContext getContext "webgl2" 3 (Some native_context) = Some ctx /\
     call_getParameter sample_getParameter (ctx_getParameter ctx) 37445
       = V_string (webgl_vendor config) /\
     call_getParameter sample_getParameter (ctx_getParameter ctx) 37446
       = V_string (webgl_renderer config) /\
     (forall parameter, parameter <> 37445 -> parameter <> 37446 ->
        call_getParameter sample_getParameter (ctx_getParameter ctx) parameter
        = sample_getParameter parameter) /\
     call_getExtension sample_getExtension (ctx_getExtension ctx)
       "WEBGL_debug_renderer_info" = ext_constants 37445 37446 /\
     (forall name_, name_ <> "WEBGL_debug_renderer_info" ->
        call_getExtension sample_getExtension (ctx_getExtension ctx) name_
        = sample_getExtension name_)) /\
  (is_webgl_type "webgl2" = false ->
   forall context, call_getContext getContext "webgl2" context = context) /\
  call_getContext getContext "webgl2" None = None.
Proof.
  cbv zeta.
  apply (webgl_script_spoofs sample_getParameter sample_getExtension _ fresh_document
           "webgl2" 2); reflexivity.
Defined.

(** ** The hardware script *)

Lemma try_defineProperty_lookup obj prop v :
  try_defineProperty obj prop v !! prop =
    if redefinable obj prop then Some {| prop_get := v; prop_configurable := true |}
    else obj !! prop.
Proof.
  unfold try_defineProperty, defineProperty, redefinable.
  destruct (obj !! prop) as [p|] eqn:E; cbn.
  - destruct (prop_configurable p); cbn; [apply lookup_insert_eq|assumption].
  - apply lookup_insert_eq.
Qed.

Lemma try_defineProperty_lookup_ne obj prop prop' v :
  prop <> prop' -> try_defineProperty obj prop v !! prop' = obj !! prop'.
Proof.
  intros Hne. unfold try_defineProperty, defineProperty.
  destruct (obj !! prop) as [p|]; cbn.
  - destruct (prop_configurable p); cbn; [now apply lookup_insert_ne|reflexivity].
  - now apply lookup_insert_ne.
Qed.

Lemma define_on_both_cons prop v props obj proto :
  define_on_both ((prop, v) :: props) obj proto =
    define_on_both props (try_defineProperty obj prop v) (try_defineProperty proto prop v).
Proof. reflexivity. Qed.

(** A key outside the list is left alone, on the object and on the
    prototype. *)
Lemma define_on_both_other props obj proto prop :
  prop ∉ map fst props ->
  fst (define_on_both props obj proto) !! prop = obj !! prop /\
  snd (define_on_both props obj proto) !! prop = proto !! prop.
Proof.
  revert obj proto. induction props as [|[p0 v0] props IH]; intros obj proto Hnot.
  - split; reflexivity.
  - rewrite define_on_both_cons. cbn [map fst] in Hnot.
    apply not_elem_of_cons in Hnot as [Hne Hnot].
    destruct (IH (try_defineProperty obj p0 v0) (try_defineProperty proto p0 v0) Hnot)
      as [-> ->].
    split; apply try_defineProperty_lookup_ne; congruence.
Qed.

(** A key of the list, each key occurring once. *)
Lemma define_on_both_key props obj proto prop v :
  NoDup (map fst props) -> (prop, v) ∈ props ->
  fst (define_on_both props obj proto) !! prop = try_defineProperty obj prop v !! prop /\
  snd (define_on_both props obj proto) !! prop = try_defineProperty proto prop v !! prop.
Proof.
  revert obj proto. induction props as [|[p0 v0] props IH]; intros obj proto Hnd Hin.
  - inversion Hin.
  - rewrite define_on_both_cons. cbn [map fst] in Hnd.
    apply NoDup_cons in Hnd as [Hfresh Hnd].
    apply elem_of_cons in Hin as [Heq|Hin].
    + injection Heq as -> ->.
      apply (define_on_both_other props _ _ p0 Hfresh).
    + assert (Hne : p0 <> prop).
      { intros ->. apply Hfresh. apply list_elem_of_fmap. now exists (prop, v). }
      destruct (IH (try_defineProperty obj p0 v0) (try_defineProperty proto p0 v0) Hnd Hin)
        as [-> ->].
      rewrite !try_defineProperty_lookup.
      unfold redefinable. rewrite !try_defineProperty_lookup_ne by assumption.
      split; reflexivity.
Qed.

Lemma define_on_both_read props obj proto prop v :
  NoDup (map fst props) -> (prop, v) ∈ props ->
  spoofed_read obj proto
    (fst (define_on_both props obj proto)) (snd (define_on_both props obj proto)) prop v.
Proof.
  intros Hnd Hin. destruct (define_on_both_key props obj proto prop v Hnd Hin) as [Ho Hp].
  unfold spoofed_read, read_property. rewrite Ho, Hp, !try_defineProperty_lookup.
  unfold redefinable. destruct (obj !! prop) as [p|] eqn:E.
  - destruct (prop_configurable p); reflexivity.
  - reflexivity.
Qed.

(** X11. What the hardware script achieves. Run for the first time with an
    enabled configuration, it makes every one of its five [navigator] keys
    and six [screen] keys read as configured ([availHeight] as the screen
    height less 40) wherever the object has no non-configurable own
    property of that name; where it has one, the failure is swallowed and
    the page goes on reading the browser's value. [getTimezoneOffset]
    becomes the constant that the offset table gives for the configured
    time zone. *)
Theorem hardware_script_reads (config : HardwareConfig) (d : Document) :
  __hardwareSpoofApplied d = false -> hw_enabled config = true ->
  let d' := hardware_payload config d in
  (forall prop v, (prop, v) ∈ navigator_values config ->
     spoofed_read (navigator_props d) (navigatorProto_props d)
       (navigator_props d') (navigatorProto_props d') prop v) /\
  (forall prop v, (prop, v) ∈ screen_values config ->
     spoofed_read (screen_props d) (screenProto_props d)
       (screen_props d') (screenProto_props d') prop v) /\
  Date_getTimezoneOffset d' = getTimezoneOffset_const (getTimezoneOffset (timezone config)).
Proof.
  intros Hmark Hen. unfold hardware_payload. rewrite Hmark, Hen. cbn [negb]. cbv zeta.
  fold (navigator_values config). fold (screen_values config).
  pose proof (define_on_both_read (navigator_values config)
                (navigator_props d) (navigatorProto_props d)) as Hnav.
  pose proof (define_on_both_read (screen_values config)
                (screen_props d) (screenProto_props d)) as Hscr.
  destruct (define_on_both (navigator_values config) _ _) as [nav navProto].
  destruct (define_on_both (screen_values config) _ _) as [scr scrProto].
  cbn [navigator_props navigatorProto_props screen_props screenProto_props
       Date_getTimezoneOffset fst snd] in *.
  split; [|split; [|reflexivity]].
  - intros prop v Hin. apply Hnav; [|assumption].
    apply (bool_decide_unpack _). vm_compute. exact I.
  - intros prop v Hin. apply Hscr; [|assumption].
    apply (bool_decide_unpack _). vm_compute. exact I.
Qed.

Lemma hardware_script_reads_witness :
  let config := hardware sample_profile in
  let config := {| hw_enabled := true; hw_fields := config; hw_seed := hw_seed config |} in
  let d' := hardware_payload config fresh_document in
  (forall prop v, (prop, v) ∈ navigator_values config ->
     spoofed_read (navigator_props fresh_document) (navigatorProto_props fresh_document)
       (navigator_props d') (navigatorProto_props d') prop v) /\
  (forall prop v, (prop, v) ∈ screen_values config ->
     spoofed_read (screen_props fresh_document) (screenProto_props fresh_document)
       (screen_props d') (screenProto_props d') prop v) /\
  Date_getTimezoneOffset d' = getTimezoneOffset_const (getTimezoneOffset (timezone config)).
Proof.
  apply (hardware_script_reads
           {| hw_enabled := true; hw_fields := hardware sample_profile;
              hw_seed := hw_seed (hardware sample_profile) |} fresh_document);
    reflexivity.
Defined.

(** ** The launcher's proxy argument and the command line *)

(** X16. The proxy argument passed to Chrome: a non-empty override is used
    as it is, whatever the profile says; a WARP proxy with a port always
    points at the loopback address, whatever its host; every argument
    produced starts with [--proxy-server=]; and the user name and the
    password stored in the profile never enter it. *)
Theorem getProxyArg_facts (profile : ProfileConfig) (overrideProxy : option string) :
  (forall c s, overrideProxy = Some (String c s) ->
     getProxyArg profile overrideProxy = Some ("--proxy-server=" +:+ String c s)) /\
  (forall p port, truthy_string overrideProxy = false -> proxy profile = Some p ->
     proxy_type p = proxy_warp -> warpPort p = Some port -> port <> 0 ->
     getProxyArg profile overrideProxy
       = Some ("--proxy-server=socks5://127.0.0.1:" +:+ pretty port)) /\
  (forall arg, getProxyArg profile overrideProxy = Some arg ->
     String.prefix "--proxy-server=" arg = true) /\
  (forall username password,
     getProxyArg (with_credentials username password profile) overrideProxy
       = getProxyArg profile overrideProxy).
Proof.
  repeat split.
  - intros c s ->. reflexivity.
  - intros p port Hov Hp Hty Hport Hne. unfold getProxyArg.
    rewrite Hov, Hp, Hty, Hport. cbn.
    apply Z.eqb_neq in Hne. now rewrite Hne.
  - unfold getProxyArg. intros arg.
    destruct (truthy_string overrideProxy);
      [intros [= <-]; now apply prefix_app_l|].
    destruct (proxy profile) as [p|]; [|discriminate]. cbv zeta.
    destruct (_ && truthy_Z (warpPort p)); [intros [= <-]; now apply prefix_app_l|].
    destruct (_ && _); [|discriminate].
    intros [= <-]. now apply prefix_app_l.
  - intros username password. unfold getProxyArg, with_credentials. cbn [proxy].
    destruct (proxy profile); reflexivity.
Qed.

(** X17. Looking a profile up by reference takes the first profile of the
    list that matches by id, by id prefix or by name. So any prefix of the
    first profile's id selects it, even when the reference is the full id
    or the name of a later profile; the empty reference selects the first
    profile of any list; and nothing is found only when no profile
    matches. *)
Theorem find_profile_first_match (profileRef : string) (p : ProfileConfig)
    (profiles : list ProfileConfig) :
  (String.prefix profileRef (id p) = true ->
     find_profile profileRef (p :: profiles) = Some p) /\
  find_profile EmptyString (p :: profiles) = Some p /\
  (forall q, find_profile profileRef profiles = Some q ->
     q ∈ profiles /\ matches_ref profileRef q = true) /\
  (find_profile profileRef profiles = None ->
     forall q, q ∈ profiles -> matches_ref profileRef q = false).
Proof.
  assert (Hfirst : forall r, String.prefix r (id p) = true ->
                             find_profile r (p :: profiles) = Some p).
  { intros r H. unfold find_profile. cbn [find]. unfold matches_ref. rewrite H.
    now rewrite orb_true_r. }
  split; [apply Hfirst|]. split; [apply Hfirst; now destruct (id p)|].
  unfold find_profile. split.
  - intros q H. split; [apply list_elem_of_In|]; eapply find_some, H.
  - intros H q Hq. apply list_elem_of_In in Hq. eapply find_none; eassumption.
Qed.

(** ** [warp.ts] *)

Lemma includes_app_r needle pre t :
  includes needle t = true -> includes needle (pre +:+ t) = true.
Proof.
  intros H. induction pre as [|c pre IH]; [assumption|].
  change (String c pre +:+ t) with (String c (pre +:+ t)).
  cbn [includes]. rewrite IH. now destruct (String.prefix _ _).
Qed.

Lemma toLowerCase_app a b : toLowerCase (a +:+ b) = toLowerCase a +:+ toLowerCase b.
Proof.
  induction a as [|c a IH]; [reflexivity|].
  change (String c a +:+ b) with (String c (a +:+ b)).
  cbn [toLowerCase]. rewrite IH. reflexivity.
Qed.

(** X18. [getWarpStatus] reports a connection whenever the output of
    [warp-cli status] contains the letters of [connected], in any case and
    anywhere, also inside another word such as [Disconnected]; and it
    reports none when the command fails. *)
Theorem getWarpStatus_substring (pre word post : string) :
  includes "connected" (toLowerCase word) = true ->
  getWarpStatus_connected (Some (pre +:+ word +:+ post)) = true /\
  getWarpStatus_connected None = false.
Proof.
  intros H. split; [|reflexivity]. unfold getWarpStatus_connected.
  rewrite !toLowerCase_app. apply includes_app_r, includes_app_l, H.
Qed.

Lemma getWarpStatus_substring_witness :
  getWarpStatus_connected (Some ("Status update: " +:+ "Disconnected" +:+ ". Reason: Manual"))
    = true /\
  getWarpStatus_connected None = false.
Proof.
  apply (getWarpStatus_substring "Status update: " "Disconnected" ". Reason: Manual").
  reflexivity.
Defined.

Lemma findAvailablePort_from_spec avail n port :
  match findAvailablePort_from avail n port with
  | Some found =>
      port <= found < port + Z.of_nat n /\ avail found = true /\
      forall q, port <= q < found -> avail q = false
  | None => forall q, port <= q < port + Z.of_nat n -> avail q = false
  end.
Proof.
  revert port. induction n as [|n IH]; intros port; cbn [findAvailablePort_from].
  - intros q Hq. lia.
  - destruct (avail port) eqn:Hport.
    + split; [lia|]. split; [assumption|]. intros q Hq. lia.
    + specialize (IH (port + 1)).
      destruct (findAvailablePort_from avail n (port + 1)) as [found|].
      * destruct IH as (Hr & Hav & Hbelow). split; [lia|]. split; [assumption|].
        intros q Hq. destruct (Z.eq_dec q port) as [->|Hne]; [assumption|].
        apply Hbelow. lia.
      * intros q Hq. destruct (Z.eq_dec q port) as [->|Hne]; [assumption|].
        apply IH. lia.
Qed.

(** X19. [findAvailablePort] returns the lowest available port among
    [basePort], ..., [basePort + 99], and throws exactly when none of the
    hundred is available. *)
Theorem findAvailablePort_lowest (isPortAvailable : Z -> bool) (basePort_ : Z) :
  match findAvailablePort isPortAvailable basePort_ with
  | Some port =>
      basePort_ <= port < basePort_ + 100 /\ isPortAvailable port = true /\
      forall q, basePort_ <= q < port -> isPortAvailable q = false
  | None => forall q, basePort_ <= q < basePort_ + 100 -> isPortAvailable q = false
  end.
Proof. apply (findAvailablePort_from_spec isPortAvailable 100 basePort_). Qed.

(** X20. A profile keeps its WARP port. When [getConfigForProfile]
    succeeds, the configuration is enabled; a new profile gets the lowest
    available port from [basePort] plus the number of profiles already
    known; asking again for the same profile returns the same
    configuration and changes nothing, whether or not the port is still
    available; and the instances of other profiles are untouched. *)
Theorem getConfigForProfile_stable (isPortAvailable : Z -> bool) (profileId : string)
    (this : WarpManager.State) :
  match WarpManager.getConfigForProfile isPortAvailable profileId this with
  | Some (config, this') =>
      warp_enabled config = true /\
      (WarpManager.instances this !! profileId = None ->
         let start := WarpManager.basePort this
                      + Z.of_nat (size (WarpManager.instances this)) in
         start <= socksPort config < start + 100 /\
         isPortAvailable (socksPort config) = true /\
         forall q, start <= q < socksPort config -> isPortAvailable q = false) /\
      (forall isPortAvailable',
         WarpManager.getConfigForProfile isPortAvailable' profileId this'
           = Some (config, this')) /\
      (forall other, other <> profileId ->
         WarpManager.instances this' !! other = WarpManager.instances this !! other)
  | None =>
      WarpManager.instances this !! profileId = None /\
      forall q, let start := WarpManager.basePort this
                             + Z.of_nat (size (WarpManager.instances this)) in
                start <= q < start + 100 -> isPortAvailable q = false
  end.
Proof.
  unfold WarpManager.getConfigForProfile.
  destruct (WarpManager.instances this !! profileId) as [instance|] eqn:Hlook.
  - split; [reflexivity|]. split; [discriminate|]. split; [|reflexivity].
    intros avail'. now rewrite Hlook.
  - pose proof (findAvailablePort_from_spec isPortAvailable 100
                  (WarpManager.basePort this
                   + Z.of_nat (size (WarpManager.instances this)))) as Hport.
    unfold findAvailablePort.
    destruct (findAvailablePort_from _ _ _) as [port|]; cbv zeta.
    + split; [reflexivity|]. split; [intros _; apply Hport|]. split.
      * intros avail'. cbn [WarpManager.instances]. now rewrite lookup_insert_eq.
      * intros other Hne. cbn [WarpManager.instances]. now apply lookup_insert_ne.
    + split; [reflexivity|]. apply Hport.
Qed.

Lemma getNext_n_from (k : nat) (ps : list ProxyServer) (i : nat) :
  (i < length ps)%nat ->
  getNext_n k (ProxyManager.mkState ps i) =
    (map (fun j => ps !! ((i + j) mod length ps)%nat) (seq 0 k),
     ProxyManager.mkState ps ((i + k) mod length ps)).
Proof.
  intros Hi. assert (Hn : length ps <> 0%nat) by lia.
  revert i Hi. induction k as [|k IH]; intros i Hi.
  - cbn [getNext_n seq map]. rewrite Nat.add_0_r, Nat.mod_small by assumption.
    reflexivity.
  - cbn [getNext_n]. unfold ProxyManager.getNext.
    cbn [ProxyManager.proxies ProxyManager.currentIndex].
    destruct (length ps =? 0)%nat eqn:E; [apply Nat.eqb_eq in E; lia|].
    rewrite IH by (apply Nat.mod_upper_bound; assumption).
    f_equal.
    + cbn [seq map]. rewrite Nat.add_0_r, (Nat.mod_small i) by assumption. f_equal.
      rewrite <- seq_shift, map_map. apply map_ext. intros j.
      rewrite Nat.Div0.add_mod_idemp_l. do 2 f_equal. lia.
    + f_equal. rewrite Nat.Div0.add_mod_idemp_l. f_equal. lia.
Qed.

(** X21. [getNext] goes round the pool. On a manager created empty and
    given a non-empty list of proxies, the [j]-th call (counting from 0)
    returns the proxy at position [j] modulo the size of the pool: every
    call returns a proxy, in the order they were added, starting again
    after the last one. On an empty pool it returns [null] and changes
    nothing. *)
Theorem getNext_round_robin (ps : list ProxyServer) (k : nat) :
  ps <> [] ->
  let this := ProxyManager.addProxies ps ProxyManager.new in
  fst (getNext_n k this) = map (fun j => ps !! (j mod length ps)%nat) (seq 0 k) /\
  Forall is_Some (fst (getNext_n k this)) /\
  ProxyManager.proxies (snd (getNext_n k this)) = ps /\
  ProxyManager.getNext ProxyManager.new = (None, ProxyManager.new).
Proof.
  intros Hne. cbv zeta. unfold ProxyManager.addProxies, ProxyManager.new.
  cbn [ProxyManager.proxies ProxyManager.currentIndex app].
  assert (Hlen : (0 < length ps)%nat) by (destruct ps; [congruence|simpl; lia]).
  rewrite (getNext_n_from k ps 0 Hlen). cbn [fst snd ProxyManager.proxies].
  split; [reflexivity|]. split; [|split; reflexivity].
  apply Forall_forall. intros r Hr. apply list_elem_of_In, in_map_iff in Hr.
  destruct Hr as (j & <- & _). apply lookup_lt_is_Some_2.
  apply Nat.mod_upper_bound. lia.
Qed.

Lemma getNext_round_robin_witness :
  let a := {| server_host := "a.example"; server_port := 8080; server_username := None;
              server_password := None; server_type := server_http;
              server_country := Some "US" |} in
  let b := {| server_host := "b.example"; server_port := 1080; server_username := None;
              server_password := None; server_type := server_socks5;
              server_country := Some "DE" |} in
  let this := ProxyManager.addProxies [a; b] ProxyManager.new in
  fst (getNext_n 5 this) = map (fun j => [a; b] !! (j mod length [a; b])%nat) (seq 0 5) /\
  Forall is_Some (fst (getNext_n 5 this)) /\
  ProxyManager.proxies (snd (getNext_n 5 this)) = [a; b] /\
  ProxyManager.getNext ProxyManager.new = (None, ProxyManager.new).
Proof.
  cbv zeta. apply (getNext_round_robin _ 5). discriminate.
Defined.

(** X22. [getByCountry] and [getRandom] pick from the pool. With the next
    draw in [0, 1) and a pool of at most 2^31 proxies, [getByCountry]
    returns [null] without reading a draw when no proxy has the country
    asked for, and otherwise reads one draw and returns a proxy of the
    pool that has that country; [getRandom] returns [null] without
    reading a draw on an empty pool, and otherwise a proxy of the pool. *)
Theorem ProxyManager_picks (country : string) (this : ProxyManager.State) (w : World) :
  is_unit_draw (Math_random_tape w (Math_random_calls w)) = true ->
  Z.of_nat (length (ProxyManager.proxies this)) <= 2 ^ 31 ->
  (if decide (Exists (fun p => server_country p = Some country) (ProxyManager.proxies this))
   then exists p, ProxyManager.getByCountry country this w = Some (Some p, advance 1 w) /\
                  p ∈ ProxyManager.proxies this /\ server_country p = Some country
   else ProxyManager.getByCountry country this w = Some (None, w)) /\
  (match ProxyManager.proxies this with
   | [] => ProxyManager.getRandom this w = Some (None, w)
   | _ :: _ => exists p, ProxyManager.getRandom this w = Some (Some p, advance 1 w) /\
                         p ∈ ProxyManager.proxies this
   end).
Proof.
  intros Hr Hlen. split.
  - unfold ProxyManager.getByCountry. cbv zeta.
    set (filtered := filter _ (ProxyManager.proxies this)).
    assert (Hfl : (length filtered <= length (ProxyManager.proxies this))%nat)
      by apply length_filter.
    destruct (decide _) as [Hex|Hno].
    + apply Exists_exists in Hex as (p0 & Hin0 & Hc0).
      assert (Hp0 : p0 ∈ filtered) by (apply list_elem_of_filter; auto).
      assert (Hpos : (0 < length filtered)%nat).
      { destruct filtered; [inversion Hp0|simpl; lia]. }
      destruct (length filtered =? 0)%nat eqn:E; [apply Nat.eqb_eq in E; lia|].
      destruct (floor_random_mul _ (Z.of_nat (length filtered))
                  (Z2F (Z.of_nat (length filtered))) Hr) as (i & Hi & Hfloor).
      { apply int_operand_Z2F. lia. }
      destruct (js_get_Z2F filtered i Hi) as (p & Hget & Hp); [lia|].
      exists p. unfold bind, Math_random, ret. rewrite Hfloor, Hget.
      split; [reflexivity|]. apply list_elem_of_filter in Hp. tauto.
    + assert (Hnil : filtered = []).
      { destruct filtered as [|p l] eqn:E; [reflexivity|exfalso].
        assert (Hp : p ∈ filtered) by (rewrite E; left).
        apply list_elem_of_filter in Hp as [Hc Hin].
        apply Hno, Exists_exists. eauto. }
      rewrite Hnil. reflexivity.
  - unfold ProxyManager.getRandom.
    destruct (ProxyManager.proxies this) as [|p0 ps] eqn:E; [reflexivity|].
    rewrite <- E in *.
    assert (Hpos : (0 < length (ProxyManager.proxies this))%nat)
      by (rewrite E; simpl; lia).
    destruct (length (ProxyManager.proxies this) =? 0)%nat eqn:E0;
      [apply Nat.eqb_eq in E0; lia|].
    destruct (floor_random_mul _ (Z.of_nat (length (ProxyManager.proxies this)))
                (Z2F (Z.of_nat (length (ProxyManager.proxies this)))) Hr)
      as (i & Hi & Hfloor).
    { apply int_operand_Z2F. lia. }
    destruct (js_get_Z2F (ProxyManager.proxies this) i Hi Hlen) as (p & Hget & Hp).
    exists p. unfold bind, Math_random, ret. rewrite Hfloor, Hget. split; [reflexivity|auto].
Qed.

Lemma ProxyManager_picks_witness :
  let a := {| server_host := "a.example"; server_port := 8080; server_username := None;
              server_password := None; server_type := server_http;
              server_country := Some "US" |} in
  let b := {| server_host := "b.example"; server_port := 1080; server_username := None;
              server_password := None; server_type := server_socks5;
              server_country := Some "DE" |} in
  let this := ProxyManager.addProxies [a; b] ProxyManager.new in
  let w := world_with half_then_zero "u" "d" in
  (if decide (Exists (fun p => server_country p = Some "DE") (ProxyManager.proxies this))
   then exists p, ProxyManager.getByCountry "DE" this w = Some (Some p, advance 1 w) /\
                  p ∈ ProxyManager.proxies this /\ server_country p = Some "DE"
   else ProxyManager.getByCountry "DE" this w = Some (None, w)) /\
  (match ProxyManager.proxies this with
   | [] => ProxyManager.getRandom this w = Some (None, w)
   | _ :: _ => exists p, ProxyManager.getRandom this w = Some (Some p, advance 1 w) /\
                         p ∈ ProxyManager.proxies this
   end).
Proof.
  cbv zeta. apply ProxyManager_picks; [reflexivity|vm_compute; discriminate].
Defined.

(** ** [cleanup.ts] *)

Lemma Node_induction (P : Node -> Prop) :
  (forall size, P (File size)) ->
  (forall entries, Forall (fun e => P (snd e)) entries -> P (Folder entries)) ->
  forall n, P n.
Proof.
  intros HFile HFolder. fix IH 1. intros [size|entries].
  - apply HFile.
  - apply HFolder. induction entries as [|[name child] entries IHentries].
    + constructor.
    + constructor; [apply IH|apply IHentries].
Qed.

Lemma node_size_Folder entries :
  node_size (Folder entries) = foldr (fun e acc => node_size (snd e) + acc) 0 entries.
Proof.
  induction entries as [|[name child] entries IH]; [reflexivity|].
  cbn [foldr snd]. rewrite <- IH. reflexivity.
Qed.

Lemma sizes_nonneg_Folder entries :
  sizes_nonneg (Folder entries) = forallb (fun e => sizes_nonneg (snd e)) entries.
Proof.
  induction entries as [|[name child] entries IH]; [reflexivity|].
  cbn [forallb snd]. rewrite <- IH. reflexivity.
Qed.

Lemma node_size_nonneg n : sizes_nonneg n = true -> 0 <= node_size n.
Proof.
  induction n as [size|entries IH] using Node_induction; intros H.
  - apply Z.leb_le, H.
  - rewrite node_size_Folder. rewrite sizes_nonneg_Folder in H.
    induction entries as [|e entries IHe]; [simpl; lia|].
    cbn [forallb] in H. apply andb_true_iff in H as [H1 H2].
    apply Forall_cons in IH as [IH1 IH2].
    cbn [foldr]. specialize (IH1 H1). specialize (IHe IH2 H2). lia.
Qed.

Lemma filter_size (P : string * Node -> Prop) `{!forall e, Decision (P e)} entries :
  forallb (fun e => sizes_nonneg (snd e)) entries = true ->
  forallb (fun e => sizes_nonneg (snd e)) (filter P entries) = true /\
  foldr (fun e acc => node_size (snd e) + acc) 0 (filter P entries)
    <= foldr (fun e acc => node_size (snd e) + acc) 0 entries.
Proof.
  induction entries as [|e entries IH]; intros Hnn.
  - split; [reflexivity|simpl; lia].
  - cbn [forallb] in Hnn. apply andb_true_iff in Hnn as [H1 H2].
    destruct (IH H2) as [IHa IHb]. pose proof (node_size_nonneg _ H1).
    rewrite filter_cons. destruct (decide (P e)).
    + cbn [forallb foldr]. rewrite H1, IHa. split; [reflexivity|lia].
    + split; [assumption|]. cbn [foldr]. lia.
Qed.

(** Removing a path keeps the sizes well formed and does not add bytes. *)
Lemma remove_at_size path n :
  sizes_nonneg n = true ->
  sizes_nonneg (remove_at path n) = true /\ node_size (remove_at path n) <= node_size n.
Proof.
  revert n. induction path as [|name rest IH]; intros n Hn.
  - split; [assumption|simpl; lia].
  - destruct n as [size|entries];
      [destruct rest; split; first [assumption | simpl; lia]|].
    destruct rest as [|name' rest'].
    + cbn [remove_at]. rewrite !sizes_nonneg_Folder, !node_size_Folder in *.
      apply filter_size, Hn.
    + set (rest := name' :: rest') in *.
      change (remove_at (name :: rest) (Folder entries))
        with (Folder (map (fun e => if String.eqb (fst e) name
                                    then (fst e, remove_at rest (snd e)) else e) entries)).
      rewrite !sizes_nonneg_Folder, !node_size_Folder in *.
      induction entries as [|e entries IHe]; [split; [reflexivity|simpl; lia]|].
      cbn [forallb] in Hn. apply andb_true_iff in Hn as [H1 H2].
      destruct (IHe H2) as [IHa IHb]. destruct (IH (snd e) H1) as [IH1 IH2].
      cbn [map forallb foldr]. rewrite IHa.
      destruct (String.eqb (fst e) name); cbn [snd].
      * rewrite IH1. split; [reflexivity|lia].
      * rewrite H1. split; [reflexivity|lia].
Qed.

Lemma filter_ext_in {A} (P1 P2 : A -> Prop) `{!forall x, Decision (P1 x)}
    `{!forall x, Decision (P2 x)} (l : list A) :
  (forall x, x ∈ l -> (P1 x <-> P2 x)) -> filter P1 l = filter P2 l.
Proof.
  induction l as [|x l IH]; intros Hext; [reflexivity|].
  rewrite !filter_cons, IH by (intros y Hy; apply Hext; now right).
  pose proof (Hext x ltac:(left)) as Hx.
  destruct (decide (P1 x)), (decide (P2 x)); tauto.
Qed.

Lemma filter_all {A} (P : A -> Prop) `{!forall x, Decision (P x)} (l : list A) :
  (forall x, x ∈ l -> P x) -> filter P l = l.
Proof.
  induction l as [|x l IH]; intros Hall; [reflexivity|].
  rewrite filter_cons, IH by (intros y Hy; apply Hall; now right).
  destruct (decide (P x)) as [|Hn]; [reflexivity|].
  exfalso. apply Hn, Hall. left.
Qed.

(** The loop of [cleanAll] over the names read from the directory. *)
Lemma cleanAll_fold names entries :
  fold_left (fun remaining entry =>
               if String.eqb entry "config.json" then remaining
               else rmSync entry remaining) names entries
  = filter (fun e => fst e = "config.json" \/ fst e ∉ names) entries.
Proof.
  revert entries. induction names as [|name names IH]; intros entries.
  - cbn [fold_left]. symmetry. apply filter_all.
    intros e _. right. apply not_elem_of_nil.
  - cbn [fold_left]. rewrite IH. destruct (String.eqb name "config.json") eqn:E.
    + apply String.eqb_eq in E. subst name.
      apply filter_ext_in. intros e _. rewrite not_elem_of_cons.
      destruct (decide (fst e = "config.json")); tauto.
    + apply String.eqb_neq in E. unfold rmSync. rewrite list_filter_filter.
      apply filter_ext_in. intros e _. rewrite not_elem_of_cons.
      destruct (decide (fst e = name)) as [->|]; [|tauto].
      split; [tauto|]. intros [H|[H _]]; congruence.
Qed.

Lemma cleanAll_Folder entries :
  cleanAll (Some (Folder entries))
  = Some (Some (Folder (filter (fun e => fst e = "config.json") entries))).
Proof.
  unfold cleanAll. rewrite cleanAll_fold. do 3 f_equal.
  apply filter_ext_in. intros e He. split; [|tauto].
  intros [H|H]; [assumption|]. exfalso. apply H.
  apply list_elem_of_fmap. now exists e.
Qed.

(** X23. [cleanAll] empties a profile directory down to its configuration:
    the entries named [config.json] stay as they are, every other entry is
    removed with all it contains, and a second [cleanAll] changes nothing
    more. A path that does not exist is left alone, and a path that is a
    file makes it throw. *)
Theorem cleanAll_keeps_config (entries : list (string * Node)) :
  let kept := filter (fun e => fst e = "config.json") entries in
  cleanAll (Some (Folder entries)) = Some (Some (Folder kept)) /\
  (forall name child, (name, child) ∈ kept <->
     name = "config.json" /\ (name, child) ∈ entries) /\
  cleanAll (Some (Folder kept)) = Some (Some (Folder kept)) /\
  cleanAll None = Some None /\
  (forall size, cleanAll (Some (File size)) = None).
Proof.
  cbv zeta. split; [apply cleanAll_Folder|]. split; [|split; [|split; reflexivity]].
  - intros name child. rewrite list_elem_of_filter. reflexivity.
  - rewrite cleanAll_Folder. do 3 f_equal. apply list_filter_filter_l. tauto.
Qed.

Lemma cleanup_targets_shape opts target_ :
  target_ ∈ cleanup_targets opts ->
  (exists a, path_components target_ = [a] /\ a ∈ top_targets) \/
  (exists b, path_components target_ = ["Default"; b] /\ b ∈ Default_targets).
Proof.
  unfold cleanup_targets. rewrite !elem_of_app. intros H.
  assert (Hall : target_ ∈ ["Cache"; "Code Cache"; "GPUCache"; "ShaderCache";
                            "Default/Cache"; "Default/Code Cache"; "Default/Cookies";
                            "Default/Cookies-journal"; "Default/Local Storage";
                            "Default/Session Storage"; "Default/IndexedDB";
                            "Default/History"; "Default/History-journal";
                            "Default/Visited Links"]).
  { destruct H as [H|[H|[H|[H|[H|H]]]]];
      [destruct (opt_cache opts)|destruct (opt_cookies opts)
      |destruct (opt_localStorage opts)|destruct (opt_sessionStorage opts)
      |destruct (opt_indexedDB opts)|destruct (opt_history opts)];
      try (inversion H; fail);
      apply list_elem_of_In in H; apply list_elem_of_In; simpl in H |- *; tauto. }
  apply list_elem_of_In in Hall. simpl in Hall.
  repeat (destruct Hall as [<-|Hall];
          [first [ left; eexists; split; [reflexivity|];
                   apply (bool_decide_unpack _); vm_compute; exact I
                 | right; eexists; split; [reflexivity|];
                   apply (bool_decide_unpack _); vm_compute; exact I ]|]).
  destruct Hall.
Qed.

(** What one iteration of the selective loop keeps of a directory. *)
Lemma selective_step_frame path entries :
  ((exists a, path = [a] /\ a ∈ top_targets) \/
   (exists b, path = ["Default"; b] /\ b ∈ Default_targets)) ->
  exists entries',
    (if exists_at path (Folder entries) then remove_at path (Folder entries)
     else Folder entries) = Folder entries' /\
    (forall name child, (name, child) ∈ entries ->
       name ∉ top_targets -> name <> "Default" -> (name, child) ∈ entries') /\
    (forall sub name child, ("Default", Folder sub) ∈ entries -> (name, child) ∈ sub ->
       name ∉ Default_targets ->
       exists sub', ("Default", Folder sub') ∈ entries' /\ (name, child) ∈ sub').
Proof.
  intros Hshape. destruct (exists_at path (Folder entries)).
  2:{ exists entries. split; [reflexivity|]. split; [auto|]. eauto. }
  destruct Hshape as [(a & -> & Ha)|(b & -> & Hb)].
  - exists (rmSync a entries). split; [reflexivity|]. split.
    + intros name child Hin Hnot _. apply list_elem_of_filter. split; [|assumption].
      cbn [fst]. congruence.
    + intros sub name child Hin Hsub _. exists sub. split; [|assumption].
      apply list_elem_of_filter. split; [|assumption]. cbn [fst]. intros <-.
      revert Ha. apply (bool_decide_unpack _). vm_compute. exact I.
  - eexists. split; [reflexivity|]. split.
    + intros name child Hin _ Hne. apply list_elem_of_fmap. exists (name, child).
      split; [|assumption]. cbn [fst].
      apply String.eqb_neq in Hne. now rewrite Hne.
    + intros sub name child Hin Hsub Hnot. exists (rmSync b sub). split.
      * apply list_elem_of_fmap. exists ("Default", Folder sub). split; [|assumption].
        reflexivity.
      * apply list_elem_of_filter. split; [|assumption]. cbn [fst]. congruence.
Qed.

Lemma selective_loop_frame targets entries :
  (forall t, t ∈ targets ->
     (exists a, path_components t = [a] /\ a ∈ top_targets) \/
     (exists b, path_components t = ["Default"; b] /\ b ∈ Default_targets)) ->
  exists entries',
    fold_left
      (fun state target_ =>
         match state with
         | Some n =>
             let path := path_components target_ in
             if exists_at path n then Some (remove_at path n) else Some n
         | None => None
         end) targets (Some (Folder entries)) = Some (Folder entries') /\
    (forall name child, (name, child) ∈ entries ->
       name ∉ top_targets -> name <> "Default" -> (name, child) ∈ entries') /\
    (forall sub name child, ("Default", Folder sub) ∈ entries -> (name, child) ∈ sub ->
       name ∉ Default_targets ->
       exists sub', ("Default", Folder sub') ∈ entries' /\ (name, child) ∈ sub').
Proof.
  revert entries. induction targets as [|t targets IH]; intros entries Hshape.
  - exists entries. split; [reflexivity|]. split; [auto|]. eauto.
  - destruct (selective_step_frame (path_components t) entries) as (e1 & Hstep & Htop & Hdef).
    { apply Hshape. left. }
    destruct (IH e1) as (e2 & Hfold & Htop2 & Hdef2).
    { intros t' Ht'. apply Hshape. now right. }
    exists e2. split.
    + cbn [fold_left]. cbv zeta.
      replace (if exists_at (path_components t) (Folder entries)
               then Some (remove_at (path_components t) (Folder entries))
               else Some (Folder entries)) with (Some (Folder e1)); [assumption|].
      rewrite <- Hstep. now destruct (exists_at _ _).
    + split.
      * intros name child Hin Hnot Hne. apply Htop2; auto.
      * intros sub name child Hin Hsub Hnot.
        destruct (Hdef sub name child Hin Hsub Hnot) as (sub1 & Hin1 & Hsub1).
        apply (Hdef2 sub1 name child Hin1 Hsub1 Hnot).
Qed.

(** X24. The selective cleanup touches its targets only. Without the
    [all] option, [cleanProfile] never throws, and in a profile directory
    it leaves every top-level entry other than [Cache], [Code Cache],
    [GPUCache], [ShaderCache] and [Default] as it is, [config.json] among
    them, and inside [Default] every entry that is not one of its ten
    targets, such as [Preferences] or [Web Data]. *)
Theorem cleanProfile_selective_frame (options : PartialCleanupOptions)
    (entries : list (string * Node)) :
  default false (given_all options) = false ->
  (exists entries',
     cleanProfile (Some (Folder entries)) options = Some (Some (Folder entries')) /\
     (forall name child, (name, child) ∈ entries ->
        name ∉ top_targets -> name <> "Default" -> (name, child) ∈ entries') /\
     (forall child, ("config.json", child) ∈ entries -> ("config.json", child) ∈ entries') /\
     (forall sub name child, ("Default", Folder sub) ∈ entries -> (name, child) ∈ sub ->
        name ∉ Default_targets ->
        exists sub', ("Default", Folder sub') ∈ entries' /\ (name, child) ∈ sub')) /\
  cleanProfile None options = Some None /\
  (forall size, cleanProfile (Some (File size)) options = Some (Some (File size))).
Proof.
  intros Hall. unfold cleanProfile. cbv zeta. cbn [cleanup_opts opt_all]. rewrite Hall.
  split; [|split].
  - destruct (selective_loop_frame (cleanup_targets (cleanup_opts options)) entries)
      as (entries' & Hfold & Htop & Hdef).
    { intros t. apply cleanup_targets_shape. }
    exists entries'. split; [exact (f_equal Some Hfold)|]. split; [assumption|].
    split; [|assumption].
    intros child Hin. apply Htop; [assumption| |discriminate].
    apply (bool_decide_unpack _). vm_compute. exact I.
  - f_equal. induction (cleanup_targets (cleanup_opts options)) as [|t l IH];
      [reflexivity|apply IH].
  - intros size. f_equal.
    induction (cleanup_targets (cleanup_opts options)) as [|t l IH]; [reflexivity|].
    cbn [fold_left]. cbv zeta.
    assert (E : exists a rest, path_components t = a :: rest).
    { unfold path_components. generalize EmptyString.
      induction t as [|c t IHt]; intros cur; cbn [path_components_from]; [eauto|].
      destruct (Ascii.eqb c "/"); [eauto|apply IHt]. }
    destruct E as (a & rest & ->). cbn [exists_at]. apply IH.
Qed.

Lemma cleanProfile_selective_frame_witness :
  let options := {| given_cookies := None; given_cache := None; given_localStorage := None;
                    given_sessionStorage := None; given_indexedDB := None;
                    given_history := None; given_all := Some false |} in
  let entries := match sample_profile_dir with Folder es => es | File _ => [] end in
  (exists entries',
     cleanProfile (Some (Folder entries)) options = Some (Some (Folder entries')) /\
     (forall name child, (name, child) ∈ entries ->
        name ∉ top_targets -> name <> "Default" -> (name, child) ∈ entries') /\
     (forall child, ("config.json", child) ∈ entries -> ("config.json", child) ∈ entries') /\
     (forall sub name child, ("Default", Folder sub) ∈ entries -> (name, child) ∈ sub ->
        name ∉ Default_targets ->
        exists sub', ("Default", Folder sub') ∈ entries' /\ (name, child) ∈ sub')) /\
  cleanProfile None options = Some None /\
  (forall size, cleanProfile (Some (File size)) options = Some (Some (File size))).
Proof.
  cbv zeta. apply cleanProfile_selective_frame. reflexivity.
Defined.

Lemma selective_loop_size targets n :
  sizes_nonneg n = true ->
  exists n',
    fold_left
      (fun state target_ =>
         match state with
         | Some n =>
             let path := path_components target_ in
             if exists_at path n then Some (remove_at path n) else Some n
         | None => None
         end) targets (Some n) = Some n' /\
    sizes_nonneg n' = true /\ node_size n' <= node_size n.
Proof.
  revert n. induction targets as [|t targets IH]; intros n Hn.
  - exists n. split; [reflexivity|]. split; [assumption|lia].
  - cbn [fold_left]. cbv zeta.
    destruct (remove_at_size (path_components t) n Hn) as [H1 H2].
    destruct (exists_at (path_components t) n).
    + destruct (IH _ H1) as (n' & Hfold & Hnn & Hle).
      exists n'. split; [assumption|]. split; [assumption|lia].
    + apply IH, Hn.
Qed.

(** X25. Cleaning never adds bytes. For a profile directory whose files
    have non-negative sizes, [cleanProfile] with any options succeeds and
    leaves a directory whose [getProfileSize] is at most what it was
    before, so the difference the command line prints as freed is never
    negative; and [getProfileSize] of a path that does not exist is 0. *)
Theorem cleanProfile_never_grows (options : PartialCleanupOptions)
    (entries : list (string * Node)) :
  sizes_nonneg (Folder entries) = true ->
  exists entries' before after,
    cleanProfile (Some (Folder entries)) options = Some (Some (Folder entries')) /\
    getProfileSize (Some (Folder entries)) = Some before /\
    getProfileSize (Some (Folder entries')) = Some after /\
    0 <= after <= before /\
    getProfileSize None = Some 0.
Proof.
  intros Hn. unfold cleanProfile. cbv zeta.
  destruct (opt_all (cleanup_opts options)).
  - rewrite cleanAll_Folder.
    rewrite sizes_nonneg_Folder in Hn.
    destruct (filter_size (fun e => fst e = "config.json") entries Hn) as [H1 H2].
    eexists _, _, _. split; [reflexivity|]. split; [reflexivity|].
    split; [reflexivity|]. split; [|reflexivity].
    rewrite !node_size_Folder. split; [|assumption].
    rewrite <- node_size_Folder. apply node_size_nonneg.
    now rewrite sizes_nonneg_Folder.
  - destruct (selective_loop_size (cleanup_targets (cleanup_opts options))
                (Folder entries) Hn) as (n' & Hfold & Hnn & Hle).
    destruct (selective_loop_frame (cleanup_targets (cleanup_opts options)) entries)
      as (entries' & Hfold' & _).
    { intros t. apply cleanup_targets_shape. }
    rewrite Hfold' in Hfold. injection Hfold as <-.
    exists entries', (node_size (Folder entries)), (node_size (Folder entries')).
    split; [exact (f_equal Some Hfold')|]. split; [reflexivity|]. split; [reflexivity|].
    split; [|reflexivity]. split; [apply node_size_nonneg, Hnn|assumption].
Qed.

Lemma cleanProfile_never_grows_witness :
  let options := {| given_cookies := None; given_cache := None; given_localStorage := None;
                    given_sessionStorage := None; given_indexedDB := None;
                    given_history := None; given_all := None |} in
  let entries := match sample_profile_dir with Folder es => es | File _ => [] end in
  exists entries' before after,
    cleanProfile (Some (Folder entries)) options = Some (Some (Folder entries')) /\
    getProfileSize (Some (Folder entries)) = Some before /\
    getProfileSize (Some (Folder entries')) = Some after /\
    0 <= after <= before /\
    getProfileSize None = Some 0.
Proof.
  cbv zeta. apply cleanProfile_never_grows. reflexivity.
Defined.

(** On the sample directory the default cleanup frees the cache, the
    cookies and the local storage, and nothing else. *)
Lemma sample_cleanup_sizes :
  getProfileSize (Some sample_profile_dir) = Some 39118 /\
  (exists n, cleanProfile (Some sample_profile_dir)
               {| given_cookies := None; given_cache := None; given_localStorage := None;
                  given_sessionStorage := None; given_indexedDB := None;
                  given_history := None; given_all := None |} = Some (Some n) /\
             getProfileSize (Some n) = Some 5650).
Proof. split; [reflexivity|]. eexists. split; reflexivity. Qed.
